(** * CBS1 Offer Importer: the field-extraction engine of [import_offers.py]

    A shallow embedding of the extraction functions of [import_offers.py]
    and the properties of them that the specification states.

    Conventions of the embedding.
    - A Python [str] is a list of characters.  Characters are the code
      points 0..255 (Latin-1), carried by [ascii]: code point 167 is the
      section sign.  Python's Unicode character classes ([str.isspace],
      [\d], [\w], [str.upper]) are written out for this range.
    - PDF coordinates, scale factors and brightness are Python floats; they
      are embedded as exact rationals ([Q]), so comparisons are the code's
      comparisons and arithmetic is the arithmetic the floats approximate.
      The commission, which the code divides by 100 before it writes it
      out, is rounded as the floats round it ([nearest_float]).
    - A Python [dict] is a [gmap]; [None] is [None] of [option] or [VNone]
      of [pyval]. *)

From Stdlib Require Import QArith Qabs Qround Qreduction Ascii String Sorted
  DecimalString.
From stdpp Require Import gmap list.

Local Open Scope Z_scope.

(** ** Rational numbers as the code compares them *)

Definition Qltb (a b : Q) : bool := negb (Qle_bool b a).
Definition Qgtb (a b : Q) : bool := Qltb b a.
Definition Qgeb (a b : Q) : bool := Qle_bool b a.

(** Python's [int(x)] on a float: truncation toward zero. *)
Definition py_int_of_float (x : Q) : Z := Z.quot (Qnum x) (Zpos (Qden x)).

(** ** Python strings over Latin-1 *)

Definition str := list ascii.

Definition code (c : ascii) : N := N_of_ascii c.

(** Source literals are written in UTF-8; [py] reads one as the Python
    string it denotes (two-byte sequences of the Latin-1 range become one
    character). *)
Fixpoint utf8_latin1 (l : list ascii) : str :=
  match l with
  | [] => []
  | c1 :: l' =>
      match l' with
      | c2 :: r =>
          if (code c1 =? 194)%N then c2 :: utf8_latin1 r
          else if (code c1 =? 195)%N
               then ascii_of_N (code c2 + 64) :: utf8_latin1 r
               else c1 :: utf8_latin1 l'
      | [] => [c1]
      end
  end.

Definition py (s : string) : str := utf8_latin1 (list_ascii_of_string s).

Definition section_sign : ascii := ascii_of_N 167.

Definition chr_eqb (a b : ascii) : bool := Ascii.eqb a b.

Fixpoint str_eqb (a b : str) : bool :=
  match a, b with
  | [], [] => true
  | x :: a', y :: b' => chr_eqb x y && str_eqb a' b'
  | _, _ => false
  end.

(** [str.isspace] on one character (also the regular-expression class
    [\s]). *)
Definition is_space (c : ascii) : bool :=
  let n := code c in
  ((9 <=? n) && (n <=? 13) || (28 <=? n) && (n <=? 32)
   || (n =? 133) || (n =? 160))%N.

(** The regular-expression class [\d]: the decimal digits. *)
Definition is_digit (c : ascii) : bool :=
  let n := code c in ((48 <=? n) && (n <=? 57))%N.

Definition is_ascii_upper (c : ascii) : bool :=
  let n := code c in ((65 <=? n) && (n <=? 90))%N.

Definition is_ascii_lower (c : ascii) : bool :=
  let n := code c in ((97 <=? n) && (n <=? 122))%N.

(** The regular-expression class [\w]: [str.isalnum] or the underscore. *)
Definition is_word (c : ascii) : bool :=
  let n := code c in
  (is_digit c || is_ascii_upper c || is_ascii_lower c || (n =? 95)
   || (n =? 170) || (n =? 178) || (n =? 179) || (n =? 181) || (n =? 185)
   || (n =? 186) || (188 <=? n) && (n <=? 190)
   || (192 <=? n) && (n <=? 214) || (216 <=? n) && (n <=? 246)
   || (248 <=? n))%N.

(** [str.upper] on one character.  The sharp s becomes two letters.  The
    capitals of the micro sign and of y with diaeresis lie outside
    Latin-1; they stand for themselves here, which no comparison with an
    ASCII literal can tell apart. *)
Definition upper_chr (c : ascii) : str :=
  let n := code c in
  if is_ascii_lower c then [ascii_of_N (n - 32)]
  else if (n =? 223)%N then [ascii_of_N 83; ascii_of_N 83]
  else if ((224 <=? n) && (n <=? 254) && negb (n =? 247))%N
       then [ascii_of_N (n - 32)]
       else [c].

Definition upper (s : str) : str := concat (map upper_chr s).

(** Case folding of one character, as [re.IGNORECASE] compares. *)
Definition lower_chr (c : ascii) : ascii :=
  let n := code c in
  if is_ascii_upper c then ascii_of_N (n + 32)
  else if ((192 <=? n) && (n <=? 222) && negb (n =? 215))%N
       then ascii_of_N (n + 32)
       else c.

Fixpoint lstrip (s : str) : str :=
  match s with
  | c :: t => if is_space c then lstrip t else s
  | [] => []
  end.

Definition rstrip (s : str) : str := rev (lstrip (rev s)).

Definition strip (s : str) : str := rstrip (lstrip s).

Fixpoint startswith (s p : str) {struct p} : bool :=
  match p, s with
  | [], _ => true
  | x :: p', y :: s' => chr_eqb x y && startswith s' p'
  | _ :: _, [] => false
  end.

(** [sub in s] *)
Fixpoint contains (sub s : str) : bool :=
  startswith s sub ||
  match s with
  | [] => false
  | _ :: t => contains sub t
  end.

(** [s.find(sub)], [None] for -1. *)
Fixpoint find_from (sub s : str) (i : nat) : option nat :=
  if startswith s sub then Some i
  else match s with
       | [] => None
       | _ :: t => find_from sub t (S i)
       end.

Definition find (s sub : str) : option nat := find_from sub s 0.

(** [s.find(sub, start)] *)
Definition find_at (s sub : str) (start : nat) : option nat :=
  if (start <=? length s)%nat then find_from sub (drop start s) start
  else None.

(** [s[a:b]] for non-negative bounds. *)
Definition slice {A} (s : list A) (a b : nat) : list A :=
  take (b - a) (drop a s).

(** [s.replace(c, "")] for a one-character [c]. *)
Definition remove_chr (c : ascii) (s : str) : str :=
  List.filter (fun x => negb (chr_eqb x c)) s.

(** ["".join(parts)] *)
Definition join (parts : list str) : str := concat parts.

(** [s.split("\n")] *)
Definition newline : ascii := ascii_of_N 10.

Fixpoint split_lines_aux (cur : str) (s : str) : list str :=
  match s with
  | [] => [rev cur]
  | c :: t => if chr_eqb c newline then rev cur :: split_lines_aux [] t
              else split_lines_aux (c :: cur) t
  end.

Definition split_lines (s : str) : list str := split_lines_aux [] s.

(** ** Pages, glyphs and checkbox images *)

(** One entry of [page.chars]: the keys the code reads. *)
Record glyph := Glyph {
  c_text : str;
  c_x0 : Q;
  c_y0 : Q;
  c_x1 : Q;
  c_y1 : Q
}.

(** One entry of [page.images]: the keys the code reads. *)
Record image := Image {
  cb_x0 : Q;
  cb_y0 : Q;
  cb_x1 : Q;
  cb_y1 : Q
}.

(** A rendered page ([page.to_image(resolution=150).original]):
    [getdata (l, t, r, b)] is the pixel list of
    [crop((l, t, r, b)).convert('L').getdata()], values 0..255. *)
Record raster := Raster {
  pil_width : Z;
  pil_height : Z;
  getdata : Z * Z * Z * Z -> list Z
}.

Record page := Page {
  page_id : positive;            (* id(page) *)
  page_width : Q;
  page_height : Q;
  page_chars : list glyph;
  page_images : list image;
  extract_text : option str;
  to_image : raster
}.

(** The entry of the render cache for one page: raster and scale factors. *)
Definition render : Type := raster * Q * Q.

Abbreviation render_cache := (gmap positive render).

Definition ROW_OFFER_HEADER  : Z := 2.
Definition ROW_BUYER         : Z := 3.
Definition ROW_AGENT         : Z := 4.
Definition ROW_PRICE         : Z := 6.
Definition ROW_CONCESSION    : Z := 7.
Definition ROW_EARNEST       : Z := 11.
Definition ROW_LOAN_AMOUNT   : Z := 12.
Definition ROW_LOAN_TYPE     : Z := 15.
Definition ROW_LENDER        : Z := 16.
Definition ROW_LENDER_LETTER : Z := 17.
Definition ROW_TITLE_INS     : Z := 19.
Definition ROW_OEC           : Z := 21.
Definition ROW_CLOSING_SVC   : Z := 23.
Definition ROW_RECORD_CHG    : Z := 25.
Definition ROW_RESERVES      : Z := 27.
Definition ROW_OTHER_FEES    : Z := 29.
Definition ROW_LOCAL_TAX     : Z := 31.
Definition ROW_SALES_TAX     : Z := 33.
Definition ROW_PRIVATE_XFER  : Z := 35.
Definition ROW_WATER_XFER    : Z := 37.
Definition ROW_UTILITY_XFER  : Z := 39.
Definition ROW_ASSOC_ASSESS  : Z := 41.
Definition ROW_COMMISSION    : Z := 43.
Definition ROW_NET_ESCAL     : Z := 47.
Definition ROW_INCLUSIONS    : Z := 85.
Definition ROW_EXCLUSIONS    : Z := 86.
Definition ROW_ADD_PROV      : Z := 88.

(** Section 3.1 deadline table item number -> spreadsheet row, in the
    order of the dictionary literal. *)
Definition DEADLINE_ITEM_TO_ROW : list (Z * Z) :=
  [ (1, 49); (2, 50); (3, 51); (4, 52); (5, 53); (6, 54); (7, 55);
    (8, 56); (9, 57); (10, 58); (11, 59); (12, 60); (13, 61); (14, 62);
    (15, 63); (22, 64); (23, 65); (24, 66); (25, 67); (26, 68); (27, 69);
    (30, 70); (31, 71); (32, 72); (33, 73); (34, 74); (35, 75); (36, 76);
    (37, 77); (38, 78); (39, 79); (40, 80); (41, 81); (42, 82); (43, 83) ].

(** Rows the script never overwrites. *)
Definition SKIP_ROWS : gset Z :=
  list_to_set
    [ 8; 9; 10;
      13; 14;
      20; 22; 24; 26; 28; 30; 32; 34; 36; 38; 40; 42;
      44; 45; 46;
      87; 89 ].

(** ** Helpers *)

Definition sum_Z (l : list Z) : Z := fold_right Z.add 0 l.

(** The rectangle of a checkbox on the raster: [(ix, iy, ix + iw, iy + ih)]. *)
Definition crop_box (pdf_page : page) (cb_img : image) (scale_x scale_y : Q)
    : Z * Z * Z * Z :=
  let ix := py_int_of_float (cb_x0 cb_img * scale_x) in
  let iy := py_int_of_float ((page_height pdf_page - cb_y1 cb_img) * scale_y) in
  let iw := Z.max 1 (py_int_of_float ((cb_x1 cb_img - cb_x0 cb_img) * scale_x)) in
  let ih := Z.max 1 (py_int_of_float ((cb_y1 cb_img - cb_y0 cb_img) * scale_y)) in
  (ix, iy, ix + iw, iy + ih).

(** Return average pixel brightness (0 = black, 255 = white) of a checkbox
    image. *)
Definition checkbox_brightness (pdf_page : page) (cb_img : image)
    (pil_img : raster) (scale_x scale_y : Q) : Q :=
  let pixels := getdata pil_img (crop_box pdf_page cb_img scale_x scale_y) in
  match pixels with
  | [] => 255%Q
  | _ :: _ => (inject_Z (sum_Z pixels) / inject_Z (Z.of_nat (length pixels)))%Q
  end.

(** [lc.sort(key=...)]: the stable sort by a rational key. *)
Fixpoint insert_by {A} (key : A -> Q) (x : A) (l : list A) : list A :=
  match l with
  | [] => [x]
  | y :: t => if Qle_bool (key x) (key y) then x :: l
              else y :: insert_by key x t
  end.

Fixpoint sort_by {A} (key : A -> Q) (l : list A) : list A :=
  match l with
  | [] => []
  | x :: t => insert_by key x (sort_by key t)
  end.

(** The glyphs [label_after_checkbox] keeps, before sorting. *)
Definition right_of_checkbox (cb_img : image) (next_cb_x : Q) (c : glyph) : bool :=
  let cb_y_mid := ((cb_y0 cb_img + cb_y1 cb_img) / 2)%Q in
  Qgeb (c_x0 c) (cb_x1 cb_img - 1)
  && Qltb (c_x0 c) next_cb_x
  && Qltb (Qabs ((c_y0 c + c_y1 c) / 2 - cb_y_mid)) 4.

(** Return the text immediately to the right of a checkbox. *)
Definition label_after_checkbox (cb_img : image) (chars : list glyph)
    (next_cb_x : Q) : str :=
  let lc := List.filter (right_of_checkbox cb_img next_cb_x) chars in
  let lc := sort_by c_x0 lc in
  strip (join (map c_text (take 15 lc))).

(** Map raw checkbox label text to spreadsheet dropdown value. *)
Definition label_to_dropdown (label : str) : option str :=
  let u := lstrip (upper label) in
  if startswith u (py "BUYER") then Some (py "Buyer Pays")
  else if startswith u (py "SELLER") then Some (py "Seller Pays")
  else if contains (py "ONE-HALF") u || startswith u (py "ONE")
       then Some (py "Split 50/50")
  else if startswith u (py "N/A") then Some (py "n/a")
  else None.

(** ** Checkbox detection *)

(** Return all 10.5 x 10.5 checkbox images on a page. *)
Definition get_page_checkboxes (pg : page) : list image :=
  List.filter
    (fun img =>
       Qltb (Qabs (cb_x1 img - cb_x0 img - 10.5)) 1.5
       && Qltb (Qabs (cb_y1 img - cb_y0 img - 10.5)) 1.5)
    (page_images pg).

(** The test of one glyph, at index [i] of [chars], in the loop of
    [find_section_anchor_y]. *)
Definition anchor_fragment (chars : list glyph) (i : nat) : str :=
  remove_chr "."%char
    (remove_chr " "%char (join (map c_text (slice chars i (i + 10))))).

Definition anchor_prev (chars : list glyph) (i : nat) : str :=
  join (map c_text (slice chars (Nat.max 0 (i - 4)) i)).

Definition anchor_target (section_id : str) : str :=
  remove_chr " "%char (remove_chr "."%char section_id).

Definition anchor_accepts (target : str) (chars : list glyph) (i : nat)
    (c : glyph) : bool :=
  contains (c_text c) (py "0123456789")
  && negb (Qgtb (c_x0 c) 150)
  && startswith (anchor_fragment chars i)
       (slice target 0 (Nat.min 4 (length target)))
  && negb (contains [section_sign] (anchor_prev chars i)).

Fixpoint anchor_loop (target : str) (chars : list glyph) (i : nat)
    (l : list glyph) : option Q :=
  match l with
  | [] => None
  | c :: t => if anchor_accepts target chars i c then Some (c_y0 c)
              else anchor_loop target chars (S i) t
  end.

(** Find the y-coordinate of the section header for [section_id]. *)
Definition find_section_anchor_y (section_id : str) (chars : list glyph)
    : option Q :=
  anchor_loop (anchor_target section_id) chars 0 chars.

(** [min(l, key=key)] on a non-empty list [x :: l]: the first element of
    least key. *)
Fixpoint min_by {A} (key : A -> Q) (x : A) (l : list A) : A :=
  match l with
  | [] => x
  | y :: t => min_by key (if Qltb (key y) (key x) then y else x) t
  end.

(** [min(l, default=d)] on numbers. *)
Definition min_default (l : list Q) (d : Q) : Q :=
  match l with
  | [] => d
  | x :: t => min_by (fun q => q) x t
  end.

(** [a == b] on two image dictionaries, on the keys of the embedding. *)
Definition image_eqb (a b : image) : bool :=
  Qeq_bool (cb_x0 a) (cb_x0 b) && Qeq_bool (cb_y0 a) (cb_y0 b)
  && Qeq_bool (cb_x1 a) (cb_x1 b) && Qeq_bool (cb_y1 a) (cb_y1 b).

Definition on_options_line (options_y : Q) (cb : image) : bool :=
  Qltb (Qabs (cb_y0 cb - options_y)) 8.

Definition on_upper_line (options_y : Q) (cb : image) : bool :=
  let upper_y := (options_y + 14)%Q in
  Qltb (Qabs (cb_y0 cb - upper_y)) 6.

(** The candidate list [option_cbs] of [detect_checked_box_at_y]. *)
Definition option_cbs (options_y : Q) (all_checkboxes : list image)
    : list image :=
  let first := List.filter (on_options_line options_y) all_checkboxes in
  first ++
  List.filter
    (fun cb => on_upper_line options_y cb
               && negb (existsb (image_eqb cb) first))
    all_checkboxes.

(** The lookup-or-render step on the cache, keyed by [id(page)]. *)
Definition cached_render (pg : page) (rc : render_cache)
    : render * render_cache :=
  match rc !! page_id pg with
  | Some r => (r, rc)
  | None =>
      let pil := to_image pg in
      let r := (pil, (inject_Z (pil_width pil) / page_width pg)%Q,
                (inject_Z (pil_height pil) / page_height pg)%Q) in
      (r, <[page_id pg := r]> rc)
  end.

(** [value if value else "n/a"] *)
Definition or_na (value : option str) : str :=
  match value with
  | Some (c :: v) => c :: v
  | _ => py "n/a"
  end.

(** [same_y] and [next_x]: the checkboxes on the line of the winner, and
    the left edge of the nearest one to its right. *)
Definition same_line (best_cb : image) (cands : list image) : list image :=
  List.filter (fun cb => Qltb (Qabs (cb_y0 cb - cb_y0 best_cb)) 3) cands.

Definition next_checkbox_x (same_y : list image) (best_cb : image) : Q :=
  min_default
    (map cb_x0
       (List.filter (fun cb => Qgtb (cb_x0 cb) (cb_x1 best_cb)) same_y))
    9999.

(** The part of [detect_checked_box_at_y] after the cache step. *)
Definition classify (pg : page) (options_y : Q) (all_checkboxes : list image)
    (r : render) : str :=
  let '(pil_img, scale_x, scale_y) := r in
  let chars := page_chars pg in
  match option_cbs options_y all_checkboxes with
  | [] => py "n/a"
  | cb0 :: cbs =>
      let cands := cb0 :: cbs in
      let br := fun cb => checkbox_brightness pg cb pil_img scale_x scale_y in
      let best_cb := min_by br cb0 cbs in
      if Qgtb (br best_cb) 150 then py "n/a"
      else
        let same_y := same_line best_cb cands in
        let next_x := next_checkbox_x same_y best_cb in
        let raw_label := label_after_checkbox best_cb chars next_x in
        let value := label_to_dropdown raw_label in
        or_na value
  end.

(** Given the y-coordinate of an options line, find the checked checkbox
    and return its dropdown value, with the render cache after the call. *)
Definition detect_checked_box_at_y (pg : page) (options_y : Q)
    (all_checkboxes : list image) (rc : render_cache)
    : str * render_cache :=
  let '(r, rc') := cached_render pg rc in
  (classify pg options_y all_checkboxes r, rc').


(** ** Regular expressions, as [re] matches them

    The constructs the patterns of the code use, matched by backtracking
    in the order of [re]: alternatives left to right, [*] and [+] greedy. *)

Inductive regex :=
| Eps
| Cls (p : ascii -> bool)          (* one character of a class *)
| Lit (s : str)                    (* a literal string *)
| LitI (s : str)                   (* a literal under re.IGNORECASE *)
| Seq (r1 r2 : regex)
| Alt (r1 r2 : regex)
| Star (r : regex)                 (* r*, greedy *)
| Grp (n : nat) (r : regex)        (* capture group n *)
| Bol                              (* ^ *)
| Eol                              (* $ *)
| Wb.                              (* \b *)

Definition Plus (r : regex) : regex := Seq r (Star r).

Definition Seqs (l : list regex) : regex := fold_right Seq Eps l.

Definition Alts (l : list regex) : regex :=
  match l with
  | [] => Eps
  | r :: t => fold_left Alt t r
  end.

(** A position in the subject string: its index, the character before it
    and the characters from it on. *)
Record cursor := Cursor {
  pos : nat;
  prev : option ascii;
  rest : str
}.

Definition start_of (s : str) : cursor := Cursor 0 None s.

(** The cursor [n] characters further (or at the end). *)
Fixpoint skip (c : cursor) (n : nat) : cursor :=
  match n with
  | O => c
  | S n' =>
      match rest c with
      | x :: t => skip (Cursor (S (pos c)) (Some x) t) n'
      | [] => c
      end
  end.

(** The spans [(start, end)] of the capture groups. *)
Abbreviation groups := (gmap nat (nat * nat)).

Definition word_at (o : option ascii) : bool :=
  match o with
  | Some c => is_word c
  | None => false
  end.

Definition at_boundary (c : cursor) : bool :=
  xorb (word_at (prev c)) (word_at (head (rest c))).

(** [$]: at the end, or just before a newline that ends the string. *)
Definition at_end (c : cursor) : bool :=
  match rest c with
  | [] => true
  | [x] => chr_eqb x newline
  | _ => false
  end.

Fixpoint startswith_ci (s p : str) {struct p} : bool :=
  match p, s with
  | [], _ => true
  | x :: p', y :: s' =>
      chr_eqb (lower_chr x) (lower_chr y) && startswith_ci s' p'
  | _ :: _, [] => false
  end.

(** The greedy loop of [r*]: one more iteration when it consumes
    something, else the continuation. *)
Fixpoint star_loop {A : Type}
    (m : cursor -> groups -> (cursor -> groups -> option A) -> option A)
    (fuel : nat) (c : cursor) (g : groups)
    (k : cursor -> groups -> option A) : option A :=
  match fuel with
  | O => k c g
  | S fuel' =>
      match m c g (fun c1 g1 =>
                     if (pos c <? pos c1)%nat
                     then star_loop m fuel' c1 g1 k else None) with
      | Some a => Some a
      | None => k c g
      end
  end.

(** The matcher: [rmatch r c g k] is the first success, in the order of
    [re], of the continuation [k] on a match of [r] from cursor [c]. *)
Fixpoint rmatch {A : Type} (r : regex) (c : cursor) (g : groups)
    (k : cursor -> groups -> option A) {struct r} : option A :=
  match r with
  | Eps => k c g
  | Cls p =>
      match rest c with
      | x :: t => if p x then k (Cursor (S (pos c)) (Some x) t) g else None
      | [] => None
      end
  | Lit s => if startswith (rest c) s then k (skip c (length s)) g else None
  | LitI s =>
      if startswith_ci (rest c) s then k (skip c (length s)) g else None
  | Seq r1 r2 => rmatch r1 c g (fun c1 g1 => rmatch r2 c1 g1 k)
  | Alt r1 r2 =>
      match rmatch r1 c g k with
      | Some a => Some a
      | None => rmatch r2 c g k
      end
  | Star r1 => star_loop (rmatch r1) (length (rest c)) c g k
  | Grp n r1 =>
      rmatch r1 c g (fun c1 g1 => k c1 (<[n := (pos c, pos c1)]> g1))
  | Bol => if (pos c =? 0)%nat then k c g else None
  | Eol => if at_end c then k c g else None
  | Wb => if at_boundary c then k c g else None
  end.

(** A match: the cursors where it starts and ends, and its groups. *)
Record rematch := Rematch {
  m_from : cursor;
  m_to : cursor;
  m_groups : groups
}.

Definition m_start (m : rematch) : nat := pos (m_from m).
Definition m_end (m : rematch) : nat := pos (m_to m).

Definition match_at (r : regex) (c : cursor) : option rematch :=
  rmatch r c ∅ (fun c1 g1 => Some (Rematch c c1 g1)).

(** The leftmost match at or after a cursor. *)
Fixpoint search_at (r : regex) (p : nat) (pv : option ascii) (l : str)
    : option rematch :=
  match match_at r (Cursor p pv l) with
  | Some m => Some m
  | None =>
      match l with
      | [] => None
      | x :: t => search_at r (S p) (Some x) t
      end
  end.

Definition search_from (r : regex) (c : cursor) : option rematch :=
  search_at r (pos c) (prev c) (rest c).

(** [re.match(r, s)] and [re.search(r, s)] *)
Definition re_match (r : regex) (s : str) : option rematch :=
  match_at r (start_of s).

Definition re_search (r : regex) (s : str) : option rematch :=
  search_from r (start_of s).

(** [m.group(n)] on the subject [s] *)
Definition group (s : str) (m : rematch) (n : nat) : option str :=
  match m_groups m !! n with
  | Some (a, b) => Some (slice s a b)
  | None => None
  end.

(** [re.finditer(r, s)]: the successive non-overlapping matches.  After an
    empty match the scan resumes one character further. *)
Fixpoint finditer_from (fuel : nat) (r : regex) (c : cursor) : list rematch :=
  match fuel with
  | O => []
  | S fuel' =>
      match search_from r c with
      | None => []
      | Some m =>
          m :: (if (m_start m <? m_end m)%nat
                then finditer_from fuel' r (m_to m)
                else match rest (m_to m) with
                     | [] => []
                     | _ :: _ => finditer_from fuel' r (skip (m_to m) 1)
                     end)
      end
  end.

Definition finditer (r : regex) (s : str) : list rematch :=
  finditer_from (S (length s)) r (start_of s).

(** [re.sub(r, "", s)]: the subject without its matches of [r]. *)
Fixpoint sub_from (fuel : nat) (r : regex) (c : cursor) : str :=
  match fuel with
  | O => rest c
  | S fuel' =>
      match search_from r c with
      | None => rest c
      | Some m =>
          take (m_start m - pos c) (rest c)
          ++ (if (m_start m <? m_end m)%nat
              then sub_from fuel' r (m_to m)
              else match rest (m_to m) with
                   | [] => []
                   | x :: _ => x :: sub_from fuel' r (skip (m_to m) 1)
                   end)
      end
  end.

Definition re_sub_empty (r : regex) (s : str) : str :=
  sub_from (S (length s)) r (start_of s).

(** ** Numbers from text *)

Definition digit_val (c : ascii) : Z := Z.of_N (code c) - 48.

(** [int(s)] for a string of decimal digits; [None] is ValueError.  (The
    interpreter's limit on the length of the numeral is left out.) *)
Fixpoint int_digits (acc : Z) (s : str) : option Z :=
  match s with
  | [] => Some acc
  | c :: t => if is_digit c then int_digits (10 * acc + digit_val c) t
              else None
  end.

Definition py_int (s : str) : option Z :=
  match s with
  | [] => None
  | _ :: _ => int_digits 0 s
  end.

Fixpoint split_dot (s : str) : str * option str :=
  match s with
  | [] => ([], None)
  | c :: t =>
      if chr_eqb c "."%char then ([], Some t)
      else let '(a, b) := split_dot t in (c :: a, b)
  end.

(** [float(s)] for a string over the digits and the point, the strings the
    patterns of the code hand to it: digits, a point, digits, with a digit
    on one side at least; [None] is ValueError.  The value is the exact
    decimal. *)
Definition py_float (s : str) : option Q :=
  let '(ip, fo) := split_dot s in
  let fp := default [] fo in
  match ip, fp with
  | [], [] => None
  | _, _ =>
      match int_digits 0 ip, int_digits 0 fp with
      | Some a, Some b =>
          Some (Qred (inject_Z (a * 10 ^ Z.of_nat (length fp) + b)
                      / inject_Z (10 ^ Z.of_nat (length fp))))
      | _, _ => None
      end
  end.

(** ** Binary floating point

    A Python float is a binary64 number: a significand of 53 bits at most
    times a power of 2 whose exponent is -1074 at least.  [float(s)] is
    the float nearest to the decimal value of [s], and the quotient of two
    floats is the float nearest to their exact quotient, a tie going to the
    even significand.  A number that the code only reads, compares and
    writes out is carried by its exact value; where the code divides, the
    two roundings are written out.  There is no infinity: from 2^1024 on,
    where Python has [inf], the rounded value stands. *)

(** [round(x)] on a float: the nearest integer, a tie going to the even
    one. *)
Definition py_round (x : Q) : Z :=
  let f := Qfloor x in
  let d := (x - inject_Z f)%Q in
  if Qltb d (1 # 2) then f
  else if Qltb (1 # 2) d then f + 1
  else if Z.even f then f else f + 1.

(** [2^e] for an integer [e] *)
Definition two_power (e : Z) : Q :=
  if 0 <=? e then inject_Z (2 ^ e) else 1 # Z.to_pos (2 ^ (- e)).

(** The largest [k] with [2^k <= q], for a [q > 0]. *)
Definition Qlog2 (q : Q) : Z :=
  let k := Z.log2 (Qnum q) - Z.log2 (Zpos (Qden q)) in
  if Qle_bool (two_power k) q then k else k - 1.

(** The float nearest to a [q > 0]: the significand is [q] over the power
    of 2 that brings it into [2^52, 2^53), or over 2^-1074 for the numbers
    under 2^-1022, rounded to an integer. *)
Definition nearest_float_pos (q : Q) : Q :=
  let e := Z.max (Qlog2 q - 52) (-1074) in
  Qred (inject_Z (py_round (q / two_power e)) * two_power e).

Definition nearest_float (q : Q) : Q :=
  match (q ?= 0)%Q with
  | Eq => 0%Q
  | Gt => nearest_float_pos q
  | Lt => Qred (- nearest_float_pos (- q))
  end.

(** [x / y] on floats *)
Definition float_div (x y : Q) : Q := nearest_float (x / y).


(** ** PDF parsing *)

Record pdf := Pdf { pdf_pages : list page }.

(** ["\n".join(parts)] *)
Fixpoint join_lines (parts : list str) : str :=
  match parts with
  | [] => []
  | [p] => p
  | p :: t => p ++ newline :: join_lines t
  end.

Definition pdf_text (d : pdf) : str :=
  join_lines (map (fun p => default [] (extract_text p)) (pdf_pages d)).

Definition not_digit (c : ascii) : bool := negb (is_digit c).

Definition digit_or_comma (c : ascii) : bool :=
  is_digit c || chr_eqb c ","%char.

Definition digit_or_dot (c : ascii) : bool :=
  is_digit c || chr_eqb c "."%char.

Definition word_or_dot (c : ascii) : bool :=
  is_word c || chr_eqb c "."%char.

Definition not_rparen (c : ascii) : bool := negb (chr_eqb c ")"%char).

(** [([\d,]+\.\d{2})] *)
Definition amount_re : regex :=
  Grp 1 (Seqs [Plus (Cls digit_or_comma); Lit (py ".");
               Cls is_digit; Cls is_digit]).

(** [§\s*4\.1\.\s+Purchase Price[^\d]+([\d,]+\.\d{2})], and the same for
    the labels of 4.3 and 4.5. *)
Definition labelled_amount_re (number label : string) : regex :=
  Seqs [Lit (py "§"); Star (Cls is_space); Lit (py number);
        Plus (Cls is_space); Lit (py label); Plus (Cls not_digit);
        amount_re].

Definition price_re : regex := labelled_amount_re "4.1." "Purchase Price".
Definition earnest_re : regex := labelled_amount_re "4.3." "Earnest Money".
Definition new_loan_re : regex := labelled_amount_re "4.5." "New Loan".

(** [float(m.group(1).replace(",", ""))] *)
Definition amount_of (subject : str) (m : rematch) : option Q :=
  match group subject m 1 with
  | Some g => py_float (remove_chr ","%char g)
  | None => None
  end.

Definition parse_price (text : str) : option Q :=
  match find text (py "4.1.") with
  | None => None
  | Some idx =>
      let window := slice text idx (idx + 600) in
      match re_search price_re window with
      | Some m => amount_of window m
      | None => None
      end
  end.

Definition parse_earnest (text : str) : option Q :=
  match find text (py "4.1.") with
  | None => None
  | Some idx =>
      let window := slice text idx (idx + 600) in
      match re_search earnest_re window with
      | Some m => amount_of window m
      | None => None
      end
  end.

Definition parse_new_loan (text : str) : option Q :=
  match find text (py "4.1.") with
  | None => None
  | Some idx =>
      let window := slice text idx (idx + 600) in
      match re_search new_loan_re window with
      | Some m =>
          match amount_of window m with
          | Some v => Some (if Qgtb v 0 then v else 0%Q)
          | None => None
          end
      | None => Some 0%Q
      end
  end.

(** [4\.5\. New Loan\. \(Omitted], [FHA [Ii]nsured], [VA [Gg]uaranteed] *)
Definition omitted_re : regex := Lit (py "4.5. New Loan. (Omitted").

Definition fha_re : regex :=
  Seqs [Lit (py "FHA ");
        Cls (fun c => chr_eqb c "I"%char || chr_eqb c "i"%char);
        Lit (py "nsured")].

Definition va_re : regex :=
  Seqs [Lit (py "VA ");
        Cls (fun c => chr_eqb c "G"%char || chr_eqb c "g"%char);
        Lit (py "uaranteed")].

Definition found (r : regex) (s : str) : bool :=
  match re_search r s with
  | Some _ => true
  | None => false
  end.

(** [not loan_amount or loan_amount == 0] *)
Definition no_loan (loan_amount : option Q) : bool :=
  match loan_amount with
  | None => true
  | Some v => Qeq_bool v 0
  end.

(** Cash if section 4.5 is omitted or loan amount is 0.  Otherwise look
    for FHA/VA checkboxes, default Conventional. *)
Definition parse_loan_type (text : str) (loan_amount : option Q) : str :=
  if found omitted_re text then py "Cash"
  else if no_loan loan_amount then py "Cash"
  else if found fha_re text then py "FHA"
  else if found va_re text then py "VA"
  else py "Conventional".

(** [29\.1\.\s+([\d\.]+)%\s+of the Purchase Price] *)
Definition commission_re : regex :=
  Seqs [Lit (py "29.1."); Plus (Cls is_space);
        Grp 1 (Plus (Cls digit_or_dot)); Lit (py "%");
        Plus (Cls is_space); Lit (py "of the Purchase Price")].

Definition parse_commission (text : str) : option Q :=
  match re_search commission_re text with
  | Some m =>
      match group text m 1 with
      | Some g =>
          match py_float g with
          | Some v => Some (float_div (nearest_float v) 100)
          | None => None
          end
      | None => None
      end
  | None => None
  end.

(** [^(\d+)\s+(?:§\s*[\w\.]+|n/a)\s+] *)
Definition deadline_line_re : regex :=
  Seqs [Bol; Grp 1 (Plus (Cls is_digit)); Plus (Cls is_space);
        Alt (Seqs [Lit (py "§"); Star (Cls is_space);
                   Plus (Cls word_or_dot)])
            (Lit (py "n/a"));
        Plus (Cls is_space)].

(** [\bkw\b] *)
Definition keyword_re (kw : str) : regex := Seqs [Wb; Lit kw; Wb].

Definition deadline_keywords : list str :=
  [py "Deadline"; py "Date"; py "Time"].

(** [^\([^)]+\)\s*] *)
Definition leading_paren_re : regex :=
  Seqs [Bol; Lit (py "("); Plus (Cls not_rparen); Lit (py ")");
        Star (Cls is_space)].

Definition weekdays : list str :=
  [py "Monday"; py "Tuesday"; py "Wednesday"; py "Thursday"; py "Friday";
   py "Saturday"; py "Sunday"].

(** [\s+(Monday|Tuesday|Wednesday|Thursday|Friday|Saturday|Sunday)$] under
    re.IGNORECASE *)
Definition weekday_re : regex :=
  Seqs [Plus (Cls is_space); Grp 1 (Alts (map LitI weekdays)); Eol].

(** [[km.end() for kw in (...) for km in re.finditer(r"\b" + kw + r"\b", rest)]] *)
Definition split_points (rest : str) : list nat :=
  flat_map (fun kw => map m_end (finditer (keyword_re kw) rest))
    deadline_keywords.

Definition max_list (l : list nat) : nat := fold_right Nat.max 0%nat l.

(** [if not value or value.upper() == "N/A": value = "n/a"] *)
Definition na_if_blank (value : str) : str :=
  match value with
  | [] => py "n/a"
  | _ :: _ => if str_eqb (upper value) (py "N/A") then py "n/a" else value
  end.

(** The value of a deadline row, from the text after its item number and
    reference. *)
Definition deadline_value (rest : str) : str :=
  let value :=
    match split_points rest with
    | (_ :: _) as sp =>
        let value := strip (drop (max_list sp) rest) in
        strip (re_sub_empty leading_paren_re value)
    | [] => strip rest
    end in
  let value := strip (re_sub_empty weekday_re value) in
  na_if_blank value.

(** Parse one row from the section 3.1 deadline table; [None] is the pair
    [(None, None)]. *)
Definition parse_deadline_line (line : str) : option (Z * str) :=
  match re_match deadline_line_re line with
  | None => None
  | Some m =>
      match group line m 1 with
      | None => None
      | Some digits =>
          match py_int digits with
          | None => None
          | Some item =>
              if 43 <? item then None
              else Some (item, deadline_value (drop (m_end m) line))
          end
      end
  end.

Definition parse_deadlines (text : str) : gmap Z str :=
  match find text (py "Item No. Reference Event Date or Deadline") with
  | None => ∅
  | Some start =>
      let table :=
        match find_at text (py "4. PURCHASE PRICE AND TERMS") start with
        | Some e => slice text start e
        | None => slice text start (start + 3000)
        end in
      fold_left
        (fun results line =>
           match parse_deadline_line (strip line) with
           | Some (item, value) => <[item := value]> results
           | None => results
           end)
        (split_lines table) ∅
  end.

(** ** The field record *)

(** The values of a field record. *)
Inductive pyval :=
| VNone
| VStr (s : str)
| VNum (q : Q).

(** The extractors of [parse_contract] that the properties below leave
    free: each is taken with its type only, the checkbox extractors
    with the render cache they read and extend. *)
Record extractors := Extractors {
  parse_buyer : str -> str;
  parse_agent : pdf -> str;
  parse_concession : str -> pyval;
  parse_inclusions : str -> str;
  parse_exclusions : str -> str;
  parse_additional_provisions : str -> str;
  parse_title_insurance : pdf -> render_cache -> str * render_cache;
  parse_oec : pdf -> render_cache -> str * render_cache;
  get_fee_value : pdf -> str -> render_cache -> str * render_cache;
  parse_assoc_assessments : pdf -> render_cache -> str * render_cache
}.

Definition num_or_none (o : option Q) : pyval :=
  match o with
  | Some q => VNum q
  | None => VNone
  end.

(** [d.update(items)], and a dictionary display as the update of the empty
    dictionary. *)
Definition dict_update {V} (d : gmap Z V) (items : list (Z * V)) : gmap Z V :=
  fold_left (fun d kv => <[kv.1 := kv.2]> d) items d.

Definition fee_rows : list (Z * str) :=
  [ (ROW_CLOSING_SVC, py "15.2."); (ROW_RECORD_CHG, py "15.3.2.");
    (ROW_RESERVES, py "15.3.3."); (ROW_OTHER_FEES, py "15.3.4.");
    (ROW_LOCAL_TAX, py "15.4."); (ROW_SALES_TAX, py "15.5.");
    (ROW_PRIVATE_XFER, py "15.6."); (ROW_WATER_XFER, py "15.7.");
    (ROW_UTILITY_XFER, py "15.8.") ].

(** The nine [get_fee_value] calls of the [fee_sections] display, in
    order, on the shared cache. *)
Fixpoint fee_values (X : extractors) (d : pdf) (rows : list (Z * str))
    (rc : render_cache) : list (Z * pyval) * render_cache :=
  match rows with
  | [] => ([], rc)
  | (row, section_id) :: t =>
      let '(v, rc1) := get_fee_value X d section_id rc in
      let '(vs, rc2) := fee_values X d t rc1 in
      ((row, VStr v) :: vs, rc2)
  end.

(** Parse a CBS1 PDF.  Returns [{row_number: value}] for all auto-fillable
    fields. *)
Definition parse_contract (X : extractors) (d : pdf) : gmap Z pyval :=
  let text := pdf_text d in
  let deadlines := parse_deadlines text in
  let render_cache : render_cache := ∅ in
  let loan_amount := parse_new_loan text in
  let loan_type := parse_loan_type text loan_amount in
  let is_cash := str_eqb loan_type (py "Cash") in
  let '(title_ins, render_cache) := parse_title_insurance X d render_cache in
  let '(oec, render_cache) := parse_oec X d render_cache in
  let '(fees, render_cache) := fee_values X d fee_rows render_cache in
  let '(assoc, render_cache) := parse_assoc_assessments X d render_cache in
  let fee_sections := fees ++ [(ROW_ASSOC_ASSESS, VStr assoc)] in
  let data : gmap Z pyval :=
    dict_update ∅
      [ (ROW_BUYER, VStr (parse_buyer X text));
        (ROW_AGENT, VStr (parse_agent X d));
        (ROW_PRICE, num_or_none (parse_price text));
        (ROW_CONCESSION, parse_concession X text);
        (ROW_EARNEST, num_or_none (parse_earnest text));
        (ROW_LOAN_AMOUNT, num_or_none loan_amount);
        (ROW_LOAN_TYPE, VStr loan_type);
        (ROW_LENDER, if is_cash then VStr (py "n/a") else VNone);
        (ROW_LENDER_LETTER, if is_cash then VStr (py "n/a") else VNone);
        (ROW_TITLE_INS, VStr title_ins);
        (ROW_OEC, VStr oec);
        (ROW_NET_ESCAL, VStr (py "n/a"));
        (ROW_INCLUSIONS, VStr (parse_inclusions X text));
        (ROW_EXCLUSIONS, VStr (parse_exclusions X text));
        (ROW_ADD_PROV, VStr (parse_additional_provisions X text)) ] in
  let data := dict_update data fee_sections in
  let data :=
    match parse_commission text with
    | Some commission => <[ROW_COMMISSION := VNum commission]> data
    | None => data
    end in
  fold_left
    (fun data ir =>
       <[ir.2 := VStr (default (py "n/a") (deadlines !! ir.1))]> data)
    DEADLINE_ITEM_TO_ROW data.


(** ** What a match is

    [matches r c g w g'] : from cursor [c], with groups [g], the
    expression [r] can consume the characters [w], leaving groups [g']. *)

Definition prev_after (pv : option ascii) (w : str) : option ascii :=
  match last w with
  | Some x => Some x
  | None => pv
  end.

(** The cursor after the characters [w]. *)
Definition advance (c : cursor) (w : str) : cursor :=
  Cursor (length w + pos c)%nat (prev_after (prev c) w)
    (drop (length w) (rest c)).

Inductive matches : regex -> cursor -> groups -> str -> groups -> Prop :=
| M_Eps c g : matches Eps c g [] g
| M_Cls p c g x t :
    rest c = x :: t -> p x = true -> matches (Cls p) c g [x] g
| M_Lit s c g t :
    rest c = s ++ t -> matches (Lit s) c g s g
| M_LitI s c g w t :
    rest c = w ++ t -> map lower_chr w = map lower_chr s ->
    matches (LitI s) c g w g
| M_Seq r1 r2 c g w1 g1 w2 g2 :
    matches r1 c g w1 g1 -> matches r2 (advance c w1) g1 w2 g2 ->
    matches (Seq r1 r2) c g (w1 ++ w2) g2
| M_AltL r1 r2 c g w g1 :
    matches r1 c g w g1 -> matches (Alt r1 r2) c g w g1
| M_AltR r1 r2 c g w g1 :
    matches r2 c g w g1 -> matches (Alt r1 r2) c g w g1
| M_StarNil r c g : matches (Star r) c g [] g
| M_StarCons r c g w1 g1 w2 g2 :
    matches r c g w1 g1 -> w1 <> [] ->
    matches (Star r) (advance c w1) g1 w2 g2 ->
    matches (Star r) c g (w1 ++ w2) g2
| M_Grp n r c g w g1 :
    matches r c g w g1 ->
    matches (Grp n r) c g w (<[n := (pos c, (length w + pos c)%nat)]> g1)
| M_Bol c g : pos c = 0%nat -> matches Bol c g [] g
| M_Eol c g : at_end c = true -> matches Eol c g [] g
| M_Wb c g : at_boundary c = true -> matches Wb c g [] g.


(** The expressions without capture groups. *)
Fixpoint groupless (r : regex) : bool :=
  match r with
  | Seq r1 r2 | Alt r1 r2 => groupless r1 && groupless r2
  | Star r1 => groupless r1
  | Grp _ _ => false
  | _ => true
  end.


(** An amount after its label in a window of text: the section sign,
    optional white space, the section number, white space, the label, one
    or more characters that are not digits, and a numeral (digits and
    commas, a point, two digits) whose value, commas removed, is [v]. *)
Definition amount_occurrence (number label : string) (window : str) (v : Q)
    : Prop :=
  exists pre ws1 ws2 gap body d1 d2 post,
    window = pre ++ py "§" ++ ws1 ++ py number ++ ws2 ++ py label ++ gap
             ++ (body ++ py "." ++ [d1; d2]) ++ post
    /\ Forall (fun x => is_space x = true) ws1
    /\ ws2 <> [] /\ Forall (fun x => is_space x = true) ws2
    /\ gap <> [] /\ Forall (fun x => is_digit x = false) gap
    /\ body <> [] /\ Forall (fun x => digit_or_comma x = true) body
    /\ is_digit d1 = true /\ is_digit d2 = true
    /\ py_float (remove_chr ","%char (body ++ py "." ++ [d1; d2])) = Some v.


(** Modelled from the claim's words, for comparison with [amount_re]: the
    numeral [(\d{1,3}(,\d{3})*\.\d{2})] in the place of [([\d,]+\.\d{2})],
    and the price extractor with it. *)
Definition claimed_amount_re : regex :=
  Grp 1 (Seqs [Cls is_digit;
               Alt (Seq (Cls is_digit) (Alt (Cls is_digit) Eps)) Eps;
               Star (Seqs [Lit (py ","); Cls is_digit; Cls is_digit;
                           Cls is_digit]);
               Lit (py "."); Cls is_digit; Cls is_digit]).

Definition claimed_price_re : regex :=
  Seqs [Lit (py "§"); Star (Cls is_space); Lit (py "4.1.");
        Plus (Cls is_space); Lit (py "Purchase Price"); Plus (Cls not_digit);
        claimed_amount_re].

Definition parse_price_claimed (text : str) : option Q :=
  match find text (py "4.1.") with
  | None => None
  | Some idx =>
      let window := slice text idx (idx + 600) in
      match re_search claimed_price_re window with
      | Some m => amount_of window m
      | None => None
      end
  end.


(** The rows that [parse_contract] always writes besides the deadline
    rows: the scalar fields of the [data] display and the fee sections. *)
Definition scalar_display_rows : list Z :=
  [ ROW_BUYER; ROW_AGENT; ROW_PRICE; ROW_CONCESSION; ROW_EARNEST;
    ROW_LOAN_AMOUNT; ROW_LOAN_TYPE; ROW_LENDER; ROW_LENDER_LETTER;
    ROW_TITLE_INS; ROW_OEC; ROW_NET_ESCAL; ROW_INCLUSIONS; ROW_EXCLUSIONS;
    ROW_ADD_PROV ].

Definition fee_section_rows : list Z :=
  [ ROW_CLOSING_SVC; ROW_RECORD_CHG; ROW_RESERVES; ROW_OTHER_FEES;
    ROW_LOCAL_TAX; ROW_SALES_TAX; ROW_PRIVATE_XFER; ROW_WATER_XFER;
    ROW_UTILITY_XFER; ROW_ASSOC_ASSESS ].

(** The item numbers of the table that have no row. *)
Definition dropped_items : list Z := [16; 17; 18; 19; 20; 21; 28; 29].


(** The [data] display of [parse_contract], given the two checkbox values
    computed before it. *)
Definition data_display (X : extractors) (d : pdf) (title_ins oec : str)
    : list (Z * pyval) :=
  let text := pdf_text d in
  let loan_amount := parse_new_loan text in
  let loan_type := parse_loan_type text loan_amount in
  let is_cash := str_eqb loan_type (py "Cash") in
  [ (ROW_BUYER, VStr (parse_buyer X text));
    (ROW_AGENT, VStr (parse_agent X d));
    (ROW_PRICE, num_or_none (parse_price text));
    (ROW_CONCESSION, parse_concession X text);
    (ROW_EARNEST, num_or_none (parse_earnest text));
    (ROW_LOAN_AMOUNT, num_or_none loan_amount);
    (ROW_LOAN_TYPE, VStr loan_type);
    (ROW_LENDER, if is_cash then VStr (py "n/a") else VNone);
    (ROW_LENDER_LETTER, if is_cash then VStr (py "n/a") else VNone);
    (ROW_TITLE_INS, VStr title_ins);
    (ROW_OEC, VStr oec);
    (ROW_NET_ESCAL, VStr (py "n/a"));
    (ROW_INCLUSIONS, VStr (parse_inclusions X text));
    (ROW_EXCLUSIONS, VStr (parse_exclusions X text));
    (ROW_ADD_PROV, VStr (parse_additional_provisions X text)) ].

(** The deadline rows that [parse_contract] writes last. *)
Definition deadline_display (deadlines : gmap Z str) : list (Z * pyval) :=
  map (fun ir => (ir.2, VStr (default (py "n/a") (deadlines !! ir.1))))
    DEADLINE_ITEM_TO_ROW.





(** ** Notions the properties are stated with *)

(** The order of two elements by their keys. *)
Definition key_le {A} (key : A -> Q) (a b : A) : Prop := (key a <= key b)%Q.

(** The closed enumeration of dropdown values. *)
Definition dropdown_values : list str :=
  [py "Buyer Pays"; py "Seller Pays"; py "Split 50/50"; py "n/a"].

(** What a matcher of [r] owes: a result of the continuation comes from
    a match of [r] in front of the cursor. *)
Definition sound_for {A : Type} (r : regex)
    (m : cursor -> groups -> (cursor -> groups -> option A) -> option A)
    : Prop :=
  forall c g k a,
    m c g k = Some a ->
    exists w g1 t,
      matches r c g w g1 /\ rest c = w ++ t
      /\ k (advance c w) g1 = Some a.

(** The shape of a line that the row pattern accepts: item digits, white
    space, a reference (the section sign, optional white space and a token
    of word characters and points, or "n/a"), white space, and the text
    the value is taken from. *)
Definition is_reference (ref : str) : Prop :=
  ref = py "n/a"
  \/ exists ws tok,
       ref = py "§" ++ ws ++ tok
       /\ Forall (fun x => is_space x = true) ws
       /\ tok <> [] /\ Forall (fun x => word_or_dot x = true) tok.

(** The text [t] ends a run of characters of the class [p]: it is empty
    or starts outside the class. *)
Definition ends_run (p : ascii -> bool) (t : str) : Prop :=
  match t with
  | [] => True
  | x :: _ => p x = false
  end.



(** [u] does not end with white space. *)
Definition ends_unspaced (u : str) : Prop :=
  match last u with
  | Some x => is_space x = false
  | None => True
  end.

(** ** More of Python's strings and numbers *)

(** [str(n)] on an integer, as an f-string formats it. *)
Definition str_of_int (n : Z) : str :=
  list_ascii_of_string (NilZero.string_of_int (Z.to_int n)).

(** [s.split()]: the maximal runs of characters that are not white space. *)
Fixpoint split_ws_aux (cur : str) (s : str) : list str :=
  match s with
  | [] => match cur with [] => [] | _ :: _ => [rev cur] end
  | c :: t =>
      if is_space c
      then match cur with
           | [] => split_ws_aux [] t
           | _ :: _ => rev cur :: split_ws_aux [] t
           end
      else split_ws_aux (c :: cur) t
  end.

Definition split_ws (s : str) : list str := split_ws_aux [] s.

(** [sep.join(parts)] *)
Fixpoint join_with (sep : str) (parts : list str) : str :=
  match parts with
  | [] => []
  | [p] => p
  | p :: t => p ++ sep ++ join_with sep t
  end.

(** [" ".join(s.split())] *)
Definition squeeze (s : str) : str := join_with (py " ") (split_ws s).

(** [s.replace(a, b)] for a one-character [a]. *)
Definition replace_chr (a : ascii) (b : str) (s : str) : str :=
  concat (map (fun x => if chr_eqb x a then b else [x]) s).

(** ** More of [re]: lazy repetition and a trailing lookahead *)

(** [.] without and with re.DOTALL *)
Definition not_newline (c : ascii) : bool := negb (chr_eqb c newline).
Definition any_chr (c : ascii) : bool := true.

Definition not_lparen (c : ascii) : bool := negb (chr_eqb c "("%char).

(** [r*?]: no iteration first, then one more.  The expression is unfolded
    [n] times; on a subject of at most [n] characters, and an [r] that
    consumes one character at least, the unfolding is never exhausted. *)
Fixpoint LazyStar (n : nat) (r : regex) : regex :=
  match n with
  | O => Eps
  | S n' => Alt Eps (Seq r (LazyStar n' r))
  end.

(** [r+?] *)
Definition LazyPlus (n : nat) (r : regex) : regex := Seq r (LazyStar n r).

(** [r?] *)
Definition Opt (r : regex) : regex := Alt r Eps.

(** The leftmost match, at or after a cursor, of a matcher [m]. *)
Fixpoint search_with (m : cursor -> option rematch) (p : nat)
    (pv : option ascii) (l : str) : option rematch :=
  match m (Cursor p pv l) with
  | Some r => Some r
  | None =>
      match l with
      | [] => None
      | x :: t => search_with m (S p) (Some x) t
      end
  end.

(** A match of [r] that is followed by a lookahead [(?=...)], given as
    the test [ahead] on the text from the end of the match on. *)
Definition match_at_ahead (r : regex) (ahead : str -> bool) (c : cursor)
    : option rematch :=
  rmatch r c ∅
    (fun c1 g1 => if ahead (rest c1) then Some (Rematch c c1 g1) else None).

Definition re_search_ahead (r : regex) (ahead : str -> bool) (s : str)
    : option rematch :=
  search_with (match_at_ahead r ahead) 0 None s.

(** [re.sub(pattern, repl, s)] for a literal replacement, the pattern
    given by its search. *)
Fixpoint sub_with (fuel : nat) (search : cursor -> option rematch)
    (repl : str) (c : cursor) : str :=
  match fuel with
  | O => rest c
  | S fuel' =>
      match search c with
      | None => rest c
      | Some m =>
          take (m_start m - pos c) (rest c) ++ repl
          ++ (if (m_start m <? m_end m)%nat
              then sub_with fuel' search repl (m_to m)
              else match rest (m_to m) with
                   | [] => []
                   | x :: _ => x :: sub_with fuel' search repl (skip (m_to m) 1)
                   end)
      end
  end.

(** ** Lines of glyphs *)

Definition Qbetween (lo x hi : Q) : bool := Qle_bool lo x && Qle_bool x hi.

(** [round(c['y0'])] of every glyph to the glyphs of that line, in the
    order of [chars]: [y_lines.setdefault(y, []).append(c)]. *)
Definition y_lines (chars : list glyph) : gmap Z (list glyph) :=
  fold_left
    (fun (m : gmap Z (list glyph)) c =>
       let y := py_round (c_y0 c) in
       <[y := default [] (m !! y) ++ [c]]> m)
    chars ∅.

(** [sorted(l, reverse=True)] on integers. *)
Definition sorted_desc (l : list Z) : list Z :=
  sort_by (fun y => inject_Z (- y)) l.

(** [''.join(c['text'] for c in sorted(line, key=lambda c: c['x0']))] *)
Definition line_text (line : list glyph) : str :=
  join (map c_text (sort_by c_x0 line)).

(** The test of one line in the scan for the options line. *)
Definition is_options_line (lines : gmap Z (list glyph)) (cb_y_set : gset Z)
    (y : Z) : bool :=
  let lt := line_text (default [] (lines !! y)) in
  existsb (fun cby => Z.abs (cby - y) <? 6) (elements cb_y_set)
  && contains (py "Buyer") lt && contains (py "Seller") lt.

(** The scan downward from the anchor for the options line. *)
Definition find_options_y (chars : list glyph) (checkboxes : list image)
    (anchor_y : Q) : option Z :=
  let lines := y_lines chars in
  let cb_y_set : gset Z := list_to_set (map (fun cb => py_round (cb_y0 cb)) checkboxes) in
  List.find (is_options_line lines cb_y_set)
    (sorted_desc
       (List.filter (fun y => Qle_bool (inject_Z y) (anchor_y - 5))
          (map fst (map_to_list lines)))).

(** ** The extractors of [parse_contract]

    The extractors that the record [extractors] takes with their types
    only, as the code has them.  Those of the text come first; each of
    those of the checkboxes walks the pages, reads and extends the render
    cache, and returns at the first page that decides. *)

Module Impl.

(** [2\.1\.\s+Buyer\.\s+(.+?)\s*\(Buyer\)], on a subject of at most [n]
    characters. *)
Definition buyer_re (n : nat) : regex :=
  Seqs [Lit (py "2.1."); Plus (Cls is_space); Lit (py "Buyer.");
        Plus (Cls is_space); Grp 1 (LazyPlus n (Cls not_newline));
        Star (Cls is_space); Lit (py "(Buyer)")].

Definition parse_buyer (text : str) : str :=
  match re_search (buyer_re (length text)) text with
  | Some m => strip (default [] (group text m 1))
  | None => []
  end.

(** The stripped lines of a text that are not blank. *)
Definition nonblank_lines (text : str) : list str :=
  map strip
    (List.filter (fun l => negb (str_eqb (strip l) [])) (split_lines text)).

(** Agent name is always the 2nd non-empty line on page 1.  [None] is the
    IndexError of [pdf.pages[0]] on a document without pages. *)
Definition parse_agent (d : pdf) : option str :=
  match pdf_pages d with
  | [] => None
  | p :: _ =>
      let lines := nonblank_lines (default [] (extract_text p)) in
      Some (match lines with
            | _ :: l1 :: _ => l1
            | _ => []
            end)
  end.

(** [credit to Buyer .([^\(]+)\(Seller Concession\)] *)
Definition concession_re : regex :=
  Seqs [Lit (py "credit to Buyer "); Cls not_newline;
        Grp 1 (Plus (Cls not_lparen)); Lit (py "(Seller Concession)")].

(** The amount text of the concession clause:
    [m.group(1).strip().replace(",", "").replace("$", "")]. *)
Definition concession_raw (text : str) : option str :=
  match re_search concession_re text with
  | Some m =>
      Some (remove_chr "$"%char
              (remove_chr ","%char (strip (default [] (group text m 1)))))
  | None => None
  end.

Definition is_na (raw : str) : bool :=
  let u := upper raw in
  str_eqb u (py "N/A") || str_eqb u (py "NA") || str_eqb u [].

Section Concession.

(** The builtin [float] on a string: [None] is ValueError. *)
Variable float_of_str : str -> option Q.

Definition parse_concession (text : str) : pyval :=
  match concession_raw text with
  | None => VNum 0
  | Some raw =>
      if is_na raw then VNum 0
      else match float_of_str raw with
           | Some v => VNum v
           | None => VNum 0
           end
  end.

End Concession.

(** [included in the Purchase Price:\s*\n(.+?)(?:\n\n|If the box|2\.5\.4)]
    under re.DOTALL *)
Definition inclusions_re (n : nat) : regex :=
  Seqs [Lit (py "included in the Purchase Price:"); Star (Cls is_space);
        Lit [newline]; Grp 1 (LazyPlus n (Cls any_chr));
        Alts [Lit [newline; newline]; Lit (py "If the box");
              Lit (py "2.5.4")]].

Definition parse_inclusions (text : str) : str :=
  match find text (py "2.5.3.") with
  | None => []
  | Some idx =>
      let window := slice text idx (idx + 500) in
      match re_search (inclusions_re (length window)) window with
      | Some m => squeeze (default [] (group window m 1))
      | None => []
      end
  end.

(** [Exclusions\):\s*\n?(.+?)(?:\n\n|2\.7\.)] under re.DOTALL *)
Definition exclusions_re (n : nat) : regex :=
  Seqs [Lit (py "Exclusions):"); Star (Cls is_space); Opt (Lit [newline]);
        Grp 1 (LazyPlus n (Cls any_chr));
        Alts [Lit [newline; newline]; Lit (py "2.7.")]].

Definition parse_exclusions (text : str) : str :=
  match find text (py "2.6.") with
  | None => py "n/a"
  | Some idx =>
      let window := slice text idx (idx + 300) in
      match re_search (exclusions_re (length window)) window with
      | Some m =>
          let val := squeeze (default [] (group window m 1)) in
          if negb (str_eqb (upper val) (py "N/A") || str_eqb (upper val) [])
          then val else py "n/a"
      | None => py "n/a"
      end
  end.

(** [Colorado Real Estate Commission:\s*\n(.+?)(?=\n31\.)] under
    re.DOTALL: the expression before the lookahead, and the lookahead. *)
Definition provisions_re (n : nat) : regex :=
  Seqs [Lit (py "Colorado Real Estate Commission:"); Star (Cls is_space);
        Lit [newline]; Grp 1 (LazyPlus n (Cls any_chr))].

Definition before_31 (t : str) : bool := startswith t (newline :: py "31.").

Definition parse_additional_provisions (text : str) : str :=
  match find text (py "30.") with
  | None => py "n/a"
  | Some idx =>
      let window := slice text idx (idx + 2000) in
      match re_search_ahead (provisions_re (length window)) before_31 window with
      | None => py "n/a"
      | Some m =>
          let raw := strip (default [] (group window m 1)) in
          match raw with
          | [] => py "n/a"
          | _ :: _ =>
              if startswith raw (py "31.") then py "n/a"
              else squeeze raw
          end
      end
  end.

(** Detect the dropdown value for a fee section: the pages in order. *)
Fixpoint get_fee_value_pages (pages : list page) (section_id : str)
    (rc : render_cache) : str * render_cache :=
  match pages with
  | [] => (py "n/a", rc)
  | pg :: pages' =>
      let pt := default [] (extract_text pg) in
      if negb (contains section_id pt)
      then get_fee_value_pages pages' section_id rc
      else
        let chars := page_chars pg in
        let checkboxes := get_page_checkboxes pg in
        match checkboxes with
        | [] => get_fee_value_pages pages' section_id rc
        | _ :: _ =>
            match anchor_loop (anchor_target section_id) chars 0 chars with
            | None => get_fee_value_pages pages' section_id rc
            | Some anchor_y =>
                match find_options_y chars checkboxes anchor_y with
                | None => get_fee_value_pages pages' section_id rc
                | Some options_y =>
                    detect_checked_box_at_y pg (inject_Z options_y)
                      checkboxes rc
                end
            end
        end
  end.

Definition get_fee_value (d : pdf) (section_id : str) (rc : render_cache)
    : str * render_cache :=
  get_fee_value_pages (pdf_pages d) section_id rc.

(** The value that the label of the checked title-insurance box stands
    for. *)
Definition title_insurance_value (raw : str) : str :=
  if contains (py "8.1.1") raw || contains (py "Seller") (take 12 raw)
  then py "Seller Pays"
  else if contains (py "8.1.2") raw || contains (py "Buyer") (take 12 raw)
       then py "Buyer Pays"
       else py "n/a".

(** 8.1.1 checked = Seller Pays, 8.1.2 checked = Buyer Pays. *)
Fixpoint parse_title_insurance_pages (pages : list page) (rc : render_cache)
    : str * render_cache :=
  match pages with
  | [] => (py "n/a", rc)
  | pg :: pages' =>
      let pt := default [] (extract_text pg) in
      if negb (contains (py "8.1.1") pt)
      then parse_title_insurance_pages pages' rc
      else
        let chars := page_chars pg in
        match find_section_anchor_y (py "8.1.1") chars with
        | None => parse_title_insurance_pages pages' rc
        | Some anchor_y =>
            let '((pil_img, scale_x, scale_y), rc) := cached_render pg rc in
            let checkboxes := get_page_checkboxes pg in
            let cbs :=
              List.filter
                (fun cb => Qbetween (anchor_y - 100) (cb_y0 cb) (anchor_y + 5))
                checkboxes in
            match cbs with
            | [] => parse_title_insurance_pages pages' rc
            | cb0 :: cbs' =>
                let br := fun cb =>
                  checkbox_brightness pg cb pil_img scale_x scale_y in
                let best_cb := min_by br cb0 cbs' in
                let best_br := br best_cb in
                if Qgtb best_br 150 then (py "n/a", rc)
                else
                  let raw := label_after_checkbox best_cb chars 9999 in
                  (title_insurance_value raw, rc)
            end
        end
  end.

Definition parse_title_insurance (d : pdf) (rc : render_cache)
    : str * render_cache :=
  parse_title_insurance_pages (pdf_pages d) rc.

(** The value that the label of the checked OEC box stands for. *)
Definition oec_value (raw : str) : str :=
  if startswith (upper (strip raw)) (py "WILL NOT") then py "n/a"
  else if startswith (upper (strip raw)) (py "WILL") then py "Buyer Pays"
       else py "n/a".

(** 8.1.3 OEC: 'Will' checked = OEC included, 'Will Not' checked = n/a. *)
Fixpoint parse_oec_pages (pages : list page) (rc : render_cache)
    : str * render_cache :=
  match pages with
  | [] => (py "n/a", rc)
  | pg :: pages' =>
      let pt := default [] (extract_text pg) in
      if negb (contains (py "8.1.3") pt)
      then parse_oec_pages pages' rc
      else
        let chars := page_chars pg in
        match find_section_anchor_y (py "8.1.3") chars with
        | None => parse_oec_pages pages' rc
        | Some anchor_y =>
            let '((pil_img, scale_x, scale_y), rc) := cached_render pg rc in
            let checkboxes := get_page_checkboxes pg in
            let cbs :=
              List.filter
                (fun cb => Qbetween (anchor_y - 30) (cb_y0 cb) (anchor_y + 5))
                checkboxes in
            match cbs with
            | [] => parse_oec_pages pages' rc
            | cb0 :: cbs' =>
                let br := fun cb =>
                  checkbox_brightness pg cb pil_img scale_x scale_y in
                let best_cb := min_by br cb0 cbs' in
                let best_br := br best_cb in
                if Qgtb best_br 150 then (py "n/a", rc)
                else
                  let same_y_cbs := same_line best_cb cbs in
                  let next_x := next_checkbox_x same_y_cbs best_cb in
                  let raw := label_after_checkbox best_cb chars next_x in
                  (oec_value raw, rc)
            end
        end
  end.

Definition parse_oec (d : pdf) (rc : render_cache) : str * render_cache :=
  parse_oec_pages (pdf_pages d) rc.

(** The header of section 16.2 in [parse_assoc_assessments]: the test of
    one glyph, and the loop. *)
Definition assoc_anchor_accepts (chars : list glyph) (i : nat) (c : glyph)
    : bool :=
  negb (negb (contains (c_text c) (py "0123456789")) || Qgtb (c_x0 c) 150)
  && startswith (anchor_fragment chars i) (py "162")
  && negb (contains [section_sign] (anchor_prev chars i)).

Fixpoint assoc_anchor_loop (chars : list glyph) (i : nat) (l : list glyph)
    : option Q :=
  match l with
  | [] => None
  | c :: t => if assoc_anchor_accepts chars i c then Some (c_y0 c)
              else assoc_anchor_loop chars (S i) t
  end.

(** The header of the next major section (17.), below the anchor. *)
Definition next_section_accepts (chars : list glyph) (anchor_y : Q) (i : nat)
    (c : glyph) : bool :=
  negb (negb (str_eqb (c_text c) (py "1")) || Qgtb (c_x0 c) 100)
  && (startswith
        (remove_chr "."%char
           (remove_chr " "%char (join (map c_text (slice chars i (i + 8))))))
        (py "17")
      && Qltb (c_y0 c) (anchor_y - 5)).

Fixpoint next_section_loop (chars : list glyph) (anchor_y : Q) (i : nat)
    (l : list glyph) : option Q :=
  match l with
  | [] => None
  | c :: t => if next_section_accepts chars anchor_y i c then Some (c_y0 c)
              else next_section_loop chars anchor_y (S i) t
  end.

(** [next_y if next_y else anchor_y - 200]: a header at height 0 counts as
    none. *)
Definition assoc_y_min (next_y : option Q) (anchor_y : Q) : Q :=
  match next_y with
  | Some y => if Qeq_bool y 0 then (anchor_y - 200)%Q else y
  | None => (anchor_y - 200)%Q
  end.

(** The label right of the checked box: the glyphs on its line within 80
    of its right edge, by [x0], the first 15 characters of their text,
    stripped and in upper case. *)
Definition assoc_label (best : image) (chars : list glyph) : str :=
  let cb_y_mid := ((cb_y0 best + cb_y1 best) / 2)%Q in
  let lc :=
    List.filter
      (fun c => Qgeb (c_x0 c) (cb_x1 best - 1)
                && Qltb (c_x0 c) (cb_x1 best + 80)
                && Qltb (Qabs ((c_y0 c + c_y1 c) / 2 - cb_y_mid)) 4)
      chars in
  upper (strip (take 15 (join (map c_text (sort_by c_x0 lc))))).

Definition assoc_value (label : str) : str :=
  if contains (py "BUYER") (take 6 label) then py "Buyer Pays"
  else if contains (py "SELLER") (take 6 label) then py "Seller Pays"
       else py "n/a".

(** Section 16.2: special assessment obligation is [Buyer] or [Seller]
    only. *)
Fixpoint parse_assoc_assessments_pages (pages : list page) (rc : render_cache)
    : str * render_cache :=
  match pages with
  | [] => (py "n/a", rc)
  | pg :: pages' =>
      let pt := default [] (extract_text pg) in
      if negb (contains (py "16.2.") pt)
         || negb (contains (py "Association Assessments") pt)
      then parse_assoc_assessments_pages pages' rc
      else
        let chars := page_chars pg in
        let checkboxes := get_page_checkboxes pg in
        match assoc_anchor_loop chars 0 chars with
        | None => parse_assoc_assessments_pages pages' rc
        | Some anchor_y =>
            let next_y := next_section_loop chars anchor_y 0 chars in
            let y_min := assoc_y_min next_y anchor_y in
            let section_cbs :=
              List.filter (fun cb => Qbetween y_min (cb_y0 cb) anchor_y)
                checkboxes in
            match section_cbs with
            | [] => (py "n/a", rc)
            | cb0 :: cbs' =>
                let '((pil_img, sx, sy), rc) := cached_render pg rc in
                let cb_br := fun cb =>
                  checkbox_brightness pg cb pil_img sx sy in
                let best := min_by cb_br cb0 cbs' in
                if Qgtb (cb_br best) 150 then (py "n/a", rc)
                else (assoc_value (assoc_label best chars), rc)
            end
        end
  end.

Definition parse_assoc_assessments (d : pdf) (rc : render_cache)
    : str * render_cache :=
  parse_assoc_assessments_pages (pdf_pages d) rc.

End Impl.

(** The extractors of the code, given the builtin [float].  Where
    [parse_agent] raises, on a document without pages, the empty name
    stands in the record. *)
Definition code_extractors (float_of_str : str -> option Q) : extractors :=
  {| parse_buyer := Impl.parse_buyer;
     parse_agent := fun d => default [] (Impl.parse_agent d);
     parse_concession := Impl.parse_concession float_of_str;
     parse_inclusions := Impl.parse_inclusions;
     parse_exclusions := Impl.parse_exclusions;
     parse_additional_provisions := Impl.parse_additional_provisions;
     parse_title_insurance := Impl.parse_title_insurance;
     parse_oec := Impl.parse_oec;
     get_fee_value := Impl.get_fee_value;
     parse_assoc_assessments := Impl.parse_assoc_assessments |}.

(** ** Excel writing *)

(** A worksheet is the values of its cells, by row and column; a cell
    that was never written holds [None].  Fonts, fills, column widths and
    data validations are attributes beside the values, which no value
    depends on; they are left out. *)
Abbreviation worksheet := (gmap (Z * Z) pyval).

(** [ws.cell(row=row, column=col).value] *)
Definition cell_value (ws : worksheet) (row col : Z) : pyval :=
  default VNone (ws !! (row, col)).

(** [ws.cell(row=row, column=col).value = v] *)
Definition set_value (ws : worksheet) (row col : Z) (v : pyval) : worksheet :=
  <[(row, col) := v]> ws.

(** [value in (None, "")] *)
Definition is_blank (v : pyval) : bool :=
  match v with
  | VNone => true
  | VStr [] => true
  | _ => false
  end.

(** The loop of [find_next_col]; [None] when the fuel runs out. *)
Fixpoint find_next_col_loop (fuel : nat) (ws : worksheet) (col : Z)
    : option Z :=
  match fuel with
  | O => None
  | S fuel' =>
      if negb (is_blank (cell_value ws ROW_OFFER_HEADER col))
      then find_next_col_loop fuel' ws (col + 1)
      else Some col
  end.

Definition find_next_col (ws : worksheet) (start_col : Z) : option Z :=
  find_next_col_loop (S (size ws)) ws start_col.

(** [(?<!\$)] at the start of a match and [(?=\$?\d)] at its end. *)
Definition not_after_dollar (c : cursor) : bool :=
  match prev c with
  | Some x => negb (chr_eqb x "$"%char)
  | None => true
  end.

Definition digit_ahead (t : str) : bool :=
  match t with
  | x :: t' =>
      is_digit x
      || chr_eqb x "$"%char
         && match t' with
            | d :: _ => is_digit d
            | [] => false
            end
  | [] => false
  end.

(** [(?<!\$)] + re.escape(src_ltr) + [(?=\$?\d)] *)
Definition match_ref (src_ltr : str) (c : cursor) : option rematch :=
  if not_after_dollar c then match_at_ahead (Lit src_ltr) digit_ahead c
  else None.

(** The formula of the source column, moved to the destination column:
    [re.sub(..., dst_ltr, value)]. *)
Definition shift_refs (src_ltr dst_ltr : str) (value : str) : str :=
  sub_with (S (length value))
    (fun c => search_with (match_ref src_ltr) (pos c) (prev c) (rest c))
    dst_ltr (start_of value).

(** One row of the loop of [copy_formatting], on the values: a formula
    of the source column is moved to the destination column. *)
Definition copy_row (src_ltr dst_ltr : str) (src_col dst_col : Z)
    (ws : worksheet) (row : Z) : worksheet :=
  match cell_value ws row src_col with
  | VStr v =>
      if startswith v (py "=")
      then set_value ws row dst_col (VStr (shift_refs src_ltr dst_ltr v))
      else ws
  | _ => ws
  end.

Section Sheet.

(** The letters of a column, of the spreadsheet library. *)
Variable get_column_letter : Z -> str.

(** The values that [copy_formatting] writes. *)
Definition copy_formatting (ws : worksheet) (src_col dst_col : Z)
    (last_row : Z) : worksheet :=
  let src_ltr := get_column_letter src_col in
  let dst_ltr := get_column_letter dst_col in
  fold_left (copy_row src_ltr dst_ltr src_col dst_col) (seqZ 1 last_row) ws.

End Sheet.

(** One row of the loop of [write_offer]. *)
Definition write_row (col : Z) (ws : worksheet) (rv : Z * pyval) : worksheet :=
  let '(row, value) := rv in
  if bool_decide (row ∈ SKIP_ROWS) then ws
  else if is_blank value then ws
  else set_value ws row col value.

Definition write_offer (ws : worksheet) (col : Z) (offer_number : Z)
    (data : gmap Z pyval) : worksheet :=
  let ws := set_value ws ROW_OFFER_HEADER col
              (VStr (py "OFFER " ++ str_of_int offer_number)) in
  fold_left (write_row col) (map_to_list data) ws.

(** The loop of [main] for one parsed offer: the next free column from
    column 3 on, the formulas of column 2 down to row 103, the fields.
    [None] when the loop of [find_next_col] runs out of fuel. *)
Definition import_offer (get_column_letter : Z -> str) (ws : worksheet)
    (data : gmap Z pyval) : option worksheet :=
  match find_next_col ws 3 with
  | Some dst_col =>
      let ws := copy_formatting get_column_letter ws 2 dst_col 103 in
      Some (write_offer ws dst_col (dst_col - 2) data)
  | None => None
  end.

(** The loop of [main] over the offers that were parsed, in order. *)
Fixpoint import_offers (get_column_letter : Z -> str) (ws : worksheet)
    (offers : list (gmap Z pyval)) : option worksheet :=
  match offers with
  | [] => Some ws
  | data :: offers' =>
      match import_offer get_column_letter ws data with
      | Some ws' => import_offers get_column_letter ws' offers'
      | None => None
      end
  end.

(** ** Notions of the further properties *)

(** A word: characters that are not white space, one at least. *)
Definition is_token (w : str) : Prop :=
  w <> [] /\ Forall (fun x => is_space x = false) w.


(** The value that one row of the loop of [copy_formatting] leaves in the
    destination cell. *)
Definition copied_value (src_ltr dst_ltr : str) (ws : worksheet)
    (src_col dst_col : Z) (row : Z) : pyval :=
  match cell_value ws row src_col with
  | VStr v =>
      if startswith v (py "=")
      then VStr (shift_refs src_ltr dst_ltr v)
      else cell_value ws row dst_col
  | _ => cell_value ws row dst_col
  end.

(** [s] neither starts nor ends with white space. *)
Definition stripped (s : str) : Prop :=
  match head s with
  | Some x => is_space x = false
  | None => True
  end
  /\ ends_unspaced s.

(** The lines of the deadline table that [parse_deadlines] reads. *)
Definition deadline_table_lines (text : str) : list str :=
  match find text (py "Item No. Reference Event Date or Deadline") with
  | None => []
  | Some start =>
      split_lines
        match find_at text (py "4. PURCHASE PRICE AND TERMS") start with
        | Some e => slice text start e
        | None => slice text start (start + 3000)
        end
  end.

(** The value of the row of item [item] on a line, if the line is one. *)
Definition row_of_item (item : Z) (line : str) : option str :=
  match parse_deadline_line (strip line) with
  | Some (i, value) => if i =? item then Some value else None
  | None => None
  end.

(** The render of a page, as the cache holds it: the raster and the two
    scale factors. *)
Definition render_of (pg : page) : render :=
  let pil := to_image pg in
  (pil, (inject_Z (pil_width pil) / page_width pg)%Q,
   (inject_Z (pil_height pil) / page_height pg)%Q).

(** Every entry of the cache under the identity of one of the pages is the
    render of that page. *)
Definition coherent (pages : list page) (rc : render_cache) : Prop :=
  forall pg r, pg ∈ pages -> rc !! page_id pg = Some r -> r = render_of pg.

(** The cache [rc'] holds the entries of [rc] and, besides, renders of
    pages of the list only. *)
Definition extends (pages : list page) (rc rc' : render_cache) : Prop :=
  rc ⊆ rc'
  /\ forall k r, rc' !! k = Some r ->
       rc !! k = Some r
       \/ exists pg, pg ∈ pages /\ page_id pg = k /\ r = render_of pg.

(** The glyphs of the line at height [y], in the order of [chars]. *)
Definition glyphs_at (chars : list glyph) (y : Z) : list glyph :=
  List.filter (fun c => py_round (c_y0 c) =? y) chars.

(** The line at height [y] is an options line: a checkbox lies within 6
    of it, and its text, the glyphs by [x0], holds both "Buyer" and
    "Seller". *)
Definition options_line_at (chars : list glyph) (checkboxes : list image)
    (y : Z) : bool :=
  existsb (fun cb => Z.abs (py_round (cb_y0 cb) - y) <? 6) checkboxes
  && contains (py "Buyer") (line_text (glyphs_at chars y))
  && contains (py "Seller") (line_text (glyphs_at chars y)).

(** The buyer clause in a text, with the name [g] as the pattern of
    [parse_buyer] reads it: "2.1.", white space, "Buyer.", white space,
    the name (on one line, not empty), optional white space, "(Buyer)". *)
Definition buyer_clause (text g : str) : Prop :=
  exists pre ws1 ws2 ws3 post,
    text = pre ++ py "2.1." ++ ws1 ++ py "Buyer." ++ ws2 ++ g ++ ws3
           ++ py "(Buyer)" ++ post
    /\ ws1 <> [] /\ Forall (fun x => is_space x = true) ws1
    /\ ws2 <> [] /\ Forall (fun x => is_space x = true) ws2
    /\ g <> [] /\ Forall (fun x => x <> newline) g
    /\ Forall (fun x => is_space x = true) ws3.

(** The concession clause in a text, with the amount text [g] as the
    pattern of [parse_concession] reads it: "credit to Buyer ", one
    character [x] that is not a newline, the amount text (not empty,
    without an opening parenthesis), "(Seller Concession)". *)
Definition concession_clause (text : str) (x : ascii) (g : str) : Prop :=
  exists pre post,
    text = pre ++ py "credit to Buyer " ++ [x] ++ g
           ++ py "(Seller Concession)" ++ post
    /\ x <> newline /\ g <> [] /\ Forall (fun y => y <> "("%char) g.

(** One pass over a formula: every letter [a] that does not follow a
    dollar sign and stands before a digit, or before a dollar sign and a
    digit, becomes [dst]; every other character is kept. *)
Fixpoint shift_letter (a : ascii) (dst : str) (pv : option ascii) (s : str)
    : str :=
  match s with
  | [] => []
  | x :: t =>
      (if chr_eqb a x
          && match pv with
             | Some y => negb (chr_eqb y "$"%char)
             | None => true
             end
          && digit_ahead t
       then dst else [x])
      ++ shift_letter a dst (Some x) t
  end.

(** The blocks that the three block extractors read in their windows of
    the text, with the block [g] as the patterns capture it. *)
Definition inclusions_block (window g : str) : Prop :=
  exists pre ws stop post,
    window = pre ++ py "included in the Purchase Price:" ++ ws ++ [newline]
             ++ g ++ stop ++ post
    /\ Forall (fun x => is_space x = true) ws /\ g <> []
    /\ stop ∈ [[newline; newline]; py "If the box"; py "2.5.4"].

Definition exclusions_block (window g : str) : Prop :=
  exists pre ws nl stop post,
    window = pre ++ py "Exclusions):" ++ ws ++ nl ++ g ++ stop ++ post
    /\ Forall (fun x => is_space x = true) ws /\ nl ∈ [[newline]; []]
    /\ g <> [] /\ stop ∈ [[newline; newline]; py "2.7."].

Definition provisions_block (window g : str) : Prop :=
  exists pre ws post,
    window = pre ++ py "Colorado Real Estate Commission:" ++ ws ++ [newline]
             ++ g ++ [newline] ++ py "31." ++ post
    /\ Forall (fun x => is_space x = true) ws /\ g <> [].

(** The options line of a fee section on a page, when the page decides
    the section: its text holds the section number, it has checkboxes, the
    header of the section is found, and an options line below it. *)
Definition fee_options_y (section_id : str) (pg : page) : option Z :=
  if contains section_id (default [] (extract_text pg))
  then match get_page_checkboxes pg with
       | [] => None
       | _ :: _ =>
           match find_section_anchor_y section_id (page_chars pg) with
           | Some anchor_y =>
               find_options_y (page_chars pg) (get_page_checkboxes pg) anchor_y
           | None => None
           end
       end
  else None.

(** The commission clause in a text, with the percentage [g] as the
    pattern of [parse_commission] reads it. *)
Definition commission_clause (text g : str) : Prop :=
  exists pre ws1 ws2 post,
    text = pre ++ py "29.1." ++ ws1 ++ g ++ py "%" ++ ws2
           ++ py "of the Purchase Price" ++ post
    /\ ws1 <> [] /\ Forall (fun x => is_space x = true) ws1
    /\ g <> [] /\ Forall (fun x => digit_or_dot x = true) g
    /\ ws2 <> [] /\ Forall (fun x => is_space x = true) ws2.

(** The brightness of a checkbox on the render of its page. *)
Definition page_brightness (pg : page) (cb : image) : Q :=
  let '(pil_img, scale_x, scale_y) := render_of pg in
  checkbox_brightness pg cb pil_img scale_x scale_y.

(** The checkboxes of a page among which [parse_title_insurance]
    ([below] = 100) and [parse_oec] ([below] = 30) look for the checked
    one: those from [below] under the header of the section to 5 over it.
    There are none to look among when the text of the page lacks the
    section number or the header is not found. *)
Definition anchored_boxes (section_id : str) (below : Q) (pg : page)
    : option (list image) :=
  if contains section_id (default [] (extract_text pg))
  then match find_section_anchor_y section_id (page_chars pg) with
       | Some anchor_y =>
           Some (List.filter
                   (fun cb =>
                      Qbetween (anchor_y - below) (cb_y0 cb) (anchor_y + 5))
                   (get_page_checkboxes pg))
       | None => None
       end
  else None.

(** The cache once the render of a page has been asked for: the render
    is added under the id of the page unless the cache has an entry for
    it. *)
Definition rendered (pg : page) (rc : render_cache) : render_cache :=
  match rc !! page_id pg with
  | Some _ => rc
  | None => <[page_id pg := render_of pg]> rc
  end.

(** The same for [parse_assoc_assessments]: the checkboxes from the header
    of section 17, or 200 under the header of section 16.2, up to that
    header. *)
Definition assoc_boxes (pg : page) : option (list image) :=
  let pt := default [] (extract_text pg) in
  if contains (py "16.2.") pt && contains (py "Association Assessments") pt
  then match find_section_anchor_y (py "16.2.") (page_chars pg) with
       | Some anchor_y =>
           let next_y :=
             Impl.next_section_loop (page_chars pg) anchor_y 0 (page_chars pg) in
           Some (List.filter
                   (fun cb =>
                      Qbetween (Impl.assoc_y_min next_y anchor_y) (cb_y0 cb)
                        anchor_y)
                   (get_page_checkboxes pg))
       | None => None
       end
  else None.

(** What a page with the candidates [cb0 :: cbs] decides: "n/a" when the
    darkest of them is brighter than 150, else the value of its label. *)
Definition title_insurance_choice (pg : page) (cb0 : image)
    (cbs : list image) : str :=
  let best_cb := min_by (page_brightness pg) cb0 cbs in
  if Qgtb (page_brightness pg best_cb) 150 then py "n/a"
  else Impl.title_insurance_value
         (label_after_checkbox best_cb (page_chars pg) 9999).

Definition oec_choice (pg : page) (cb0 : image) (cbs : list image) : str :=
  let best_cb := min_by (page_brightness pg) cb0 cbs in
  if Qgtb (page_brightness pg best_cb) 150 then py "n/a"
  else Impl.oec_value
         (label_after_checkbox best_cb (page_chars pg)
            (next_checkbox_x (same_line best_cb (cb0 :: cbs)) best_cb)).

Definition assoc_choice (pg : page) (boxes : list image) : str :=
  match boxes with
  | [] => py "n/a"
  | cb0 :: cbs =>
      let best := min_by (page_brightness pg) cb0 cbs in
      if Qgtb (page_brightness pg best) 150 then py "n/a"
      else Impl.assoc_value (Impl.assoc_label best (page_chars pg))
  end.

(** A page to run the extractors on: the header "8.1.1" at the left
    margin, and under it a checkbox, dark on the render, before the label
    "Seller". *)
Definition glyph_at (s : str) (x y : Q) : glyph :=
  Glyph s x y (x + 5) (y + 10).

Definition sample_page : page :=
  {| page_id := 7;
     page_width := 612;
     page_height := 792;
     page_chars :=
       [ glyph_at (py "8") 72 700; glyph_at (py ".") 77 700;
         glyph_at (py "1") 82 700; glyph_at (py ".") 87 700;
         glyph_at (py "1") 92 700;
         glyph_at (py "S") 122 680; glyph_at (py "e") 127 680;
         glyph_at (py "l") 132 680; glyph_at (py "l") 137 680;
         glyph_at (py "e") 142 680; glyph_at (py "r") 147 680 ];
     page_images := [ Image 110 680 120.5 690.5 ];
     extract_text := Some (py "8.1.1 Seller");
     to_image := Raster 1275 1650 (fun _ => [0; 0; 255]) |}.

(** A page for [parse_assoc_assessments]: the header "16.2." at the left
    margin and under it the label "Buyer", after the checkboxes [boxes]. *)
Definition assoc_page (boxes : list image) : page :=
  {| page_id := 8;
     page_width := 612;
     page_height := 792;
     page_chars :=
       [ glyph_at (py "1") 72 700; glyph_at (py "6") 77 700;
         glyph_at (py ".") 82 700; glyph_at (py "2") 87 700;
         glyph_at (py ".") 92 700;
         glyph_at (py "B") 122 680; glyph_at (py "u") 127 680;
         glyph_at (py "y") 132 680; glyph_at (py "e") 137 680;
         glyph_at (py "r") 142 680 ];
     page_images := boxes;
     extract_text := Some (py "16.2. Association Assessments Buyer");
     to_image := Raster 1275 1650 (fun _ => [0; 0; 255]) |}.

(** * Properties *)

(** ** Rational comparisons *)

Lemma Qltb_lt (a b : Q) : Qltb a b = true <-> (a < b)%Q.
Proof.
  unfold Qltb. rewrite negb_true_iff. split.
  - intros H. apply Qnot_le_lt. intros Hle.
    apply Qle_bool_iff in Hle. congruence.
  - intros H. destruct (Qle_bool b a) eqn:E; [|reflexivity].
    apply Qle_bool_iff in E. exfalso. exact (Qlt_not_le _ _ H E).
Qed.

Lemma Qltb_ge (a b : Q) : Qltb a b = false <-> (b <= a)%Q.
Proof.
  unfold Qltb. rewrite negb_false_iff. apply Qle_bool_iff.
Qed.



Lemma Qgtb_le (a b : Q) : Qgtb a b = false <-> (a <= b)%Q.
Proof. apply Qltb_ge. Qed.

Lemma Qgeb_ge (a b : Q) : Qgeb a b = true <-> (b <= a)%Q.
Proof. apply Qle_bool_iff. Qed.

(** ** [min(..., key=...)] *)

Section MinBy.
Context {A : Type} (key : A -> Q).

(** [min_by] returns the first element of least key: everything before
    it has a strictly greater key, everything after it a key at least as
    great. *)
Lemma min_by_split (l : list A) : forall x,
  exists l1 l2,
    x :: l = l1 ++ min_by key x l :: l2
    /\ Forall (fun y => (key (min_by key x l) < key y)%Q) l1
    /\ Forall (fun y => (key (min_by key x l) <= key y)%Q) l2.
Proof.
  induction l as [|y t IH]; intros x.
  - exists [], []. simpl. repeat split; constructor.
  - simpl. destruct (Qltb (key y) (key x)) eqn:E.
    + apply Qltb_lt in E.
      destruct (IH y) as (l1 & l2 & Heq & H1 & H2).
      exists (x :: l1), l2. split; [simpl; congruence|]. split; [|exact H2].
      constructor; [|exact H1].
      assert (Hy : (key (min_by key y t) <= key y)%Q).
      { destruct l1 as [|z l1'].
        - simpl in Heq. injection Heq as Hz _. rewrite <- Hz. apply Qle_refl.
        - simpl in Heq. injection Heq as Hz _. subst z.
          apply Qlt_le_weak. exact (Forall_inv H1). }
      eapply Qle_lt_trans; eauto.
    + apply Qltb_ge in E.
      destruct (IH x) as (l1 & l2 & Heq & H1 & H2).
      destruct l1 as [|z l1'].
      * simpl in Heq. injection Heq as Hz Ht.
        exists [], (y :: l2). simpl. split; [congruence|].
        split; [constructor|]. constructor; [|exact H2].
        rewrite <- Hz. exact E.
      * simpl in Heq. injection Heq as Hz Ht. subst z.
        exists (x :: y :: l1'), l2. simpl. split; [congruence|].
        split; [|exact H2].
        constructor; [exact (Forall_inv H1)|].
        constructor; [|exact (Forall_inv_tail H1)].
        eapply Qlt_le_trans; [exact (Forall_inv H1)|exact E].
Qed.

Lemma min_by_in (l : list A) x : min_by key x l ∈ x :: l.
Proof.
  destruct (min_by_split l x) as (l1 & l2 & Heq & _). rewrite Heq.
  apply elem_of_app. right. apply elem_of_cons. by left.
Qed.

Lemma min_by_least (l : list A) x y :
  y ∈ x :: l -> (key (min_by key x l) <= key y)%Q.
Proof.
  destruct (min_by_split l x) as (l1 & l2 & Heq & H1 & H2).
  rewrite Heq. intros Hy. apply elem_of_app in Hy as [Hy|Hy].
  - apply Qlt_le_weak. rewrite Forall_forall in H1. by apply H1.
  - apply elem_of_cons in Hy as [->|Hy]; [apply Qle_refl|].
    rewrite Forall_forall in H2. by apply H2.
Qed.
End MinBy.

(** ** The stable sort *)

Section SortBy.
Context {A : Type} (key : A -> Q).

Lemma insert_by_perm (x : A) (l : list A) : insert_by key x l ≡ₚ x :: l.
Proof.
  induction l as [|y t IH]; simpl; [done|].
  destruct (Qle_bool (key x) (key y)); [done|].
  rewrite IH. apply Permutation_swap.
Qed.

Lemma sort_by_perm (l : list A) : sort_by key l ≡ₚ l.
Proof.
  induction l as [|x t IH]; simpl; [done|].
  rewrite insert_by_perm. by rewrite IH.
Qed.


Lemma insert_by_sorted (x : A) (l : list A) :
  StronglySorted (key_le key) l -> StronglySorted (key_le key) (insert_by key x l).
Proof.
  induction l as [|y t IH]; intros Hs; simpl.
  - constructor; constructor.
  - destruct (Qle_bool (key x) (key y)) eqn:E.
    + apply Qle_bool_iff in E. constructor; [exact Hs|].
      constructor; [exact E|].
      apply StronglySorted_inv in Hs as [_ Hall].
      eapply Forall_impl; [exact Hall|].
      intros z Hz. unfold key_le in *. eapply Qle_trans; eauto.
    + assert (Hyx : (key y <= key x)%Q).
      { apply Qlt_le_weak. apply Qltb_lt. unfold Qltb. by rewrite E. }
      apply StronglySorted_inv in Hs as [Hs Hall].
      constructor; [by apply IH|].
      rewrite (insert_by_perm x t). constructor; [exact Hyx|exact Hall].
Qed.

Lemma sort_by_sorted (l : list A) : StronglySorted (key_le key) (sort_by key l).
Proof.
  induction l as [|x t IH]; simpl; [constructor|].
  by apply insert_by_sorted.
Qed.

(** Stability: the elements of any one key keep their order. *)
Lemma insert_by_stable (k : Q) (x : A) (l : list A) :
  List.filter (fun a => Qeq_bool (key a) k) (insert_by key x l)
  = List.filter (fun a => Qeq_bool (key a) k) (x :: l).
Proof.
  induction l as [|y t IH]; [done|].
  cbn [insert_by]. destruct (Qle_bool (key x) (key y)) eqn:E; [done|].
  cbn [List.filter] in *. rewrite IH.
  destruct (Qeq_bool (key x) k) eqn:Ex; [|done].
  destruct (Qeq_bool (key y) k) eqn:Ey; [|done].
  exfalso. apply Qeq_bool_iff in Ex, Ey.
  assert (Hle : (key x <= key y)%Q) by (rewrite Ex, Ey; apply Qle_refl).
  apply Qle_bool_iff in Hle. congruence.
Qed.

Lemma sort_by_stable (k : Q) (l : list A) :
  List.filter (fun a => Qeq_bool (key a) k) (sort_by key l)
  = List.filter (fun a => Qeq_bool (key a) k) l.
Proof.
  induction l as [|x t IH]; [done|].
  cbn [sort_by]. rewrite insert_by_stable. cbn [List.filter].
  by rewrite IH.
Qed.
End SortBy.

(** ** The label resolver *)

Lemma right_of_checkbox_iff (cb_img : image) (next_cb_x : Q) (c : glyph) :
  right_of_checkbox cb_img next_cb_x c = true <->
  (cb_x1 cb_img - 1 <= c_x0 c)%Q /\ (c_x0 c < next_cb_x)%Q
  /\ (Qabs ((c_y0 c + c_y1 c) / 2 - (cb_y0 cb_img + cb_y1 cb_img) / 2) < 4)%Q.
Proof.
  unfold right_of_checkbox. rewrite !andb_true_iff, Qgeb_ge, !Qltb_lt. tauto.
Qed.

Lemma elem_of_list_filter_bool {A} (f : A -> bool) (l : list A) (x : A) :
  x ∈ List.filter f l <-> x ∈ l /\ f x = true.
Proof. rewrite !list_elem_of_In. apply filter_In. Qed.

(** C7: the label is the stripped concatenation of the texts of the first
    15 glyphs of [lc], where [lc] holds exactly the glyphs whose left edge
    is at or beyond the right edge of the checkbox minus 1 and strictly
    left of the bound and whose vertical midpoint is within 4 of the
    checkbox's, in increasing order of x (equal x keeping the order of the
    page); so every glyph of the label lies strictly left of the bound. *)
Theorem label_after_checkbox_spec (cb_img : image) (chars : list glyph)
    (next_cb_x : Q) :
  exists lc : list glyph,
    label_after_checkbox cb_img chars next_cb_x
      = strip (join (map c_text (take 15 lc)))
    /\ lc ≡ₚ List.filter (right_of_checkbox cb_img next_cb_x) chars
    /\ (forall c, c ∈ lc <->
          c ∈ chars /\ (cb_x1 cb_img - 1 <= c_x0 c)%Q
          /\ (c_x0 c < next_cb_x)%Q
          /\ (Qabs ((c_y0 c + c_y1 c) / 2
                    - (cb_y0 cb_img + cb_y1 cb_img) / 2) < 4)%Q)
    /\ StronglySorted (fun a b => (c_x0 a <= c_x0 b)%Q) lc
    /\ (forall k,
          List.filter (fun c => Qeq_bool (c_x0 c) k) lc
          = List.filter (fun c => Qeq_bool (c_x0 c) k)
              (List.filter (right_of_checkbox cb_img next_cb_x) chars))
    /\ Forall (fun c => (c_x0 c < next_cb_x)%Q) (take 15 lc).
Proof.
  set (kept := List.filter (right_of_checkbox cb_img next_cb_x) chars).
  assert (Hmem : forall c, c ∈ sort_by c_x0 kept <->
            c ∈ chars /\ right_of_checkbox cb_img next_cb_x c = true).
  { intros c. rewrite (sort_by_perm c_x0 kept).
    apply elem_of_list_filter_bool. }
  exists (sort_by c_x0 kept). split; [reflexivity|].
  split; [apply sort_by_perm|].
  split; [intros c; rewrite Hmem, right_of_checkbox_iff; tauto|].
  split; [apply sort_by_sorted|].
  split; [intros k; apply sort_by_stable|].
  apply Forall_forall. intros c Hc.
  assert (Hin : c ∈ sort_by c_x0 kept).
  { revert Hc. apply subseteq_take. }
  apply Hmem in Hin as [_ Hin]. apply right_of_checkbox_iff in Hin. tauto.
Qed.

(** ** The visual state classifier *)







Lemma classify_no_candidates (pg : page) (options_y : Q)
    (all_checkboxes : list image) (r : render) :
  option_cbs options_y all_checkboxes = [] ->
  classify pg options_y all_checkboxes r = py "n/a".
Proof. intros H. unfold classify. destruct r as [[pil sx] sy]. by rewrite H. Qed.

Lemma classify_winner (pg : page) (options_y : Q)
    (all_checkboxes : list image) (pil : raster) (sx sy : Q)
    (cb0 : image) (cbs : list image) :
  option_cbs options_y all_checkboxes = cb0 :: cbs ->
  let br := fun cb => checkbox_brightness pg cb pil sx sy in
  let best := min_by br cb0 cbs in
  classify pg options_y all_checkboxes (pil, sx, sy)
  = if Qgtb (br best) 150 then py "n/a"
    else or_na (label_to_dropdown
                  (label_after_checkbox best (page_chars pg)
                     (next_checkbox_x (same_line best (cb0 :: cbs)) best))).
Proof. intros H. unfold classify. by rewrite H. Qed.


(** C10: when the crop of a checkbox holds no pixel the brightness is 255,
    no division is made, and 255 is above the threshold: a winner with an
    empty crop gives "n/a". *)
Theorem checkbox_brightness_empty_crop (pg : page) (cb_img : image)
    (pil_img : raster) (scale_x scale_y : Q) :
  getdata pil_img (crop_box pg cb_img scale_x scale_y) = [] ->
  checkbox_brightness pg cb_img pil_img scale_x scale_y = 255%Q
  /\ (150 < checkbox_brightness pg cb_img pil_img scale_x scale_y)%Q
  /\ forall options_y all_checkboxes cb0 cbs,
       option_cbs options_y all_checkboxes = cb0 :: cbs ->
       min_by (fun cb => checkbox_brightness pg cb pil_img scale_x scale_y)
         cb0 cbs = cb_img ->
       classify pg options_y all_checkboxes (pil_img, scale_x, scale_y)
       = py "n/a".
Proof.
  intros Hempty.
  assert (Hbr : checkbox_brightness pg cb_img pil_img scale_x scale_y = 255%Q).
  { unfold checkbox_brightness. by rewrite Hempty. }
  split; [exact Hbr|]. split; [by rewrite Hbr|].
  intros options_y all_checkboxes cb0 cbs Hc Hbest.
  rewrite (classify_winner _ _ _ _ _ _ _ _ Hc). cbn zeta.
  rewrite Hbest, Hbr. reflexivity.
Qed.

(** With pixels in the crop the brightness is their mean. *)
Lemma checkbox_brightness_mean (pg : page) (cb_img : image)
    (pil_img : raster) (scale_x scale_y : Q) :
  let pixels := getdata pil_img (crop_box pg cb_img scale_x scale_y) in
  pixels <> [] ->
  checkbox_brightness pg cb_img pil_img scale_x scale_y
  = (inject_Z (sum_Z pixels) / inject_Z (Z.of_nat (length pixels)))%Q
  /\ Z.of_nat (length pixels) <> 0.
Proof.
  intros pixels Hne. unfold checkbox_brightness. fold pixels.
  destruct pixels; [done|]. split; [done|]. simpl. lia.
Qed.

(** ** The section anchor locator *)

Lemma chr_eqb_eq (a b : ascii) : chr_eqb a b = true <-> a = b.
Proof. apply Ascii.eqb_eq. Qed.

Lemma startswith_prefix (s p : str) :
  startswith s p = true <-> exists t, s = p ++ t.
Proof.
  revert s. induction p as [|x p IH]; intros s; simpl.
  - split; [intros _; by exists s|done].
  - destruct s as [|y s]; [split; [done|intros [t Ht]; done]|].
    simpl. rewrite andb_true_iff, chr_eqb_eq, IH. split.
    + intros [-> [t ->]]. by exists t.
    + intros [t Ht]. injection Ht as -> ->. split; [done|by exists t].
Qed.

Lemma contains_chr (c : ascii) (s : str) : contains [c] s = true <-> c ∈ s.
Proof.
  induction s as [|y s IH]; simpl.
  - split; [done|]. by intros ?%elem_of_nil.
  - rewrite orb_true_iff, IH, andb_true_r, chr_eqb_eq, elem_of_cons.
    destruct s; intuition congruence.
Qed.

Lemma elem_of_join (c : ascii) (parts : list str) :
  c ∈ join parts <-> exists p, p ∈ parts /\ c ∈ p.
Proof.
  unfold join. induction parts as [|p parts IH]; simpl.
  - split; [by intros ?%elem_of_nil|]. intros (p & Hp & _).
    by apply elem_of_nil in Hp.
  - rewrite elem_of_app, IH. split.
    + intros [H|(p' & H1 & H2)].
      * exists p. split; [apply elem_of_cons; by left|done].
      * exists p'. split; [apply elem_of_cons; by right|done].
    + intros (p' & [->|H1]%elem_of_cons & H2); [by left|].
      right. by exists p'.
Qed.

(** What the loop of [find_section_anchor_y] tests on the glyph at index
    [i]: its text occurs in "0123456789", its left edge is not beyond 150,
    the fragment of up to 10 glyphs from it starts with the first
    [min(4, len)] characters of the target, and none of the up to 4
    glyphs before it holds the section sign. *)
Lemma anchor_accepts_iff (target : str) (chars : list glyph) (i : nat)
    (c : glyph) :
  anchor_accepts target chars i c = true <->
  contains (c_text c) (py "0123456789") = true
  /\ (c_x0 c <= 150)%Q
  /\ (exists t, anchor_fragment chars i
                = take (Nat.min 4 (length target)) target ++ t)
  /\ Forall (fun g => section_sign ∉ c_text g) (slice chars (i - 4) i).
Proof.
  unfold anchor_accepts.
  rewrite !andb_true_iff, !negb_true_iff, Qgtb_le, startswith_prefix.
  assert (Hs : slice target 0 (Nat.min 4 (length target))
               = take (Nat.min 4 (length target)) target).
  { unfold slice. by rewrite Nat.sub_0_r. }
  rewrite Hs.
  assert (Hp : contains [section_sign] (anchor_prev chars i) = false <->
               Forall (fun g => section_sign ∉ c_text g)
                 (slice chars (i - 4) i)).
  { rewrite <- not_true_iff_false, contains_chr. unfold anchor_prev.
    rewrite Nat.max_0_l, elem_of_join, Forall_forall. split.
    - intros Hn g Hg Hin. apply Hn. exists (c_text g).
      split; [|done]. apply list_elem_of_fmap. by exists g.
    - intros Hall (p & Hp & Hin).
      apply list_elem_of_fmap in Hp as (g & -> & Hg). by apply (Hall g). }
  rewrite Hp. tauto.
Qed.

(** A one-character text occurs in "0123456789" exactly when it is a
    decimal digit. *)
Lemma contains_digits_single (d : ascii) :
  contains [d] (py "0123456789") = is_digit d.
Proof.
  destruct d as [[] [] [] [] [] [] [] []]; vm_compute; reflexivity.
Qed.

Lemma anchor_loop_some (target : str) (chars l : list glyph) (y : Q) :
  forall i,
  anchor_loop target chars i l = Some y <->
  exists k c,
    l !! k = Some c
    /\ anchor_accepts target chars (i + k) c = true
    /\ (forall j c', (j < k)%nat -> l !! j = Some c' ->
          anchor_accepts target chars (i + j) c' = false)
    /\ y = c_y0 c.
Proof.
  induction l as [|c0 t IH]; intros i; simpl.
  - split; [done|]. intros (k & c & Hk & _). done.
  - destruct (anchor_accepts target chars i c0) eqn:E.
    + split.
      * intros [= <-]. exists 0%nat, c0. rewrite Nat.add_0_r.
        repeat split; try done. intros j c' Hj. lia.
      * intros (k & c & Hk & Hacc & Hfirst & ->).
        destruct k as [|k].
        -- simpl in Hk. by injection Hk as ->.
        -- specialize (Hfirst 0%nat c0 ltac:(lia) eq_refl).
           rewrite Nat.add_0_r in Hfirst. congruence.
    + rewrite IH. split.
      * intros (k & c & Hk & Hacc & Hfirst & ->).
        exists (S k), c. replace (i + S k)%nat with (S i + k)%nat by lia.
        repeat split; try done.
        intros [|j] c' Hj Hl.
        -- simpl in Hl. injection Hl as <-. by rewrite Nat.add_0_r.
        -- replace (i + S j)%nat with (S i + j)%nat by lia.
           apply Hfirst; [lia|done].
      * intros (k & c & Hk & Hacc & Hfirst & ->).
        destruct k as [|k].
        -- simpl in Hk. injection Hk as ->. rewrite Nat.add_0_r in Hacc.
           congruence.
        -- exists k, c. replace (S i + k)%nat with (i + S k)%nat by lia.
           repeat split; try done.
           intros j c' Hj Hl.
           replace (S i + j)%nat with (i + S j)%nat by lia.
           apply Hfirst; [lia|done].
Qed.

Lemma anchor_loop_none (target : str) (chars l : list glyph) :
  forall i,
  anchor_loop target chars i l = None <->
  forall k c, l !! k = Some c -> anchor_accepts target chars (i + k) c = false.
Proof.
  induction l as [|c0 t IH]; intros i; simpl.
  - split; [|done]. intros _ k c Hk. done.
  - destruct (anchor_accepts target chars i c0) eqn:E.
    + split; [done|]. intros H. specialize (H 0%nat c0 eq_refl).
      rewrite Nat.add_0_r in H. congruence.
    + rewrite IH. split.
      * intros H [|k] c Hk.
        -- simpl in Hk. injection Hk as <-. by rewrite Nat.add_0_r.
        -- replace (i + S k)%nat with (S i + k)%nat by lia. by apply H.
      * intros H k c Hk. replace (S i + k)%nat with (i + S k)%nat by lia.
        by apply H.
Qed.

(** The locator returns the [y0] of the first glyph its loop accepts, and
    [None] exactly when it accepts none. *)
Lemma find_section_anchor_y_first (section_id : str) (chars : list glyph) :
  let target := anchor_target section_id in
  (forall y,
     find_section_anchor_y section_id chars = Some y <->
     exists i c,
       chars !! i = Some c
       /\ anchor_accepts target chars i c = true
       /\ (forall j c', (j < i)%nat -> chars !! j = Some c' ->
             anchor_accepts target chars j c' = false)
       /\ y = c_y0 c)
  /\ (find_section_anchor_y section_id chars = None <->
      forall i c, chars !! i = Some c ->
                  anchor_accepts target chars i c = false).
Proof.
  intros target. unfold find_section_anchor_y. fold target. split.
  - intros y. apply (anchor_loop_some target chars chars y 0%nat).
  - apply (anchor_loop_none target chars chars 0%nat).
Qed.

(** Cross-reference rejection: a glyph with the section sign among the 4
    glyphs before it is never the anchor. *)
Lemma anchor_rejects_cross_reference (target : str) (chars : list glyph)
    (i j : nat) (c g : glyph) :
  chars !! j = Some g -> (j < i <= j + 4)%nat ->
  section_sign ∈ c_text g ->
  anchor_accepts target chars i c = false.
Proof.
  intros Hg Hj Hin. apply not_true_iff_false. intros Hacc.
  apply anchor_accepts_iff in Hacc as (_ & _ & _ & Hall).
  rewrite Forall_forall in Hall. apply (Hall g); [|done].
  unfold slice. apply list_elem_of_lookup. exists (j - (i - 4))%nat.
  rewrite lookup_take_lt by lia. rewrite lookup_drop.
  replace (i - 4 + (j - (i - 4)))%nat with j by lia. done.
Qed.

(** C2: the glyph "1" of the header "16.2" with left edge exactly on 150 is
    accepted as the anchor, although it does not lie left of 150. *)
Theorem find_section_anchor_y_accepts_margin_150 :
  find_section_anchor_y (py "16.2.")
    [ Glyph (py "1") 150 700 155 710; Glyph (py "6") 155 700 160 710;
      Glyph (py ".") 160 700 163 710; Glyph (py "2") 163 700 168 710 ]
  = Some 700%Q
  /\ ~ (150 < 150)%Q.
Proof. split; [vm_compute; reflexivity|]. intros H. discriminate H. Qed.

(** ** Labels and dropdown values *)


Lemma label_to_dropdown_values (label : str) :
  or_na (label_to_dropdown label) ∈ dropdown_values.
Proof.
  unfold label_to_dropdown, dropdown_values.
  repeat (match goal with |- context [if ?b then _ else _] => destruct b end);
    cbn; set_solver.
Qed.

Lemma classify_values (pg : page) (options_y : Q)
    (all_checkboxes : list image) (r : render) :
  classify pg options_y all_checkboxes r ∈ dropdown_values.
Proof.
  destruct r as [[pil sx] sy].
  destruct (option_cbs options_y all_checkboxes) as [|cb0 cbs] eqn:Hc.
  - rewrite classify_no_candidates by done. cbn. set_solver.
  - rewrite (classify_winner _ _ _ _ _ _ _ _ Hc). cbn zeta.
    destruct (Qgtb _ _); [cbn; set_solver|apply label_to_dropdown_values].
Qed.

(** C8, as the code has it: on the upper-cased, left-stripped label the
    prefix "BUYER" gives Buyer Pays; else the prefix "SELLER" gives Seller
    Pays; else "ONE-HALF" anywhere in it, or the prefix "ONE", gives Split
    50/50; else the prefix "N/A" gives n/a; else there is no value, which
    the classifier reports as n/a.  The classifier's result is always one
    of the four dropdown values. *)
Theorem label_to_dropdown_cases (label : str) :
  let u := lstrip (upper label) in
  (startswith u (py "BUYER") = true ->
     label_to_dropdown label = Some (py "Buyer Pays"))
  /\ (startswith u (py "BUYER") = false ->
      startswith u (py "SELLER") = true ->
      label_to_dropdown label = Some (py "Seller Pays"))
  /\ (startswith u (py "BUYER") = false ->
      startswith u (py "SELLER") = false ->
      contains (py "ONE-HALF") u = true \/ startswith u (py "ONE") = true ->
      label_to_dropdown label = Some (py "Split 50/50"))
  /\ (startswith u (py "BUYER") = false ->
      startswith u (py "SELLER") = false ->
      contains (py "ONE-HALF") u = false ->
      startswith u (py "ONE") = false ->
      startswith u (py "N/A") = true ->
      label_to_dropdown label = Some (py "n/a"))
  /\ (startswith u (py "BUYER") = false ->
      startswith u (py "SELLER") = false ->
      contains (py "ONE-HALF") u = false ->
      startswith u (py "ONE") = false ->
      startswith u (py "N/A") = false ->
      label_to_dropdown label = None
      /\ or_na (label_to_dropdown label) = py "n/a")
  /\ (forall pg options_y all_checkboxes rc,
        (detect_checked_box_at_y pg options_y all_checkboxes rc).1
        ∈ dropdown_values).
Proof.
  intros u. unfold label_to_dropdown. fold u.
  split; [|split; [|split; [|split; [|split]]]].
  - by intros ->.
  - by intros -> ->.
  - intros -> -> [H|H]; rewrite H; [done|by rewrite orb_true_r].
  - by intros -> -> -> -> ->.
  - by intros -> -> -> -> ->.
  - intros pg options_y all_checkboxes rc. unfold detect_checked_box_at_y.
    destruct (cached_render pg rc) as [r rc']. apply classify_values.
Qed.

(** C8 as stated fails: this label starts with none of the prefixes, yet
    its value is Split 50/50, not n/a. *)
Lemma label_to_dropdown_not_by_prefix :
  let label := py "(ONE-HALF)" in
  let u := lstrip (upper label) in
  startswith u (py "BUYER") = false
  /\ startswith u (py "SELLER") = false
  /\ startswith u (py "ONE-HALF") = false
  /\ startswith u (py "ONE") = false
  /\ startswith u (py "N/A") = false
  /\ or_na (label_to_dropdown label) = py "Split 50/50"
  /\ py "Split 50/50" <> py "n/a".
Proof. vm_compute. repeat split; done. Qed.

(** ** The matcher finds matches *)

Lemma advance_nil (c : cursor) : advance c [] = c.
Proof. by destruct c. Qed.

Lemma advance_one (c : cursor) (x : ascii) (t : str) :
  rest c = x :: t -> advance c [x] = Cursor (S (pos c)) (Some x) t.
Proof. intros H. unfold advance. rewrite H. reflexivity. Qed.

Lemma prev_after_app (pv : option ascii) (w1 w2 : str) :
  prev_after (prev_after pv w1) w2 = prev_after pv (w1 ++ w2).
Proof.
  unfold prev_after. destruct w2 as [|x w2 _] using rev_ind.
  - by rewrite app_nil_r.
  - by rewrite app_assoc, !last_snoc.
Qed.

Lemma advance_app (c : cursor) (w1 w2 : str) :
  advance (advance c w1) w2 = advance c (w1 ++ w2).
Proof.
  unfold advance. cbn [pos prev rest].
  rewrite prev_after_app, drop_drop, length_app. f_equal; lia.
Qed.

Lemma skip_advance (s : str) : forall (c : cursor) (t : str),
  rest c = s ++ t -> skip c (length s) = advance c s.
Proof.
  induction s as [|x s IH]; intros c t H.
  - by rewrite advance_nil.
  - cbn [length skip]. rewrite H. cbn [app].
    rewrite (IH _ t) by done.
    change (x :: s) with ([x] ++ s). rewrite <- advance_app.
    by rewrite (advance_one c x (s ++ t)).
Qed.

Lemma startswith_ci_prefix (s p : str) :
  startswith_ci s p = true <->
  exists w t, s = w ++ t /\ map lower_chr w = map lower_chr p.
Proof.
  revert s. induction p as [|x p IH]; intros s; simpl.
  - split; [intros _; by exists [], s|done].
  - destruct s as [|y s].
    + split; [done|]. intros (w & t & Hs & Hw).
      destruct w; [done|done].
    + rewrite andb_true_iff, chr_eqb_eq, IH. split.
      * intros [Hxy (w & t & -> & Hw)]. exists (y :: w), t.
        split; [done|]. simpl. by rewrite Hw, Hxy.
      * intros (w & t & Hs & Hw). destruct w as [|z w]; [done|].
        simpl in Hs, Hw. injection Hs as -> ->. injection Hw as Hz Hw.
        split; [done|]. by exists w, t.
Qed.

Section Soundness.
Context {A : Type}.

Lemma star_loop_sound (r : regex)
    (m : cursor -> groups -> (cursor -> groups -> option A) -> option A) :
  sound_for r m ->
  forall fuel, sound_for (Star r) (star_loop m fuel).
Proof.
  intros Hm fuel. induction fuel as [|fuel IH]; intros c g k a H.
  - simpl in H. exists [], g, (rest c).
    rewrite advance_nil. split; [constructor|done].
  - simpl in H.
    destruct (m c g _) as [a'|] eqn:E.
    + injection H as ->.
      apply Hm in E as (w1 & g1 & t1 & Hm1 & Hr1 & Hk).
      destruct (pos c <? pos (advance c w1))%nat eqn:Hlt; [|done].
      apply IH in Hk as (w2 & g2 & t2 & Hm2 & Hr2 & Hk).
      exists (w1 ++ w2), g2, t2.
      split; [|split].
      * econstructor; eauto. intros ->. rewrite advance_nil in Hlt.
        apply Nat.ltb_lt in Hlt. lia.
      * unfold advance in Hr2. cbn [rest] in Hr2.
        rewrite Hr1, drop_app_length in Hr2.
        by rewrite Hr1, Hr2, app_assoc.
      * by rewrite <- advance_app.
    + exists [], g, (rest c).
      rewrite advance_nil. split; [constructor|done].
Qed.
End Soundness.

Lemma rmatch_sound {A : Type} (r : regex) : sound_for (A := A) r (rmatch r).
Proof.
  induction r as [|p|s|s|r1 IH1 r2 IH2|r1 IH1 r2 IH2|r1 IH1|n r1 IH1| | |];
    intros c g k a H; cbn [rmatch] in H.
  - exists [], g, (rest c). rewrite advance_nil. split; [constructor|done].
  - destruct (rest c) as [|x t] eqn:Hr; [done|].
    destruct (p x) eqn:Hp; [|done].
    exists [x], g, t. rewrite (advance_one c x t Hr).
    split; [by econstructor|done].
  - destruct (startswith (rest c) s) eqn:Hs; [|done].
    apply startswith_prefix in Hs as [t Ht].
    rewrite (skip_advance s c t Ht) in H.
    exists s, g, t. split; [by econstructor|done].
  - destruct (startswith_ci (rest c) s) eqn:Hs; [|done].
    apply startswith_ci_prefix in Hs as (w & t & Ht & Hw).
    assert (Hlen : length s = length w).
    { by rewrite <- (length_map lower_chr s), <- Hw, length_map. }
    rewrite Hlen, (skip_advance w c t Ht) in H.
    exists w, g, t. split; [by econstructor|done].
  - apply IH1 in H as (w1 & g1 & t1 & Hm1 & Hr1 & H).
    apply IH2 in H as (w2 & g2 & t2 & Hm2 & Hr2 & H).
    exists (w1 ++ w2), g2, t2. split; [by econstructor|].
    split; [|by rewrite <- advance_app].
    unfold advance in Hr2. cbn [rest] in Hr2.
    rewrite Hr1, drop_app_length in Hr2. by rewrite Hr1, Hr2, app_assoc.
  - destruct (rmatch r1 c g k) as [a'|] eqn:E.
    + injection H as ->. apply IH1 in E as (w & g1 & t & Hm & Hr & Hk).
      exists w, g1, t. split; [by apply M_AltL|done].
    + apply IH2 in H as (w & g1 & t & Hm & Hr & Hk).
      exists w, g1, t. split; [by apply M_AltR|done].
  - by apply (star_loop_sound r1 (rmatch r1) IH1) in H.
  - apply IH1 in H as (w & g1 & t & Hm & Hr & Hk).
    exists w, (<[n := (pos c, (length w + pos c)%nat)]> g1), t.
    split; [by constructor|done].
  - destruct (pos c =? 0)%nat eqn:E; [|done]. apply Nat.eqb_eq in E.
    exists [], g, (rest c). rewrite advance_nil.
    split; [by constructor|done].
  - destruct (at_end c) eqn:E; [|done].
    exists [], g, (rest c). rewrite advance_nil.
    split; [by constructor|done].
  - destruct (at_boundary c) eqn:E; [|done].
    exists [], g, (rest c). rewrite advance_nil.
    split; [by constructor|done].
Qed.

(** ** Facts about matches *)

Lemma rest_advance (c : cursor) (w t : str) :
  rest c = w ++ t -> rest (advance c w) = t.
Proof. intros H. unfold advance. cbn [rest]. by rewrite H, drop_app_length. Qed.

Lemma matches_prefix r c g w g1 :
  matches r c g w g1 -> exists t, rest c = w ++ t.
Proof.
  induction 1;
    repeat match goal with
      | H : exists _, _ |- _ => destruct H as [? H]
      end;
    try (by exists (rest c)); try (by eexists); try done.
  - by exists t.
  - match goal with
    | H1 : rest ?c = ?w1 ++ ?t1, H2 : rest (advance ?c ?w1) = ?w2 ++ ?t2
      |- _ =>
        exists t2; rewrite (rest_advance _ _ _ H1) in H2;
        by rewrite H1, H2, app_assoc
    end.
  - match goal with
    | H1 : rest ?c = ?w1 ++ ?t1, H2 : rest (advance ?c ?w1) = ?w2 ++ ?t2
      |- _ =>
        exists t2; rewrite (rest_advance _ _ _ H1) in H2;
        by rewrite H1, H2, app_assoc
    end.
Qed.

Lemma matches_groupless r c g w g1 :
  matches r c g w g1 -> groupless r = true -> g1 = g.
Proof.
  induction 1; cbn [groupless]; intros Hg; try done.
  - apply andb_true_iff in Hg as [? ?]. rewrite IHmatches2 by done. auto.
  - apply andb_true_iff in Hg as [? ?]. auto.
  - apply andb_true_iff in Hg as [? ?]. auto.
  - rewrite IHmatches2 by done. auto.
Qed.

Lemma matches_star_cls p c g w g1 :
  matches (Star (Cls p)) c g w g1 -> Forall (fun x => p x = true) w.
Proof.
  remember (Star (Cls p)) as r eqn:Hr. induction 1; try done.
  injection Hr as ->. apply Forall_app. split; [|by apply IHmatches2].
  inversion H; subst. by constructor.
Qed.

Lemma matches_star_cls_groups p c g w g1 :
  matches (Star (Cls p)) c g w g1 -> g1 = g.
Proof. intros H. by apply matches_groupless in H. Qed.

Lemma matches_plus_cls p c g w g1 :
  matches (Plus (Cls p)) c g w g1 ->
  w <> [] /\ Forall (fun x => p x = true) w /\ g1 = g.
Proof.
  intros H. pose proof (matches_groupless _ _ _ _ _ H eq_refl) as Hg.
  unfold Plus in H. inversion H; subst. clear H.
  match goal with H : matches (Cls p) _ _ _ _ |- _ => inversion H; subst end.
  split; [done|]. split; [|done].
  constructor; [done|]. eapply matches_star_cls; eauto.
Qed.

(** Reading a match of a concrete expression back into its parts. *)
Ltac inv_matches :=
  repeat match goal with
    | H : matches Eps _ _ _ _ |- _ => inversion H; subst; clear H
    | H : matches (Cls _) _ _ _ _ |- _ => inversion H; subst; clear H
    | H : matches (Lit _) _ _ _ _ |- _ => inversion H; subst; clear H
    | H : matches (LitI _) _ _ _ _ |- _ => inversion H; subst; clear H
    | H : matches (Seq _ _) _ _ _ _ |- _ => inversion H; subst; clear H
    | H : matches (Alt _ _) _ _ _ _ |- _ => inversion H; subst; clear H
    | H : matches (Grp _ _) _ _ _ _ |- _ => inversion H; subst; clear H
    | H : matches Bol _ _ _ _ |- _ => inversion H; subst; clear H
    | H : matches Eol _ _ _ _ |- _ => inversion H; subst; clear H
    | H : matches Wb _ _ _ _ |- _ => inversion H; subst; clear H
    end.

Lemma match_at_sound (r : regex) (c : cursor) (m : rematch) :
  match_at r c = Some m ->
  exists w, m_from m = c /\ m_to m = advance c w
            /\ matches r c ∅ w (m_groups m).
Proof.
  unfold match_at. intros H.
  apply rmatch_sound in H as (w & g1 & t & Hm & Hr & [= <-]).
  by exists w.
Qed.

Lemma search_at_sound (r : regex) (l : str) : forall p pv m,
  search_at r p pv l = Some m ->
  exists pre w,
    m_from m = advance (Cursor p pv l) pre
    /\ m_to m = advance (m_from m) w
    /\ (exists t, l = pre ++ t)
    /\ matches r (m_from m) ∅ w (m_groups m).
Proof.
  induction l as [|x t IH]; intros p pv m H; cbn [search_at] in H.
  - destruct (match_at r _) as [m'|] eqn:E; [|done]. injection H as ->.
    apply match_at_sound in E as (w & Hf & Ht & Hm).
    exists [], w. rewrite advance_nil, Hf. repeat split; try done.
    by exists [].
  - destruct (match_at r _) as [m'|] eqn:E.
    + injection H as ->.
      apply match_at_sound in E as (w & Hf & Ht & Hm).
      exists [], w. rewrite advance_nil, Hf. repeat split; try done.
      by exists (x :: t).
    + apply IH in H as (pre & w & Hf & Ht & [t' Hl] & Hm).
      exists (x :: pre), w. split; [|split; [done|split; [|done]]].
      * rewrite Hf. change (x :: pre) with ([x] ++ pre).
        rewrite <- advance_app. f_equal.
      * exists t'. by rewrite Hl.
Qed.

(** A match that [re.search] returns: the subject is [pre ++ w ++ post]
    and the expression matches [w] after [pre]. *)
Lemma re_search_sound (r : regex) (s : str) (m : rematch) :
  re_search r s = Some m ->
  exists pre w post,
    s = pre ++ w ++ post
    /\ m_start m = length pre
    /\ m_end m = (length pre + length w)%nat
    /\ matches r (advance (start_of s) pre) ∅ w (m_groups m).
Proof.
  unfold re_search, search_from. cbn [start_of pos prev rest]. intros H.
  apply search_at_sound in H as (pre & w & Hf & Ht & [t Hl] & Hm).
  fold (start_of s) in Hf. rewrite Hf in Hm.
  destruct (matches_prefix _ _ _ _ _ Hm) as [post Hpost].
  rewrite (rest_advance (start_of s) pre t Hl) in Hpost.
  exists pre, w, post. split; [by rewrite Hl, Hpost|].
  unfold m_start, m_end. rewrite Ht, Hf. cbn. split; [lia|]. split; [lia|done].
Qed.

(** ** The deadline table *)

Lemma int_digits_nonneg (s : str) : forall acc n,
  int_digits acc s = Some n -> 0 <= acc -> 0 <= n.
Proof.
  induction s as [|c s IH]; intros acc n H Hacc; simpl in H.
  - by injection H as <-.
  - destruct (is_digit c) eqn:Hd; [|done].
    apply IH in H; [done|].
    unfold is_digit in Hd. apply andb_true_iff in Hd as [Hd _].
    apply N.leb_le in Hd. unfold digit_val. lia.
Qed.

Lemma py_int_nonneg (s : str) (n : Z) : py_int s = Some n -> 0 <= n.
Proof.
  destruct s; [done|]. intros H. by apply int_digits_nonneg in H.
Qed.

Ltac class_facts :=
  repeat match goal with
    | H : matches (Plus (Cls _)) _ _ _ _ |- _ =>
        apply matches_plus_cls in H as (? & ? & ?)
    | H : matches (Star (Cls ?p)) _ _ _ _ |- _ =>
        pose proof (matches_star_cls_groups _ _ _ _ _ H);
        apply matches_star_cls in H
    end.

(** The shape of a line that the row pattern accepts. *)
Lemma deadline_line_match (line : str) (m : rematch) :
  re_match deadline_line_re line = Some m ->
  exists ds sp ref sp2 tail,
    line = ds ++ sp ++ ref ++ sp2 ++ tail
    /\ ds <> [] /\ Forall (fun x => is_digit x = true) ds
    /\ sp <> [] /\ Forall (fun x => is_space x = true) sp
    /\ is_reference ref
    /\ sp2 <> [] /\ Forall (fun x => is_space x = true) sp2
    /\ group line m 1 = Some ds
    /\ drop (m_end m) line = tail.
Proof.
  intros H. apply match_at_sound in H as (w & Hf & Ht & Hm).
  destruct (matches_prefix _ _ _ _ _ Hm) as [t Hl]. cbn [start_of rest] in Hl.
  unfold deadline_line_re in Hm. cbn [Seqs fold_right] in Hm.
  inv_matches; class_facts; subst.
  - exists w0, w2, (py "§" ++ w3 ++ w6), w4, t.
    split; [cbn [app]; by rewrite ?app_nil_r, <- ?app_assoc|].
    do 4 (split; [done|]).
    split; [right; by exists w3, w6|]. do 2 (split; [done|]). split.
    + unfold group.
      match goal with H : m_groups m = _ |- _ => rewrite H end.
      rewrite lookup_insert_eq. cbn [advance start_of pos length].
      unfold slice. rewrite Nat.add_0_r, Nat.sub_0_r, drop_0. cbn [app].
      by rewrite <- app_assoc, take_app_length.
    + unfold m_end. rewrite Ht. cbn [advance start_of pos].
      by rewrite Nat.add_0_r, drop_app_length.
  - exists w0, w2, (py "n/a"), w4, t.
    split; [cbn [app]; by rewrite ?app_nil_r, <- ?app_assoc|].
    do 4 (split; [done|]).
    split; [by left|]. do 2 (split; [done|]). split.
    + unfold group.
      match goal with H : m_groups m = _ |- _ => rewrite H end.
      rewrite lookup_insert_eq. cbn [advance start_of pos length].
      unfold slice. rewrite Nat.add_0_r, Nat.sub_0_r, drop_0. cbn [app].
      by rewrite <- app_assoc, take_app_length.
    + unfold m_end. rewrite Ht. cbn [advance start_of pos].
      by rewrite Nat.add_0_r, drop_app_length.
Qed.

Lemma int_digits_some (s : str) : forall acc,
  Forall (fun x => is_digit x = true) s -> is_Some (int_digits acc s).
Proof.
  induction s as [|c s IH]; intros acc Hs; simpl; [done|].
  apply Forall_cons in Hs as [-> Hs]. by apply IH.
Qed.

(** [int] never fails on the digits the row pattern captures. *)
Lemma py_int_some (s : str) :
  s <> [] -> Forall (fun x => is_digit x = true) s -> is_Some (py_int s).
Proof. destruct s; [done|]. intros _ Hs. by apply int_digits_some. Qed.

(** A run of characters of a class is determined by the string. *)
Lemma run_unique (p : ascii -> bool) (a1 : str) : forall a2 t1 t2,
  a1 ++ t1 = a2 ++ t2 ->
  Forall (fun x => p x = true) a1 -> Forall (fun x => p x = true) a2 ->
  ends_run p t1 -> ends_run p t2 ->
  a1 = a2 /\ t1 = t2.
Proof.
  induction a1 as [|x a1 IH]; intros a2 t1 t2 Heq H1 H2 E1 E2.
  - destruct a2 as [|y a2]; [done|]. simpl in Heq. subst t1.
    apply Forall_cons in H2 as [Hy _]. simpl in E1. congruence.
  - destruct a2 as [|y a2].
    + simpl in Heq. subst t2. apply Forall_cons in H1 as [Hx _].
      simpl in E2. congruence.
    + simpl in Heq. injection Heq as -> Heq.
      apply Forall_cons in H1 as [_ H1]. apply Forall_cons in H2 as [_ H2].
      destruct (IH a2 t1 t2 Heq H1 H2 E1 E2) as [-> ->]. done.
Qed.

Lemma space_not_digit (x : ascii) : is_space x = true -> is_digit x = false.
Proof. destruct x as [[] [] [] [] [] [] [] []]; vm_compute; congruence. Qed.

Lemma parse_deadline_line_range (line : str) (item : Z) (value : str) :
  parse_deadline_line line = Some (item, value) -> 0 <= item <= 43.
Proof.
  unfold parse_deadline_line. intros H.
  destruct (re_match deadline_line_re line) as [m|]; [|done].
  destruct (group line m 1) as [digits|]; [|done].
  destruct (py_int digits) as [n|] eqn:Hn; [|done].
  destruct (43 <? n) eqn:Hlt; [done|].
  injection H as <- _. apply Z.ltb_ge in Hlt. apply py_int_nonneg in Hn. lia.
Qed.

(** The item number of an accepted line is its leading integer, and the
    line is accepted exactly when the row pattern matches and that integer
    is at most 43. *)
Lemma parse_deadline_line_leading (digits tail : str) (n : Z) :
  digits <> [] -> Forall (fun x => is_digit x = true) digits ->
  ends_run is_digit tail ->
  py_int digits = Some n ->
  parse_deadline_line (digits ++ tail)
  = match re_match deadline_line_re (digits ++ tail) with
    | Some m =>
        if 43 <? n then None
        else Some (n, deadline_value (drop (m_end m) (digits ++ tail)))
    | None => None
    end.
Proof.
  intros Hne Hd Hend Hn. unfold parse_deadline_line.
  destruct (re_match deadline_line_re (digits ++ tail)) as [m|] eqn:Hm;
    [|done].
  apply deadline_line_match in Hm
    as (ds & sp & ref & sp2 & tl & Hl & Hds & Hdd & Hsp & Hss & _ & _ & _
        & Hg & _).
  assert (ds = digits) as ->.
  { symmetry in Hl.
    apply (run_unique is_digit) in Hl as [-> _]; try done.
    destruct sp as [|x sp]; [done|]. apply Forall_cons in Hss as [Hx _].
    simpl. by apply space_not_digit. }
  by rewrite Hg, Hn.
Qed.

Lemma parse_deadlines_fold (lines : list str) : forall (acc : gmap Z str),
  (forall k v, acc !! k = Some v -> 0 <= k <= 43) ->
  forall k v,
    fold_left
      (fun results line =>
         match parse_deadline_line (strip line) with
         | Some (item, value) => <[item := value]> results
         | None => results
         end) lines acc !! k = Some v ->
    0 <= k <= 43.
Proof.
  induction lines as [|l lines IH]; intros acc Hacc k v; simpl; [apply Hacc|].
  apply IH. intros k' v'.
  destruct (parse_deadline_line (strip l)) as [[item value]|] eqn:E;
    [|apply Hacc].
  rewrite lookup_insert. case_decide as Hk; [|apply Hacc].
  intros _. subst k'. by apply parse_deadline_line_range in E.
Qed.

(** C4, as the code has it: an accepted line has an item number from 0 to
    43; a line whose leading integer exceeds 43 is rejected; every key of
    the mapping that [parse_deadlines] returns lies in 0..43. *)
Theorem parse_deadlines_item_range :
  (forall line item value,
     parse_deadline_line line = Some (item, value) -> 0 <= item <= 43)
  /\ (forall digits tail n,
        digits <> [] -> Forall (fun x => is_digit x = true) digits ->
        ends_run is_digit tail ->
        py_int digits = Some n -> 43 < n ->
        parse_deadline_line (digits ++ tail) = None)
  /\ (forall text item value,
        parse_deadlines text !! item = Some value -> 0 <= item <= 43).
Proof.
  split; [exact parse_deadline_line_range|]. split.
  - intros digits tail n Hne Hd Hend Hn Hlt.
    rewrite (parse_deadline_line_leading digits tail n) by done.
    destruct (re_match _ _); [|done]. apply Z.ltb_lt in Hlt. by rewrite Hlt.
  - intros text item value. unfold parse_deadlines.
    destruct (find text _) as [start|]; [|by rewrite lookup_empty].
    apply parse_deadlines_fold. intros k v. by rewrite lookup_empty.
Qed.

(** C4 as stated fails: a row numbered 0 is accepted, and 0 is a key of
    the mapping. *)
Lemma parse_deadlines_item_zero :
  parse_deadline_line (py "0 n/a x") = Some (0, py "x")
  /\ parse_deadlines
       (py "Item No. Reference Event Date or Deadline
0 n/a x
4. PURCHASE PRICE AND TERMS") !! 0 = Some (py "x")
  /\ ~ (1 <= 0 <= 43).
Proof.
  split; [by vm_compute|]. split; [by vm_compute|]. lia.
Qed.

(** ** The matcher misses no match *)

Section Completeness.
Context {A : Type}.

Lemma pos_advance_lt (c : cursor) (w : str) :
  w <> [] -> (pos c <? pos (advance c w))%nat = true.
Proof.
  intros Hw. apply Nat.ltb_lt. unfold advance. cbn [pos].
  destruct w; [done|]. simpl. lia.
Qed.

(** If the continuation succeeds after some match of [r], the matcher
    succeeds (on that match or on one it tries before). *)
Lemma rmatch_complete_aux r c g w g1 :
  matches r c g w g1 ->
  (forall k : cursor -> groups -> option A,
     is_Some (k (advance c w) g1) -> is_Some (rmatch r c g k))
  /\ (forall r', r = Star r' ->
      forall (k : cursor -> groups -> option A) fuel,
        (length w <= fuel)%nat ->
        is_Some (k (advance c w) g1) ->
        is_Some (star_loop (rmatch r') fuel c g k)).
Proof.
  induction 1 as [c g|p c g x t Hr Hp|s c g t Hr|s c g w t Hr Hw
    |r1 r2 c g w1 g1 w2 g2 H1 [IH1 _] H2 [IH2 _]
    |r1 r2 c g w g1 H1 [IH1 _]|r1 r2 c g w g1 H1 [IH1 _]
    |r c g|r c g w1 g1 w2 g2 H1 [IH1 _] Hne H2 [_ IH2]
    |n r c g w g1 H1 [IH1 _]|c g Hp|c g He|c g Hb].
  - split; [|done]. intros k Hk. by rewrite advance_nil in Hk.
  - split; [|done]. intros k Hk. cbn [rmatch]. rewrite Hr, Hp.
    by rewrite (advance_one c x t Hr) in Hk.
  - split; [|done]. intros k Hk. cbn [rmatch].
    assert (Hs : startswith (rest c) s = true).
    { apply startswith_prefix. by exists t. }
    by rewrite Hs, (skip_advance s c t Hr).
  - split; [|done]. intros k Hk. cbn [rmatch].
    assert (Hs : startswith_ci (rest c) s = true).
    { apply startswith_ci_prefix. by exists w, t. }
    assert (Hlen : length s = length w).
    { by rewrite <- (length_map lower_chr s), <- Hw, length_map. }
    by rewrite Hs, Hlen, (skip_advance w c t Hr).
  - split; [|done]. intros k Hk. cbn [rmatch]. apply IH1, IH2.
    by rewrite advance_app.
  - split; [|done]. intros k Hk. cbn [rmatch].
    destruct (IH1 k Hk) as [a Ha]. by rewrite Ha.
  - split; [|done]. intros k Hk. cbn [rmatch].
    destruct (rmatch r1 c g k); [done|]. by apply IH1.
  - assert (Hloop : forall (k : cursor -> groups -> option A) fuel,
              is_Some (k (advance c []) g) ->
              is_Some (star_loop (rmatch r) fuel c g k)).
    { intros k fuel Hk. rewrite advance_nil in Hk.
      destruct fuel as [|fuel]; [done|]. cbn [star_loop].
      by destruct (rmatch r c g _). }
    split.
    + intros k Hk. cbn [rmatch]. by apply Hloop.
    + intros r' [= <-] k fuel _ Hk. by apply Hloop.
  - assert (Hloop : forall (k : cursor -> groups -> option A) fuel,
              (length (w1 ++ w2) <= fuel)%nat ->
              is_Some (k (advance c (w1 ++ w2)) g2) ->
              is_Some (star_loop (rmatch r) fuel c g k)).
    { intros k fuel Hfuel Hk. rewrite length_app in Hfuel.
      destruct fuel as [|fuel]; [destruct w1; [done|simpl in Hfuel; lia]|].
      cbn [star_loop].
      match goal with |- is_Some (match ?e with _ => _ end) =>
        assert (Hm : is_Some e) end.
      { apply IH1. rewrite (pos_advance_lt c w1 Hne).
        apply (IH2 r eq_refl).
        - destruct w1; [done|]. simpl in Hfuel. lia.
        - by rewrite advance_app. }
      destruct Hm as [a Ha]. by rewrite Ha. }
    split.
    + intros k Hk. cbn [rmatch]. apply Hloop; [|done].
      assert (Hm : matches (Star r) c g (w1 ++ w2) g2) by (econstructor; eauto).
      destruct (matches_prefix _ _ _ _ _ Hm) as [t Ht].
      rewrite Ht, !length_app. lia.
    + intros r' [= <-] k fuel Hfuel Hk. by apply Hloop.
  - split; [|done]. intros k Hk. cbn [rmatch]. by apply IH1.
  - split; [|done]. intros k Hk. cbn [rmatch].
    apply Nat.eqb_eq in Hp. rewrite Hp. by rewrite advance_nil in Hk.
  - split; [|done]. intros k Hk. cbn [rmatch]. rewrite He.
    by rewrite advance_nil in Hk.
  - split; [|done]. intros k Hk. cbn [rmatch]. rewrite Hb.
    by rewrite advance_nil in Hk.
Qed.

Lemma rmatch_complete r c g w g1 (k : cursor -> groups -> option A) :
  matches r c g w g1 ->
  is_Some (k (advance c w) g1) -> is_Some (rmatch r c g k).
Proof. intros H. by apply (rmatch_complete_aux r c g w g1 H). Qed.
End Completeness.

Lemma match_at_complete r c w g1 :
  matches r c ∅ w g1 -> is_Some (match_at r c).
Proof. intros H. unfold match_at. by eapply rmatch_complete. Qed.

Lemma search_at_complete (r : regex) (pre : str) : forall p pv l w g1,
  matches r (advance (Cursor p pv l) pre) ∅ w g1 ->
  (exists t, l = pre ++ t) ->
  is_Some (search_at r p pv l).
Proof.
  induction pre as [|x pre IH]; intros p pv l w g1 Hm [t Hl].
  - rewrite advance_nil in Hm. apply match_at_complete in Hm as [m Hm].
    destruct l; cbn [search_at]; by rewrite Hm.
  - subst l. cbn [app search_at].
    destruct (match_at r _); [done|].
    apply (IH _ _ _ w g1); [|by exists t].
    change (x :: pre) with ([x] ++ pre) in Hm.
    rewrite <- advance_app in Hm.
    by rewrite (advance_one _ x (pre ++ t)) in Hm.
Qed.

(** [re.search] finds a match whenever the expression matches somewhere
    in the subject. *)
Lemma re_search_complete (r : regex) (s pre w : str) g1 :
  matches r (advance (start_of s) pre) ∅ w g1 ->
  (exists t, s = pre ++ t) ->
  is_Some (re_search r s).
Proof.
  intros Hm Ht. unfold re_search, search_from. cbn [start_of pos prev rest].
  by eapply search_at_complete.
Qed.

(** ** Amounts *)

Lemma digit_not_point (x : ascii) :
  is_digit x = true -> chr_eqb x "."%char = false /\ chr_eqb x ","%char = false.
Proof. destruct x as [[] [] [] [] [] [] [] []]; vm_compute; done. Qed.

Lemma split_dot_digits (ds t : str) :
  Forall (fun x => is_digit x = true) ds ->
  split_dot (ds ++ "."%char :: t) = (ds, Some t).
Proof.
  induction ds as [|x ds IH]; intros Hd; [done|].
  apply Forall_cons in Hd as [Hx Hd]. cbn [app split_dot].
  destruct (digit_not_point x Hx) as [-> _]. by rewrite IH.
Qed.

Lemma remove_comma_digits (body : str) :
  Forall (fun x => digit_or_comma x = true) body ->
  Forall (fun x => is_digit x = true) (remove_chr ","%char body).
Proof.
  intros H. apply Forall_forall. intros x Hx.
  apply elem_of_list_filter_bool in Hx as [Hx Hne].
  rewrite Forall_forall in H. specialize (H x Hx).
  unfold digit_or_comma in H. apply orb_true_iff in H as [H|H]; [done|].
  apply negb_true_iff in Hne. congruence.
Qed.

(** [float] never fails on the numeral the amount pattern captures. *)
Lemma py_float_amount (body : str) (d1 d2 : ascii) :
  Forall (fun x => digit_or_comma x = true) body ->
  is_digit d1 = true -> is_digit d2 = true ->
  is_Some (py_float (remove_chr ","%char (body ++ py "." ++ [d1; d2]))).
Proof.
  intros Hb H1 H2. unfold remove_chr. rewrite List.filter_app.
  fold (remove_chr ","%char body).
  assert (Hrest : List.filter (fun x => negb (chr_eqb x ","%char))
                    (py "." ++ [d1; d2]) = "."%char :: [d1; d2]).
  { cbn. destruct (digit_not_point d1 H1) as [_ ->].
    by destruct (digit_not_point d2 H2) as [_ ->]. }
  rewrite Hrest. unfold py_float.
  rewrite (split_dot_digits _ _ (remove_comma_digits body Hb)).
  cbn [default from_option id]. unfold id.
  destruct (int_digits_some (remove_chr ","%char body) 0
              (remove_comma_digits body Hb)) as [a Ha].
  destruct (int_digits_some [d1; d2] 0) as [b Hb2].
  { by repeat constructor. }
  rewrite Ha, Hb2. by destruct (remove_chr ","%char body).
Qed.

Lemma slice_middle {A} (a b c : list A) (n : nat) :
  n = length a -> slice (a ++ b ++ c) n (length b + n) = b.
Proof.
  intros ->. unfold slice. rewrite drop_app_length.
  replace (length b + length a - length a)%nat with (length b) by lia.
  by rewrite take_app_length.
Qed.

Lemma labelled_amount_sound (number label : string) (window : str)
    (m : rematch) :
  re_search (labelled_amount_re number label) window = Some m ->
  exists v, amount_of window m = Some v
            /\ amount_occurrence number label window v.
Proof.
  intros H. apply re_search_sound in H as (pre & w & post & Hs & _ & _ & Hm).
  unfold labelled_amount_re, amount_re in Hm. cbn [Seqs fold_right] in Hm.
  inv_matches; class_facts; subst.
  repeat match goal with H : rest _ = _ |- _ => clear H end.
  match goal with H : _ = m_groups m |- _ => rename H into Hg end.
  match goal with
  | Hb : Forall (fun x => digit_or_comma x = true) ?body,
    H1 : is_digit ?d1 = true, H2 : is_digit ?d2 = true |- _ =>
      destruct (py_float_amount body d1 d2 Hb H1 H2) as [v Hv]
  end.
  exists v. split.
  - unfold amount_of, group. rewrite <- Hg, lookup_insert_eq.
    rewrite ?app_nil_r.
    match goal with
    | |- context [slice (?p ++ (?s ++ ?a ++ ?n ++ ?b ++ ?l ++ ?gp ++ ?num) ++ ?po)] =>
        replace (p ++ (s ++ a ++ n ++ b ++ l ++ gp ++ num) ++ po)
          with ((p ++ s ++ a ++ n ++ b ++ l ++ gp) ++ num ++ po)
          by (by rewrite <- !app_assoc)
    end.
    rewrite slice_middle; [exact Hv|].
    rewrite !length_app. change (length (py "§")) with 1%nat. lia.
  - match goal with
    | |- amount_occurrence _ _
           (?p ++ (_ ++ ?a ++ _ ++ ?b ++ _ ++ ?gp ++ (?bd ++ _ ++ [?d1] ++ [?d2] ++ []) ++ []) ++ ?po) _ =>
        exists p, a, b, gp, bd, d1, d2, po
    end.
    split; [cbn [app]; by rewrite ?app_nil_r, <- !app_assoc|].
    do 4 (split; [assumption|]).
    split.
    { match goal with H : Forall (fun x => not_digit x = true) _ |- _ =>
        eapply Forall_impl; [exact H|] end.
      intros y Hy. by apply negb_true_iff in Hy. }
    do 4 (split; [assumption|]). exact Hv.
Qed.

Lemma matches_star_cls_intro (p : ascii -> bool) (w : str) : forall c g t,
  Forall (fun x => p x = true) w -> rest c = w ++ t ->
  matches (Star (Cls p)) c g w g.
Proof.
  induction w as [|x w IH]; intros c g t Hw Hr; [constructor|].
  apply Forall_cons in Hw as [Hx Hw].
  change (x :: w) with ([x] ++ w).
  apply M_StarCons with (g1 := g); [by apply M_Cls with (t := w ++ t)|done|].
  apply (IH _ _ t Hw). by apply (rest_advance c [x]).
Qed.

Lemma matches_plus_cls_intro (p : ascii -> bool) (w : str) c g t :
  w <> [] -> Forall (fun x => p x = true) w -> rest c = w ++ t ->
  matches (Plus (Cls p)) c g w g.
Proof.
  intros Hne Hw Hr. destruct w as [|x w]; [done|].
  apply Forall_cons in Hw as [Hx Hw].
  change (x :: w) with ([x] ++ w). unfold Plus.
  apply M_Seq with (g1 := g); [by apply M_Cls with (t := w ++ t)|].
  apply (matches_star_cls_intro p w _ g t Hw). by apply (rest_advance c [x]).
Qed.

(** One step of a sequence, carrying the text that is left. *)
Lemma matches_seq_step r1 r2 c g w1 g1 w2 g2 (t : str) :
  rest c = w1 ++ t ->
  matches r1 c g w1 g1 ->
  (rest (advance c w1) = t -> matches r2 (advance c w1) g1 w2 g2) ->
  matches (Seq r1 r2) c g (w1 ++ w2) g2.
Proof.
  intros Hr H1 H2. apply M_Seq with (g1 := g1); [done|].
  apply H2. by apply rest_advance.
Qed.

Lemma labelled_amount_complete (number label : string) (window : str)
    (v : Q) :
  amount_occurrence number label window v ->
  is_Some (re_search (labelled_amount_re number label) window).
Proof.
  intros (pre & ws1 & ws2 & gap & body & d1 & d2 & post & Hw & Hs1 & Hn2
          & Hs2 & Hng & Hgap & Hnb & Hbody & Hd1 & Hd2 & _).
  assert (Hgap' : Forall (fun x => not_digit x = true) gap).
  { eapply Forall_impl; [exact Hgap|]. intros x Hx. unfold not_digit.
    by rewrite Hx. }
  set (w := py "§" ++ ws1 ++ py number ++ ws2 ++ py label ++ gap
            ++ (body ++ py "." ++ [d1] ++ [d2] ++ []) ++ []).
  assert (Hwin : window = pre ++ w ++ post).
  { rewrite Hw. unfold w. cbn [app]. by rewrite ?app_nil_r, <- !app_assoc. }
  assert (Hm : forall c0, rest c0 = w ++ post ->
            exists g1, matches (labelled_amount_re number label) c0 ∅ w g1).
  2: { destruct (Hm (advance (start_of window) pre)) as [g1 Hg1].
       { apply rest_advance. by rewrite Hwin. }
       eapply (re_search_complete _ window pre w); [exact Hg1|].
       by exists (w ++ post). }
  intros c0 H0. eexists.
  unfold w in *. clear w Hwin Hw. rewrite <- !app_assoc in H0.
  unfold labelled_amount_re, amount_re. cbn [Seqs fold_right].
  eapply matches_seq_step; [exact H0|by eapply M_Lit|intros H1].
  eapply matches_seq_step;
    [exact H1|by eapply matches_star_cls_intro|intros H2].
  eapply matches_seq_step; [exact H2|by eapply M_Lit|intros H3].
  eapply matches_seq_step;
    [exact H3|by eapply matches_plus_cls_intro|intros H4].
  eapply matches_seq_step; [exact H4|by eapply M_Lit|intros H5].
  eapply matches_seq_step;
    [exact H5|by eapply matches_plus_cls_intro|intros H6].
  eapply matches_seq_step with (t := [] ++ post);
    [by rewrite H6, <- !app_assoc| |intros; apply M_Eps].
  apply M_Grp.
  eapply matches_seq_step;
    [exact H6|by eapply matches_plus_cls_intro|intros H7].
  eapply matches_seq_step; [exact H7|by eapply M_Lit|intros H8].
  eapply matches_seq_step; [exact H8|by eapply M_Cls|intros H9].
  eapply matches_seq_step; [exact H9|by eapply M_Cls|intros; apply M_Eps].
Qed.

(** What the search for a labelled amount in a window returns. *)
Lemma labelled_amount_search (number label : string) (window : str) :
  match re_search (labelled_amount_re number label) window with
  | Some m => exists v, amount_of window m = Some v
                        /\ amount_occurrence number label window v
  | None => forall v, ~ amount_occurrence number label window v
  end.
Proof.
  destruct (re_search _ window) as [m|] eqn:E.
  - by apply labelled_amount_sound.
  - intros v Hv. apply labelled_amount_complete in Hv as [m Hm]. congruence.
Qed.

(** [s.find(sub)] is the first index at which [sub] occurs. *)
Lemma find_from_first (sub s : str) : forall i n,
  find_from sub s i = Some n ->
  exists pre post,
    s = pre ++ sub ++ post /\ n = (i + length pre)%nat
    /\ forall k, (k < length pre)%nat -> startswith (drop k s) sub = false.
Proof.
  induction s as [|x s IH]; intros i n H; cbn [find_from] in H.
  - destruct (startswith [] sub) eqn:E; [|done]. injection H as <-.
    apply startswith_prefix in E as [t Ht]. exists [], t.
    split; [done|]. split; [simpl; lia|]. intros k Hk. simpl in Hk. lia.
  - destruct (startswith (x :: s) sub) eqn:E.
    + injection H as <-. apply startswith_prefix in E as [t Ht].
      exists [], t. split; [done|]. split; [simpl; lia|].
      intros k Hk. simpl in Hk. lia.
    + apply IH in H as (pre & post & -> & -> & Hfirst).
      exists (x :: pre), post. split; [done|]. split; [simpl; lia|].
      intros [|k] Hk; [done|]. simpl. apply Hfirst. simpl in Hk. lia.
Qed.

Lemma find_from_none (sub s : str) : forall i,
  find_from sub s i = None -> forall pre post, s <> pre ++ sub ++ post.
Proof.
  induction s as [|x s IH]; intros i H pre post Hs; cbn [find_from] in H.
  - destruct (startswith [] sub) eqn:E; [done|].
    apply not_true_iff_false in E. apply E. apply startswith_prefix.
    symmetry in Hs. apply app_eq_nil in Hs as [-> Hs]. by exists post.
  - destruct (startswith (x :: s) sub) eqn:E; [done|].
    destruct pre as [|y pre].
    + apply not_true_iff_false in E. apply E. apply startswith_prefix.
      by exists post.
    + simpl in Hs. injection Hs as -> Hs. by apply (IH _ H pre post).
Qed.

Lemma labelled_amount_some (number label : string) (window : str) (v : Q) :
  match re_search (labelled_amount_re number label) window with
  | Some m => amount_of window m
  | None => None
  end = Some v ->
  amount_occurrence number label window v.
Proof.
  pose proof (labelled_amount_search number label window) as H.
  destruct (re_search _ window) as [m|]; [|done].
  destruct H as (v' & E & H). rewrite E. by intros [= <-].
Qed.

Lemma labelled_amount_none (number label : string) (window : str) :
  match re_search (labelled_amount_re number label) window with
  | Some m => amount_of window m
  | None => None
  end = None <->
  forall v, ~ amount_occurrence number label window v.
Proof.
  pose proof (labelled_amount_search number label window) as H.
  destruct (re_search _ window) as [m|]; [|done].
  destruct H as (v' & E & H). rewrite E. split; [done|].
  intros Hno. exfalso. by apply (Hno v').
Qed.

Lemma new_loan_in_window (window : str) :
  exists r,
    match re_search new_loan_re window with
    | Some m =>
        match amount_of window m with
        | Some v => Some (if Qgtb v 0 then v else 0%Q)
        | None => None
        end
    | None => Some 0%Q
    end = Some r
    /\ ((r = 0%Q
         /\ forall v, ~ amount_occurrence "4.5." "New Loan" window v)
        \/ exists v,
             amount_occurrence "4.5." "New Loan" window v
             /\ r = if Qgtb v 0 then v else 0%Q).
Proof.
  pose proof (labelled_amount_search "4.5." "New Loan" window) as H.
  fold new_loan_re in H.
  destruct (re_search new_loan_re window) as [m|].
  - destruct H as (v & E & H). rewrite E. eexists. split; [reflexivity|].
    right. by exists v.
  - exists 0%Q. split; [done|]. by left.
Qed.

(** C9, as the code has it.  The three extractors look in the 600
    characters from the first "4.1." of the text.  Without "4.1." each
    returns [None].  Otherwise the price (earnest money) is the value of an
    amount after the label of 4.1 (4.3) in that window, a numeral of
    digits and commas, a point and two digits, and is [None] exactly when
    the window holds no such amount.  The loan amount is 0 when the window
    holds no amount after the label of 4.5; otherwise it is the value of
    one, or 0 when that value is not positive: "$0.00" is an amount and
    gives 0 as well.  The text of the example gives 450000. *)
Theorem amount_extractors_spec (text : str) :
  (find text (py "4.1.") = None ->
   parse_price text = None /\ parse_earnest text = None
   /\ parse_new_loan text = None)
  /\ (forall idx,
        find text (py "4.1.") = Some idx ->
        let window := slice text idx (idx + 600) in
        (exists pre post,
           text = pre ++ py "4.1." ++ post /\ idx = length pre
           /\ forall k, (k < idx)%nat ->
                        startswith (drop k text) (py "4.1.") = false)
        /\ (forall v, parse_price text = Some v ->
                      amount_occurrence "4.1." "Purchase Price" window v)
        /\ (parse_price text = None <->
            forall v, ~ amount_occurrence "4.1." "Purchase Price" window v)
        /\ (forall v, parse_earnest text = Some v ->
                      amount_occurrence "4.3." "Earnest Money" window v)
        /\ (parse_earnest text = None <->
            forall v, ~ amount_occurrence "4.3." "Earnest Money" window v)
        /\ (exists r,
              parse_new_loan text = Some r
              /\ ((r = 0%Q
                   /\ forall v, ~ amount_occurrence "4.5." "New Loan" window v)
                  \/ exists v,
                       amount_occurrence "4.5." "New Loan" window v
                       /\ r = if Qgtb v 0 then v else 0%Q)))
  /\ parse_price
       (py "4.1. Price and Terms. § 4.1. Purchase Price is $450,000.00 due")
     = Some 450000%Q
  /\ (let text0 := py "4.1. Price and Terms. § 4.5. New Loan $0.00 due" in
      find text0 (py "4.1.") = Some 0%nat
      /\ parse_new_loan text0 = Some 0%Q
      /\ amount_occurrence "4.5." "New Loan" (slice text0 0 600) 0).
Proof.
  split; [|split; [|split]].
  3: by vm_compute.
  3: { cbv zeta. split; [by vm_compute|]. split; [by vm_compute|].
       apply (labelled_amount_some "4.5." "New Loan"). by vm_compute. }
  - intros H. unfold parse_price, parse_earnest, parse_new_loan. by rewrite H.
  - intros idx H window.
    unfold parse_price, parse_earnest, parse_new_loan. rewrite H.
    fold window. split.
    { apply find_from_first in H as (pre & post & Ht & Hn & Hfirst).
      exists pre, post. simpl in Hn. subst idx. done. }
    split; [exact (labelled_amount_some "4.1." "Purchase Price" window)|].
    split; [exact (labelled_amount_none "4.1." "Purchase Price" window)|].
    split; [exact (labelled_amount_some "4.3." "Earnest Money" window)|].
    split; [exact (labelled_amount_none "4.3." "Earnest Money" window)|].
    exact (new_loan_in_window window).
Qed.

(** C9 as stated fails: the code reads the amount 1234.56, which the
    numeral of the claim does not match. *)
Lemma parse_price_not_claimed_pattern :
  let text := py "4.1. § 4.1. Purchase Price $1234.56" in
  parse_price text = Some (Qred 1234.56)
  /\ parse_price_claimed text = None
  /\ parse_new_loan (py "no such section") = None.
Proof. by vm_compute. Qed.

(** ** Phrases in the text *)

Lemma contains_spec (sub s : str) :
  contains sub s = true <-> exists pre post, s = pre ++ sub ++ post.
Proof.
  induction s as [|x s IH]; cbn [contains].
  - rewrite orb_false_r, startswith_prefix. split.
    + intros [t Ht]. by exists [], t.
    + intros (pre & post & Hs). symmetry in Hs.
      apply app_eq_nil in Hs as [-> Hs]. by exists post.
  - rewrite orb_true_iff, startswith_prefix, IH. split.
    + intros [[t Ht]|(pre & post & ->)]; [by exists [], t|].
      by exists (x :: pre), post.
    + intros ([|y pre] & post & Hs); [left; by exists post|].
      right. simpl in Hs. injection Hs as -> ->. by exists pre, post.
Qed.







(** ** The field record *)

Section Dict.
Context {V : Type}.

Lemma dict_update_cons (d : gmap Z V) (k : Z) (v : V) (items : list (Z * V)) :
  dict_update d ((k, v) :: items) = dict_update (<[k := v]> d) items.
Proof. reflexivity. Qed.

Lemma dict_update_lookup_ne (items : list (Z * V)) : forall d k,
  k ∉ items.*1 -> dict_update d items !! k = d !! k.
Proof.
  induction items as [|[k0 v0] items IH]; intros d k Hk; [done|].
  rewrite dict_update_cons.
  cbn in Hk. apply not_elem_of_cons in Hk as [Hne Hk].
  rewrite IH by done. by rewrite lookup_insert_ne.
Qed.

Lemma dict_update_lookup_in (items : list (Z * V)) : forall d k v,
  NoDup items.*1 -> (k, v) ∈ items -> dict_update d items !! k = Some v.
Proof.
  induction items as [|[k0 v0] items IH]; intros d k v Hnd Hin.
  - by apply elem_of_nil in Hin.
  - rewrite dict_update_cons.
    cbn in Hnd. apply NoDup_cons in Hnd as [Hk0 Hnd].
    apply elem_of_cons in Hin as [[= -> ->]|Hin].
    + rewrite dict_update_lookup_ne by done. apply lookup_insert_eq.
    + by apply IH.
Qed.

Lemma dict_update_is_Some (items : list (Z * V)) : forall d k,
  is_Some (dict_update d items !! k) <-> is_Some (d !! k) \/ k ∈ items.*1.
Proof.
  induction items as [|[k0 v0] items IH]; intros d k.
  - cbn. split; [by left|]. intros [H|H]; [done|by apply elem_of_nil in H].
  - rewrite dict_update_cons.
    rewrite IH, lookup_insert_is_Some. cbn. rewrite elem_of_cons.
    destruct (decide (k0 = k)) as [->|Hne]; [tauto|].
    intuition congruence.
Qed.
End Dict.

Lemma fee_values_rows (X : extractors) (d : pdf) (rows : list (Z * str)) :
  forall rc, (fee_values X d rows rc).1.*1 = rows.*1.
Proof.
  induction rows as [|[row sid] rows IH]; intros rc; [done|].
  cbn [fee_values]. destruct (get_fee_value X d sid rc) as [v rc1].
  specialize (IH rc1). destruct (fee_values X d rows rc1) as [vs rc2].
  cbn in *. by rewrite IH.
Qed.

Lemma fee_values_strings (X : extractors) (d : pdf) (rows : list (Z * str)) :
  forall rc kv, kv ∈ (fee_values X d rows rc).1 -> exists s, kv.2 = VStr s.
Proof.
  induction rows as [|[row sid] rows IH]; intros rc kv Hkv.
  - by apply elem_of_nil in Hkv.
  - cbn [fee_values] in Hkv. destruct (get_fee_value X d sid rc) as [v rc1].
    specialize (IH rc1). destruct (fee_values X d rows rc1) as [vs rc2].
    cbn in *. apply elem_of_cons in Hkv as [->|Hkv]; [by exists v|by apply IH].
Qed.

Lemma deadline_fold_update (f : Z -> pyval) (l : list (Z * Z)) :
  forall data : gmap Z pyval,
  fold_left (fun data ir => <[ir.2 := f ir.1]> data) l data
  = dict_update data (map (fun ir => (ir.2, f ir.1)) l).
Proof. induction l as [|ir l IH]; intros data; [done|]. cbn. apply IH. Qed.

(** The record of [parse_contract], as three updates of the empty
    dictionary: the [data] display and the fee sections, the commission
    when there is one, the deadline rows. *)
Lemma parse_contract_layers (X : extractors) (d : pdf) :
  let text := pdf_text d in
  let deadlines := parse_deadlines text in
  let loan_amount := parse_new_loan text in
  let loan_type := parse_loan_type text loan_amount in
  let is_cash := str_eqb loan_type (py "Cash") in
  exists (title_ins oec : str) (fee_sections : list (Z * pyval)),
    fee_sections.*1 = fee_section_rows
    /\ (forall kv, kv ∈ fee_sections -> exists s, kv.2 = VStr s)
    /\ parse_contract X d
       = dict_update
           (let data :=
              dict_update (dict_update ∅ (data_display X d title_ins oec))
                fee_sections in
            match parse_commission text with
            | Some commission => <[ROW_COMMISSION := VNum commission]> data
            | None => data
            end)
           (deadline_display deadlines).
Proof.
  intros text deadlines loan_amount loan_type is_cash.
  unfold parse_contract.
  fold text. fold deadlines. fold loan_amount. fold loan_type. fold is_cash.
  destruct (parse_title_insurance X d ∅) as [title_ins rc1].
  destruct (parse_oec X d rc1) as [oec rc2].
  pose proof (fee_values_rows X d fee_rows rc2) as Hrows.
  pose proof (fee_values_strings X d fee_rows rc2) as Hstr.
  destruct (fee_values X d fee_rows rc2) as [fees rc3].
  destruct (parse_assoc_assessments X d rc3) as [assoc rc4].
  exists title_ins, oec, (fees ++ [(ROW_ASSOC_ASSESS, VStr assoc)]).
  split; [|split].
  - rewrite fmap_app. cbn in Hrows. by rewrite Hrows.
  - intros kv [Hkv|Hkv]%elem_of_app; [by apply Hstr|].
    apply list_elem_of_singleton in Hkv as ->. by exists assoc.
  - exact (deadline_fold_update
             (fun item => VStr (default (py "n/a") (deadlines !! item))) _ _).
Qed.

Lemma data_display_rows (X : extractors) (d : pdf) (title_ins oec : str) :
  (data_display X d title_ins oec).*1 = scalar_display_rows.
Proof. reflexivity. Qed.

Lemma deadline_display_rows (deadlines : gmap Z str) :
  (deadline_display deadlines).*1 = DEADLINE_ITEM_TO_ROW.*2.
Proof. reflexivity. Qed.

(** The rows of the three layers are distinct from one another, and none
    is a row the script never overwrites. *)
Lemma rows_apart :
  NoDup (scalar_display_rows ++ fee_section_rows ++ [ROW_COMMISSION]
         ++ DEADLINE_ITEM_TO_ROW.*2)
  /\ Forall (fun row => row ∉ SKIP_ROWS)
       (scalar_display_rows ++ fee_section_rows ++ [ROW_COMMISSION]
        ++ DEADLINE_ITEM_TO_ROW.*2).
Proof.
  split.
  - refine (bool_decide_unpack _ _). by vm_compute.
  - cbn [app fmap list_fmap].
    repeat (constructor; [refine (bool_decide_unpack _ _); by vm_compute|]).
    constructor.
Qed.

(** Every row of the record and its value, layer by layer. *)
Lemma parse_contract_lookup (X : extractors) (d : pdf) :
  let text := pdf_text d in
  let record := parse_contract X d in
  exists (title_ins oec : str) (fee_sections : list (Z * pyval)),
    fee_sections.*1 = fee_section_rows
    /\ (forall kv, kv ∈ fee_sections -> exists s, kv.2 = VStr s)
    /\ (forall k v, (k, v) ∈ data_display X d title_ins oec ->
                    record !! k = Some v)
    /\ (forall k v, (k, v) ∈ fee_sections -> record !! k = Some v)
    /\ record !! ROW_COMMISSION = VNum <$> parse_commission text
    /\ (forall k v, (k, v) ∈ deadline_display (parse_deadlines text) ->
                    record !! k = Some v)
    /\ (forall k, is_Some (record !! k) ->
                  k ∈ scalar_display_rows ++ fee_section_rows
                      ++ [ROW_COMMISSION] ++ DEADLINE_ITEM_TO_ROW.*2).
Proof.
  intros text record.
  destruct (parse_contract_layers X d) as (title_ins & oec & fees & Hrows
                                           & Hstr & Heq).
  cbv zeta in Heq. fold text in Heq. fold record in Heq.
  destruct rows_apart as [Hnd _].
  apply NoDup_app in Hnd as (Hnd1 & H1 & Hnd).
  apply NoDup_app in Hnd as (Hnd2 & H2 & Hnd).
  apply NoDup_app in Hnd as (_ & H3 & Hnd4).
  set (base := dict_update (dict_update ∅ (data_display X d title_ins oec))
                 fees) in Heq.
  assert (Hcomm : forall k, k <> ROW_COMMISSION ->
            match parse_commission text with
            | Some commission => <[ROW_COMMISSION := VNum commission]> base
            | None => base
            end !! k = base !! k).
  { intros k Hk. destruct (parse_commission text); [|done].
    by rewrite lookup_insert_ne. }
  exists title_ins, oec, fees. split; [done|]. split; [done|].
  split; [|split; [|split; [|split]]].
  - intros k v Hin.
    assert (Hk : k ∈ scalar_display_rows).
    { rewrite <- (data_display_rows X d title_ins oec).
      apply list_elem_of_fmap. by exists (k, v). }
    specialize (H1 k Hk). rewrite !not_elem_of_app in H1.
    destruct H1 as (Hf & Hc & Hd).
    rewrite Heq, dict_update_lookup_ne by done.
    rewrite Hcomm by (intros ->; apply Hc; by apply list_elem_of_singleton).
    unfold base. rewrite dict_update_lookup_ne by (by rewrite Hrows).
    apply dict_update_lookup_in; [|done]. by rewrite data_display_rows.
  - intros k v Hin.
    assert (Hk : k ∈ fee_section_rows).
    { rewrite <- Hrows. apply list_elem_of_fmap. by exists (k, v). }
    specialize (H2 k Hk). rewrite !not_elem_of_app in H2.
    destruct H2 as (Hc & Hd).
    rewrite Heq, dict_update_lookup_ne by done.
    rewrite Hcomm by (intros ->; apply Hc; by apply list_elem_of_singleton).
    unfold base. apply dict_update_lookup_in; [by rewrite Hrows|done].
  - rewrite Heq, dict_update_lookup_ne.
    2: { apply H3. by apply list_elem_of_singleton. }
    destruct (parse_commission text) as [c|]; [apply lookup_insert_eq|].
    cbn. unfold base. rewrite !dict_update_lookup_ne; [done| |].
    + rewrite data_display_rows. intros Hin. specialize (H1 _ Hin).
      rewrite !not_elem_of_app in H1. destruct H1 as (_ & Hc & _).
      apply Hc. by apply list_elem_of_singleton.
    + rewrite Hrows. intros Hin. specialize (H2 _ Hin).
      rewrite !not_elem_of_app in H2. destruct H2 as (Hc & _).
      apply Hc. by apply list_elem_of_singleton.
  - intros k v Hin. rewrite Heq. by apply dict_update_lookup_in.
  - intros k. rewrite Heq, dict_update_is_Some, deadline_display_rows.
    intros [Hk|Hk]; [|rewrite !elem_of_app; tauto].
    assert (Hb : is_Some (base !! k) \/ k = ROW_COMMISSION).
    { destruct (parse_commission text); [|by left].
      apply lookup_insert_is_Some in Hk as [<-|[_ Hk]]; [by right|by left]. }
    destruct Hb as [Hb| ->].
    + unfold base in Hb. rewrite !dict_update_is_Some in Hb.
      rewrite lookup_empty, Hrows, data_display_rows in Hb.
      rewrite !elem_of_app. destruct Hb as [[Hb|Hb]|Hb]; [|tauto|tauto].
      by destruct Hb.
    + rewrite !elem_of_app. right. right. left.
      by apply list_elem_of_singleton.
Qed.



Lemma deadline_items_kept :
  Forall (fun ir => 1 <= ir.1 <= 43 /\ ir.1 ∉ dropped_items)
    DEADLINE_ITEM_TO_ROW
  /\ length DEADLINE_ITEM_TO_ROW = 35%nat
  /\ NoDup DEADLINE_ITEM_TO_ROW.*1
  /\ NoDup DEADLINE_ITEM_TO_ROW.*2.
Proof.
  split; [|split; [reflexivity|split]].
  - unfold DEADLINE_ITEM_TO_ROW.
    repeat (constructor;
            [split; [cbn; lia|refine (bool_decide_unpack _ _); by vm_compute]|]).
    constructor.
  - refine (bool_decide_unpack _ _). by vm_compute.
  - refine (bool_decide_unpack _ _). by vm_compute.
Qed.

(** C5, as the code has it: the record holds, for each of the 35 pairs of
    the item-to-row mapping, the row with the table's value for that item
    or "n/a"; it holds every row of the [data] display and of the fee
    sections; it holds the commission row exactly when a commission was
    read; it holds no row of the never-overwrite set and no other row; and
    the items 16 to 21, 28 and 29 have no row. *)
Theorem parse_contract_record (X : extractors) (d : pdf) :
  let text := pdf_text d in
  let record := parse_contract X d in
  let deadlines := parse_deadlines text in
  (forall item row,
     (item, row) ∈ DEADLINE_ITEM_TO_ROW ->
     record !! row = Some (VStr (default (py "n/a") (deadlines !! item))))
  /\ (forall row,
        row ∈ scalar_display_rows ++ fee_section_rows ->
        is_Some (record !! row))
  /\ record !! ROW_COMMISSION = VNum <$> parse_commission text
  /\ (forall row, row ∈ SKIP_ROWS -> record !! row = None)
  /\ (forall row,
        is_Some (record !! row) ->
        row ∈ scalar_display_rows ++ fee_section_rows ++ [ROW_COMMISSION]
              ++ DEADLINE_ITEM_TO_ROW.*2)
  /\ (forall item row,
        (item, row) ∈ DEADLINE_ITEM_TO_ROW ->
        1 <= item <= 43 /\ item ∉ dropped_items)
  /\ length DEADLINE_ITEM_TO_ROW = 35%nat
  /\ NoDup DEADLINE_ITEM_TO_ROW.*1
  /\ NoDup DEADLINE_ITEM_TO_ROW.*2.
Proof.
  intros text record deadlines.
  destruct (parse_contract_lookup X d)
    as (title_ins & oec & fees & Hrows & _ & Hdata & Hfees & Hcomm & Hdl
        & Hdom).
  cbv zeta in Hdata, Hfees, Hcomm, Hdl, Hdom.
  fold text in Hdata, Hfees, Hcomm, Hdl, Hdom.
  fold record in Hdata, Hfees, Hcomm, Hdl, Hdom. fold deadlines in Hdl.
  destruct deadline_items_kept as (Hkept & Hlen & Hnd1 & Hnd2).
  split; [|split; [|split; [|split; [|split; [|split]]]]]; try done.
  - intros item row Hin. apply Hdl. unfold deadline_display.
    apply list_elem_of_fmap. by exists (item, row).
  - intros row [Hin|Hin]%elem_of_app.
    + rewrite <- (data_display_rows X d title_ins oec) in Hin.
      apply list_elem_of_fmap in Hin as ([k v] & -> & Hin).
      change ((k, v).1) with k. rewrite (Hdata k v Hin). done.
    + rewrite <- Hrows in Hin.
      apply list_elem_of_fmap in Hin as ([k v] & -> & Hin).
      change ((k, v).1) with k. rewrite (Hfees k v Hin). done.
  - intros row Hskip. apply eq_None_not_Some. intros Hsome.
    apply Hdom in Hsome. destruct rows_apart as [_ Hns].
    rewrite Forall_forall in Hns. by apply (Hns row).
  - intros item row Hin. rewrite Forall_forall in Hkept.
    by apply (Hkept (item, row)).
Qed.

(** C5 as stated fails: a document without a commission clause gives a
    record without the commission row. *)
Lemma parse_contract_without_commission :
  let X :=
    Extractors (fun _ => []) (fun _ => []) (fun _ => VNum 0)
      (fun _ => []) (fun _ => py "n/a") (fun _ => py "n/a")
      (fun _ rc => (py "n/a", rc)) (fun _ rc => (py "n/a", rc))
      (fun _ _ rc => (py "n/a", rc)) (fun _ rc => (py "n/a", rc)) in
  let d :=
    Pdf [Page 1 612 792 [] [] (Some (py "CONTRACT TO BUY AND SELL REAL ESTATE"))
           (Raster 1275 1650 (fun _ => []))] in
  parse_commission (pdf_text d) = None
  /\ parse_contract X d !! ROW_COMMISSION = None.
Proof. by vm_compute. Qed.

(** A page whose raster gives no pixel for any crop: the brightness of its
    checkbox is 255 and the classifier answers "n/a". *)
Lemma checkbox_brightness_empty_crop_witness :
  let pil := Raster 1275 1650 (fun _ => []) in
  let cb := Image 100 500 110.5 510.5 in
  let pg := Page 1 612 792 [] [cb] None pil in
  getdata pil (crop_box pg cb 2 2) = []
  /\ checkbox_brightness pg cb pil 2 2 = 255%Q
  /\ (150 < checkbox_brightness pg cb pil 2 2)%Q
  /\ forall options_y all_checkboxes cb0 cbs,
       option_cbs options_y all_checkboxes = cb0 :: cbs ->
       min_by (fun c => checkbox_brightness pg c pil 2 2) cb0 cbs = cb ->
       classify pg options_y all_checkboxes (pil, 2%Q, 2%Q) = py "n/a".
Proof.
  intros pil cb pg. split; [reflexivity|].
  apply (checkbox_brightness_empty_crop pg cb pil 2 2). reflexivity.
Defined.

(** ** Keywords of the deadline rows *)



















(** ** Greedy repetition of a class *)

Section StarClass.
Context {A : Type} (p : ascii -> bool).





End StarClass.

(** ** One step of the matcher *)

Section Steps.
Context {A : Type}.
Implicit Types (k : cursor -> groups -> option A).







End Steps.







(** ** The trailing day of the week *)







Lemma last_app_cons {A} (l1 l2 : list A) (x : A) :
  last (l1 ++ x :: l2) = last (x :: l2).
Proof.
  induction l1 as [|y l1 IH]; [done|]. cbn [app].
  destruct (l1 ++ x :: l2) eqn:E; [by destruct l1|]. by rewrite <- IH.
Qed.



(** ** The value of a deadline row *)



(** * Further properties *)

(** ** White space squeezed *)

Lemma str_eqb_eq (a b : str) : str_eqb a b = true <-> a = b.
Proof.
  revert b. induction a as [|x a IH]; intros [|y b]; simpl; try done.
  rewrite andb_true_iff, chr_eqb_eq, IH. split; [by intros [-> ->]|].
  by intros [= -> ->].
Qed.

Lemma split_ws_aux_tokens (s : str) : forall cur,
  Forall (fun x => is_space x = false) cur ->
  Forall is_token (split_ws_aux cur s).
Proof.
  induction s as [|c s IH]; intros cur Hcur; simpl.
  - destruct cur as [|x cur]; [constructor|].
    constructor; [|constructor]. split.
    + intros H. apply (f_equal (@length _)) in H.
      rewrite length_rev in H. done.
    + by apply Forall_rev.
  - destruct (is_space c) eqn:Hc.
    + destruct cur as [|x cur]; [by apply IH|].
      constructor; [|by apply IH]. split.
      * intros H. apply (f_equal (@length _)) in H.
        rewrite length_rev in H. done.
      * by apply Forall_rev.
    + apply IH. by constructor.
Qed.

Lemma split_ws_tokens (s : str) : Forall is_token (split_ws s).
Proof. by apply split_ws_aux_tokens. Qed.

Lemma split_ws_aux_concat (s : str) : forall cur,
  concat (split_ws_aux cur s)
  = rev cur ++ List.filter (fun x => negb (is_space x)) s.
Proof.
  induction s as [|c s IH]; intros cur; simpl.
  - destruct cur; simpl; by rewrite ?app_nil_r.
  - destruct (is_space c) eqn:Hc; simpl.
    + destruct cur as [|x cur]; simpl; by rewrite IH.
    + rewrite IH. simpl. by rewrite <- app_assoc.
Qed.

Lemma filter_token (w : str) :
  Forall (fun x => is_space x = false) w ->
  List.filter (fun x => negb (is_space x)) w = w.
Proof.
  induction 1 as [|x w Hx _ IH]; [done|]. simpl. by rewrite Hx, IH.
Qed.

Lemma join_with_space_filter (l : list str) :
  Forall is_token l ->
  List.filter (fun x => negb (is_space x)) (join_with (py " ") l) = concat l.
Proof.
  induction 1 as [|w l [_ Hw] Hl IH]; [done|].
  destruct l as [|w2 l].
  - simpl. by rewrite app_nil_r, filter_token.
  - change (join_with (py " ") (w :: w2 :: l))
      with (w ++ py " " ++ join_with (py " ") (w2 :: l)).
    rewrite !List.filter_app, IH, filter_token by done. done.
Qed.

Lemma split_ws_aux_token (w s cur : str) :
  Forall (fun x => is_space x = false) w ->
  split_ws_aux cur (w ++ s) = split_ws_aux (rev w ++ cur) s.
Proof.
  intros Hw. revert cur. induction Hw as [|x w Hx _ IH]; intros cur; [done|].
  simpl. rewrite Hx, IH. by rewrite <- app_assoc.
Qed.

Lemma split_ws_join (l : list str) :
  Forall is_token l -> split_ws (join_with (py " ") l) = l.
Proof.
  unfold split_ws.
  induction 1 as [|w l [Hne Hw] Hl IH]; [done|].
  destruct l as [|w2 l].
  - simpl. rewrite <- (app_nil_r w) at 1.
    rewrite split_ws_aux_token by done. simpl. rewrite app_nil_r.
    destruct (rev w) eqn:E; [|by rewrite <- E, rev_involutive].
    apply (f_equal (@length _)) in E. rewrite length_rev in E.
    by destruct w.
  - change (join_with (py " ") (w :: w2 :: l))
      with (w ++ " "%char :: join_with (py " ") (w2 :: l)).
    rewrite split_ws_aux_token by done. rewrite app_nil_r.
    cbn [split_ws_aux]. change (is_space " "%char) with true. cbn match.
    destruct (rev w) eqn:E.
    + apply (f_equal (@length _)) in E. rewrite length_rev in E.
      by destruct w.
    + rewrite <- E, rev_involutive. by rewrite IH.
Qed.

Lemma join_with_space_spaces (l : list str) :
  Forall is_token l ->
  forall pre x post,
    join_with (py " ") l = pre ++ x :: post -> is_space x = true ->
    x = " "%char
    /\ (exists a, last pre = Some a /\ is_space a = false)
    /\ (exists b, head post = Some b /\ is_space b = false).
Proof.
  induction 1 as [|w l [Hne Hw] Hl IH]; intros pre x post Heq Hx.
  - by destruct pre.
  - destruct l as [|w2 l].
    + simpl in Heq. subst w. apply Forall_app in Hw as [_ Hw].
      apply Forall_cons in Hw as [Hw _]. congruence.
    + change (join_with (py " ") (w :: w2 :: l))
        with (w ++ " "%char :: join_with (py " ") (w2 :: l)) in Heq.
      apply app_eq_inv in Heq as [(k & -> & Hk)|(k & -> & Hk)].
      * (* the position lies in [w] or is the separator *)
        destruct k as [|y k].
        -- injection Hk as -> ->. split; [done|]. split.
           ++ rewrite app_nil_r in Hne, Hw.
              destruct pre as [|a w _] using rev_ind; [done|].
              exists a. rewrite last_snoc. split; [done|].
              apply Forall_app in Hw as [_ Hw].
              by apply Forall_cons in Hw as [Hw _].
           ++ apply Forall_cons in Hl as [[Hne2 Hw2] _].
              destruct w2 as [|b w2]; [done|]. exists b.
              apply Forall_cons in Hw2 as [Hb _].
              split; [|done]. by destruct l.
        -- injection Hk as <- Hk.
           apply Forall_app in Hw as [_ Hw].
           apply Forall_cons in Hw as [Hw _]. congruence.
      * destruct k as [|y k].
        -- cbn [app] in Hk. injection Hk as <- <-. rewrite app_nil_r.
           split; [done|]. split.
           ++ destruct w as [|a w _] using rev_ind; [done|].
              exists a. rewrite last_snoc. split; [done|].
              apply Forall_app in Hw as [_ Hw].
              by apply Forall_cons in Hw as [Hw _].
           ++ apply Forall_cons in Hl as [[Hne2 Hw2] _].
              destruct w2 as [|b w2]; [done|]. exists b.
              apply Forall_cons in Hw2 as [Hb _].
              split; [|done]. by destruct l.
        -- cbn [app] in Hk. injection Hk as <- Hk.
           destruct (IH _ _ _ Hk Hx) as (-> & (a & Ha & Hsa) & Hb).
           split; [done|]. split; [|done].
           exists a. split; [|done].
           destruct k as [|z k]; [done|].
           rewrite last_app_cons.
           change (" "%char :: z :: k) with ([" "%char] ++ z :: k).
           by rewrite last_app_cons.
Qed.

Lemma squeeze_nil_iff (s : str) :
  squeeze s = [] <-> Forall (fun x => is_space x = true) s.
Proof.
  split.
  - intros H.
    pose proof (join_with_space_filter _ (split_ws_tokens s)) as Hf.
    fold (squeeze s) in Hf. rewrite H in Hf. unfold split_ws in Hf.
    rewrite split_ws_aux_concat in Hf. simpl in Hf. symmetry in Hf.
    clear H. induction s as [|x s IH]; [constructor|]. simpl in Hf.
    destruct (is_space x) eqn:Hx; simpl in Hf; [|done].
    constructor; [done|]. by apply IH.
  - intros H. unfold squeeze, split_ws.
    assert (Hs : split_ws_aux [] s = []); [|by rewrite Hs].
    induction H as [|x s Hx _ IH]; [done|]. simpl. by rewrite Hx.
Qed.

Lemma squeeze_idem (s : str) : squeeze (squeeze s) = squeeze s.
Proof.
  unfold squeeze at 1 3. f_equal. unfold squeeze.
  apply split_ws_join, split_ws_tokens.
Qed.

Lemma lstrip_head (s : str) (x : ascii) (t : str) :
  lstrip s = x :: t -> is_space x = false.
Proof.
  induction s as [|c s IH]; [done|]. simpl.
  destruct (is_space c) eqn:Hc; [done|]. by intros [= <- _].
Qed.

Lemma strip_not_blank (s : str) :
  strip s <> [] -> ~ Forall (fun x => is_space x = true) (strip s).
Proof.
  unfold strip, rstrip. intros Hne Hall.
  destruct (lstrip (rev (lstrip s))) as [|y t] eqn:E; [done|].
  apply lstrip_head in E. simpl in Hall.
  apply Forall_app in Hall as [_ Hall].
  apply Forall_cons in Hall as [Hy _]. congruence.
Qed.

(** X11: the idiom [" ".join(s.split())] of the three block extractors.
    In the result every white-space character is a single space that
    stands between two characters that are not white space; the other
    characters are those of the text, in order; squeezing the result
    again changes nothing. *)
Theorem squeeze_normal_form (s : str) :
  (forall pre x post,
     squeeze s = pre ++ x :: post -> is_space x = true ->
     x = " "%char
     /\ (exists a, last pre = Some a /\ is_space a = false)
     /\ (exists b, head post = Some b /\ is_space b = false))
  /\ List.filter (fun x => negb (is_space x)) (squeeze s)
     = List.filter (fun x => negb (is_space x)) s
  /\ squeeze (squeeze s) = squeeze s.
Proof.
  split; [|split].
  - apply join_with_space_spaces, split_ws_tokens.
  - unfold squeeze. rewrite join_with_space_filter by apply split_ws_tokens.
    unfold split_ws. by rewrite split_ws_aux_concat.
  - apply squeeze_idem.
Qed.

Lemma upper_nil_iff (s : str) : upper s = [] <-> s = [].
Proof.
  split; [|by intros ->]. destruct s as [|x s]; [done|].
  unfold upper. simpl. unfold upper_chr.
  repeat (match goal with |- context [if ?b then _ else _] => destruct b end);
    done.
Qed.

(** X12: the results of the block extractors are squeezed text.
    [parse_exclusions] and [parse_additional_provisions] never return the
    empty string, and [parse_exclusions] returns "n/a" for "N/A" in any
    letter case. *)
Theorem block_extractors_squeezed (text : str) :
  squeeze (Impl.parse_inclusions text) = Impl.parse_inclusions text
  /\ (squeeze (Impl.parse_exclusions text) = Impl.parse_exclusions text
      /\ Impl.parse_exclusions text <> []
      /\ (upper (Impl.parse_exclusions text) = py "N/A" ->
          Impl.parse_exclusions text = py "n/a"))
  /\ (squeeze (Impl.parse_additional_provisions text)
      = Impl.parse_additional_provisions text
      /\ Impl.parse_additional_provisions text <> []).
Proof.
  assert (Hna : squeeze (py "n/a") = py "n/a" /\ py "n/a" <> []
                /\ (upper (py "n/a") = py "N/A" -> py "n/a" = py "n/a")).
  { split; [by vm_compute|]. split; done. }
  split; [|split].
  - unfold Impl.parse_inclusions.
    destruct (find text _); [|done]. cbv zeta.
    destruct (re_search _ _); [|done]. apply squeeze_idem.
  - unfold Impl.parse_exclusions.
    destruct (find text _); [|exact Hna]. cbv zeta.
    destruct (re_search _ _); [|exact Hna].
    set (val := squeeze (default [] _)).
    destruct (str_eqb (upper val) (py "N/A")) eqn:E1; [exact Hna|].
    destruct (str_eqb (upper val) []) eqn:E2; [exact Hna|]. cbn [orb negb].
    split; [apply squeeze_idem|]. split.
    + intros H. rewrite H in E2. done.
    + intros H. apply str_eqb_eq in H. congruence.
  - destruct Hna as (Hna1 & Hna2 & _).
    unfold Impl.parse_additional_provisions.
    destruct (find text _) as [idx|]; [|done]. cbv zeta.
    destruct (re_search_ahead _ _ _) as [m|]; [|done].
    destruct (strip _) as [|x raw] eqn:E; [done|].
    destruct (startswith _ _); [done|].
    split; [apply squeeze_idem|].
    intros H. apply squeeze_nil_iff in H.
    assert (Hne : strip (default [] (group (slice text idx (idx + 2000)) m 1))
                  <> []) by (by rewrite E).
    apply strip_not_blank in Hne. by rewrite E in Hne.
Qed.

(** ** Stripped text *)

Lemma rstrip_snoc (l : str) (x : ascii) :
  rstrip (l ++ [x]) = if is_space x then rstrip l else l ++ [x].
Proof.
  unfold rstrip. rewrite rev_app_distr. cbn [rev app lstrip].
  destruct (is_space x); [done|]. cbn [rev]. by rewrite rev_involutive.
Qed.

Lemma rstrip_ends (l : str) : ends_unspaced (rstrip l).
Proof.
  induction l as [|x l IH] using rev_ind; [done|].
  rewrite rstrip_snoc. destruct (is_space x) eqn:Hx; [done|].
  unfold ends_unspaced. by rewrite last_snoc.
Qed.

Lemma rstrip_head (l : str) (x : ascii) :
  head l = Some x -> is_space x = false -> head (rstrip l) = Some x.
Proof.
  induction l as [|y l IH] using rev_ind; [done|]. intros Hh Hx.
  rewrite rstrip_snoc. destruct (is_space y) eqn:Hy; [|done].
  destruct l as [|z l]; [cbn in Hh; congruence|]. by apply IH.
Qed.

Lemma strip_stripped (s : str) : stripped (strip s).
Proof.
  unfold strip. split; [|apply rstrip_ends].
  destruct (lstrip s) as [|x t] eqn:E; [done|].
  pose proof (lstrip_head _ _ _ E) as Hx.
  by rewrite (rstrip_head (x :: t) x).
Qed.

Lemma rstrip_fixed (s : str) : ends_unspaced s -> rstrip s = s.
Proof.
  destruct s as [|x s _] using rev_ind; [done|].
  unfold ends_unspaced. rewrite last_snoc, rstrip_snoc. by intros ->.
Qed.

Lemma strip_fixed (s : str) : stripped s -> strip s = s.
Proof.
  intros [Hh Hl]. unfold strip.
  assert (lstrip s = s) as ->; [|by apply rstrip_fixed].
  destruct s as [|x s]; [done|]. cbn in Hh. cbn. by rewrite Hh.
Qed.

(** ** The rows of the deadline table *)

Lemma na_if_blank_value (value : str) :
  na_if_blank value = py "n/a"
  \/ (na_if_blank value = value /\ value <> [] /\ upper value <> py "N/A").
Proof.
  unfold na_if_blank. destruct value as [|x value]; [by left|].
  destruct (str_eqb _ _) eqn:E; [by left|]. right.
  split; [done|]. split; [done|]. intros H. rewrite H in E. done.
Qed.

Lemma deadline_value_kept (rest : str) :
  let v := deadline_value rest in
  v <> [] /\ stripped v /\ (upper v = py "N/A" -> v = py "n/a").
Proof.
  unfold deadline_value. cbv zeta.
  match goal with |- context [na_if_blank ?s] => set (value := s) end.
  assert (Hs : stripped value) by apply strip_stripped.
  destruct (na_if_blank_value value) as [->|(-> & Hne & Hu)].
  - split; [done|]. split; [|done]. split; done.
  - done.
Qed.

Lemma parse_deadline_line_value (line : str) (item : Z) (value : str) :
  parse_deadline_line line = Some (item, value) ->
  exists rest, value = deadline_value rest.
Proof.
  unfold parse_deadline_line.
  destruct (re_match _ _) as [m|]; [|done].
  destruct (group _ _ _) as [digits|]; [|done].
  destruct (py_int digits) as [i|]; [|done].
  destruct (43 <? i); [done|]. intros [= <- <-]. by eexists.
Qed.

(** The mapping of [parse_deadlines]: the fold over the lines of the
    table. *)
Lemma parse_deadlines_lines (text : str) :
  parse_deadlines text
  = fold_left
      (fun (results : gmap Z str) line =>
         match parse_deadline_line (strip line) with
         | Some (item, value) => <[item := value]> results
         | None => results
         end)
      (deadline_table_lines text) ∅.
Proof.
  unfold parse_deadlines, deadline_table_lines.
  by destruct (find text _).
Qed.

Lemma deadline_rows_last (item : Z) (lines : list str) :
  forall acc : gmap Z str,
  fold_left
    (fun (results : gmap Z str) line =>
       match parse_deadline_line (strip line) with
       | Some (item, value) => <[item := value]> results
       | None => results
       end) lines acc !! item
  = match last (omap (row_of_item item) lines) with
    | Some v => Some v
    | None => acc !! item
    end.
Proof.
  induction lines as [|l lines IH]; intros acc; [done|].
  cbn [fold_left]. rewrite IH. cbn [omap list_omap].
  destruct (row_of_item item l) as [v|] eqn:Er; unfold row_of_item in Er;
    destruct (parse_deadline_line (strip l)) as [[i value]|] eqn:E;
    try done.
  - destruct (Z.eqb_spec i item) as [->|]; [|done]. injection Er as <-.
    destruct (omap (row_of_item item) lines) as [|v' vs].
    + cbn. by rewrite lookup_insert_eq.
    + rewrite last_cons_cons.
      destruct (last (v' :: vs)) eqn:El; [done|]. by apply last_None in El.
  - destruct (Z.eqb_spec i item) as [->|]; [done|].
    by rewrite lookup_insert_ne.
Qed.

(** ** Writing an offer *)

Lemma cell_value_set (ws : worksheet) (row col : Z) (v : pyval) (r c : Z) :
  cell_value (set_value ws row col v) r c
  = if decide ((r, c) = (row, col)) then v else cell_value ws r c.
Proof.
  unfold cell_value, set_value. rewrite lookup_insert.
  repeat case_decide; simplify_eq/=; done.
Qed.

Lemma write_row_other (col : Z) (ws : worksheet) (rv : Z * pyval) (r c : Z) :
  c <> col \/ r <> rv.1 \/ r ∈ SKIP_ROWS \/ is_blank rv.2 = true ->
  cell_value (write_row col ws rv) r c = cell_value ws r c.
Proof.
  destruct rv as [row value]. unfold write_row. cbn [fst snd].
  intros H. case_bool_decide as Hs; [done|].
  destruct (is_blank value) eqn:Hb; [done|].
  rewrite cell_value_set. case_decide as E; [|done].
  simplify_eq. cbn [fst snd] in H.
  destruct H as [H|[H|[H|H]]]; [done|done|done|congruence].
Qed.

Lemma write_rows_other (col : Z) (l : list (Z * pyval)) (r c : Z) :
  forall ws,
  c <> col \/ r ∈ SKIP_ROWS
  \/ (forall v, (r, v) ∈ l -> is_blank v = true) ->
  cell_value (fold_left (write_row col) l ws) r c = cell_value ws r c.
Proof.
  induction l as [|[row value] l IH]; intros ws H; [done|].
  cbn [fold_left]. rewrite IH.
  - apply write_row_other. cbn [fst snd].
    destruct H as [H|[H|H]]; [tauto|tauto|].
    destruct (decide (r = row)) as [->|]; [|tauto].
    right. right. right. apply H. by left.
  - destruct H as [H|[H|H]]; [tauto|tauto|].
    right. right. intros v Hv. apply H. by right.
Qed.

Lemma write_rows_written (col : Z) (l : list (Z * pyval)) (r : Z) (v : pyval) :
  forall ws,
  NoDup l.*1 -> (r, v) ∈ l -> r ∉ SKIP_ROWS -> is_blank v = false ->
  cell_value (fold_left (write_row col) l ws) r col = v.
Proof.
  induction l as [|[row value] l IH]; intros ws Hnd Hin Hs Hb.
  - by apply elem_of_nil in Hin.
  - cbn [fold_left]. apply NoDup_cons in Hnd as [Hrow Hnd].
    apply elem_of_cons in Hin as [[= <- <-]|Hin]; [|by apply IH].
    rewrite write_rows_other.
    + unfold write_row. rewrite bool_decide_eq_false_2 by done.
      rewrite Hb, cell_value_set. by rewrite decide_True.
    + right. right. intros v' Hv'. exfalso. apply Hrow.
      cbn [fst]. apply list_elem_of_fmap. by exists (r, v').
Qed.

Lemma header_not_skipped : ROW_OFFER_HEADER ∉ SKIP_ROWS.
Proof. refine (bool_decide_unpack _ _). by vm_compute. Qed.

Lemma offer_header_not_blank (n : Z) :
  is_blank (VStr (py "OFFER " ++ str_of_int n)) = false.
Proof. done. Qed.

Lemma write_offer_other (ws : worksheet) (col offer_number : Z)
    (data : gmap Z pyval) (r c : Z) :
  (c <> col -> cell_value (write_offer ws col offer_number data) r c
               = cell_value ws r c)
  /\ (r ∈ SKIP_ROWS -> cell_value (write_offer ws col offer_number data) r c
                       = cell_value ws r c)
  /\ (r <> ROW_OFFER_HEADER ->
      (forall v, data !! r = Some v -> is_blank v = true) ->
      cell_value (write_offer ws col offer_number data) r c
      = cell_value ws r c).
Proof.
  unfold write_offer.
  assert (Hrows : forall v, (r, v) ∈ map_to_list data <-> data !! r = Some v).
  { intros v. apply elem_of_map_to_list. }
  split; [|split].
  - intros Hc. rewrite write_rows_other by tauto.
    rewrite cell_value_set. case_decide as E; [|done]. by injection E.
  - intros Hs. rewrite write_rows_other by tauto.
    rewrite cell_value_set. case_decide as E; [|done].
    injection E as -> _. by destruct header_not_skipped.
  - intros Hr Hb. rewrite write_rows_other.
    + rewrite cell_value_set. case_decide as E; [|done]. by injection E.
    + right. right. intros v Hv. apply Hb. by apply Hrows.
Qed.

Lemma write_offer_cells (ws : worksheet) (col offer_number : Z)
    (data : gmap Z pyval) :
  (forall r v, data !! r = Some v -> r ∉ SKIP_ROWS -> is_blank v = false ->
               cell_value (write_offer ws col offer_number data) r col = v)
  /\ ((forall v, data !! ROW_OFFER_HEADER = Some v -> is_blank v = true) ->
      cell_value (write_offer ws col offer_number data) ROW_OFFER_HEADER col
      = VStr (py "OFFER " ++ str_of_int offer_number))
  /\ is_blank
       (cell_value (write_offer ws col offer_number data) ROW_OFFER_HEADER col)
     = false.
Proof.
  unfold write_offer.
  assert (Hhead : (forall v, data !! ROW_OFFER_HEADER = Some v ->
                             is_blank v = true) ->
    cell_value
      (fold_left (write_row col) (map_to_list data)
         (set_value ws ROW_OFFER_HEADER col
            (VStr (py "OFFER " ++ str_of_int offer_number))))
      ROW_OFFER_HEADER col
    = VStr (py "OFFER " ++ str_of_int offer_number)).
  { intros Hb. rewrite write_rows_other.
    - rewrite cell_value_set. by rewrite decide_True.
    - right. right. intros v Hv. apply Hb. by apply elem_of_map_to_list. }
  split; [|split].
  - intros r v Hr Hs Hb. apply write_rows_written; try done.
    + apply NoDup_fst_map_to_list.
    + by apply elem_of_map_to_list.
  - exact Hhead.
  - destruct (data !! ROW_OFFER_HEADER) as [v|] eqn:Hv.
    + destruct (is_blank v) eqn:Hb.
      * rewrite Hhead; [done|]. intros v' [= <-]. done.
      * rewrite (write_rows_written col _ ROW_OFFER_HEADER v);
          [done|apply NoDup_fst_map_to_list|by apply elem_of_map_to_list
          |apply header_not_skipped|done].
    + rewrite Hhead; [done|]. intros v' [=].
Qed.

Lemma write_row_commute (col : Z) (ws : worksheet) (a b : Z * pyval) :
  a.1 <> b.1 ->
  write_row col (write_row col ws a) b = write_row col (write_row col ws b) a.
Proof.
  destruct a as [r1 v1], b as [r2 v2]. cbn [fst]. intros Hne.
  unfold write_row.
  repeat case_bool_decide; try done.
  destruct (is_blank v1), (is_blank v2); try done.
  unfold set_value. apply insert_insert_ne. congruence.
Qed.

(** The sheet does not depend on the order in which the rows of the
    record are visited. *)
Lemma write_rows_perm (col : Z) (l l' : list (Z * pyval)) :
  l ≡ₚ l' -> NoDup l.*1 ->
  forall ws, fold_left (write_row col) l ws = fold_left (write_row col) l' ws.
Proof.
  induction 1 as [|x l l' Hp IH|x y l|l l' l'' Hp IH Hp' IH']; intros Hnd ws.
  - done.
  - cbn [fold_left]. apply IH. by apply NoDup_cons in Hnd as [_ Hnd].
  - cbn [fold_left]. f_equal. apply write_row_commute.
    cbn in Hnd. apply NoDup_cons in Hnd as [Hy _].
    intros E. apply Hy. rewrite E. by left.
  - rewrite IH by done. apply IH'. by rewrite <- Hp.
Qed.

(** X1: [write_offer] leaves alone every cell outside its column, every
    row of the never-overwrite set in any column, and every row other than
    the header row for which the record has no value or a blank one
    ([None] or the empty string). *)
Theorem write_offer_frame (ws : worksheet) (col offer_number : Z)
    (data : gmap Z pyval) (r c : Z) :
  (c <> col -> cell_value (write_offer ws col offer_number data) r c
               = cell_value ws r c)
  /\ (r ∈ SKIP_ROWS -> cell_value (write_offer ws col offer_number data) r c
                       = cell_value ws r c)
  /\ (r <> ROW_OFFER_HEADER ->
      (forall v, data !! r = Some v -> is_blank v = true) ->
      cell_value (write_offer ws col offer_number data) r c
      = cell_value ws r c).
Proof. apply write_offer_other. Qed.

(** X2: [write_offer] puts every value of the record that is not blank,
    and whose row is not in the never-overwrite set, into the cell of its
    row in the column.  The header cell holds "OFFER n" unless the record
    has a value that is not blank for the header row itself, and is never
    blank afterwards. *)
Theorem write_offer_written (ws : worksheet) (col offer_number : Z)
    (data : gmap Z pyval) :
  (forall r v, data !! r = Some v -> r ∉ SKIP_ROWS -> is_blank v = false ->
               cell_value (write_offer ws col offer_number data) r col = v)
  /\ ((forall v, data !! ROW_OFFER_HEADER = Some v -> is_blank v = true) ->
      cell_value (write_offer ws col offer_number data) ROW_OFFER_HEADER col
      = VStr (py "OFFER " ++ str_of_int offer_number))
  /\ is_blank
       (cell_value (write_offer ws col offer_number data) ROW_OFFER_HEADER col)
     = false.
Proof. apply write_offer_cells. Qed.

(** X3: the sheet that [write_offer] leaves does not depend on the order
    in which the rows of the record are visited: any order of its items
    gives the same sheet. *)
Theorem write_offer_order (ws : worksheet) (col offer_number : Z)
    (data : gmap Z pyval) (items : list (Z * pyval)) :
  items ≡ₚ map_to_list data ->
  write_offer ws col offer_number data
  = fold_left (write_row col) items
      (set_value ws ROW_OFFER_HEADER col
         (VStr (py "OFFER " ++ str_of_int offer_number))).
Proof.
  intros Hp. unfold write_offer. symmetry.
  apply write_rows_perm; [done|]. rewrite Hp. apply NoDup_fst_map_to_list.
Qed.

Lemma write_offer_order_witness :
  let data : gmap Z pyval :=
    <[ROW_PRICE := VNum 450000]> (<[ROW_BUYER := VStr (py "Ann")]> ∅) in
  let items := [(ROW_BUYER, VStr (py "Ann")); (ROW_PRICE, VNum 450000)] in
  items ≡ₚ map_to_list data
  /\ write_offer ∅ 3 1 data
     = fold_left (write_row 3) items
         (set_value ∅ ROW_OFFER_HEADER 3 (VStr (py "OFFER " ++ str_of_int 1))).
Proof.
  cbv zeta.
  assert (Hp : [(ROW_BUYER, VStr (py "Ann")); (ROW_PRICE, VNum 450000)]
               ≡ₚ map_to_list
                    (<[ROW_PRICE := VNum 450000]>
                       (<[ROW_BUYER := VStr (py "Ann")]> ∅) : gmap Z pyval)).
  { vm_compute. first [reflexivity | apply perm_swap]. }
  split; [exact Hp|]. exact (write_offer_order _ _ _ _ _ Hp).
Defined.

(** ** The next free column *)

Lemma find_next_col_loop_some (ws : worksheet) (fuel : nat) :
  forall col c,
  find_next_col_loop fuel ws col = Some c ->
  col <= c
  /\ is_blank (cell_value ws ROW_OFFER_HEADER c) = true
  /\ (forall c', col <= c' < c ->
        is_blank (cell_value ws ROW_OFFER_HEADER c') = false).
Proof.
  induction fuel as [|fuel IH]; intros col c; [done|]. cbn [find_next_col_loop].
  destruct (is_blank (cell_value ws ROW_OFFER_HEADER col)) eqn:Hb; cbn [negb].
  - intros [= <-]. split; [lia|]. split; [done|]. intros c' Hc'. lia.
  - intros H. apply IH in H as (Hle & Hc & Hbefore).
    split; [lia|]. split; [done|]. intros c' Hc'.
    destruct (decide (c' = col)) as [->|]; [done|]. apply Hbefore. lia.
Qed.

Lemma find_next_col_loop_none (ws : worksheet) (fuel : nat) :
  forall col,
  find_next_col_loop fuel ws col = None ->
  forall i, (i < fuel)%nat ->
    is_blank (cell_value ws ROW_OFFER_HEADER (col + Z.of_nat i)) = false.
Proof.
  induction fuel as [|fuel IH]; intros col H i Hi; [lia|].
  cbn [find_next_col_loop] in H.
  destruct (is_blank (cell_value ws ROW_OFFER_HEADER col)) eqn:Hb;
    cbn [negb] in H; [done|].
  destruct i as [|i]; [by rewrite Z.add_0_r|].
  replace (col + Z.of_nat (S i)) with (col + 1 + Z.of_nat i) by lia.
  apply IH; [done|lia].
Qed.

Lemma not_blank_in_sheet (ws : worksheet) (r c : Z) :
  is_blank (cell_value ws r c) = false -> (r, c) ∈ dom ws.
Proof.
  unfold cell_value. intros H. apply elem_of_dom.
  destruct (ws !! (r, c)); [done|done].
Qed.

(** The loop of [find_next_col] ends within the size of the sheet. *)
Lemma find_next_col_total (ws : worksheet) (start_col : Z) :
  is_Some (find_next_col ws start_col).
Proof.
  unfold find_next_col.
  destruct (find_next_col_loop (S (size ws)) ws start_col) eqn:E; [done|].
  exfalso.
  pose proof (find_next_col_loop_none _ _ _ E) as Hfull.
  set (cols := (fun i : nat => (ROW_OFFER_HEADER, start_col + Z.of_nat i))
               <$> seq 0 (S (size ws))).
  assert (Hnd : NoDup cols).
  { apply NoDup_fmap_2; [|apply NoDup_seq]. intros i j [=]. lia. }
  assert (Hsub : (list_to_set cols : gset (Z * Z)) ⊆ dom ws).
  { intros k Hk. apply elem_of_list_to_set, list_elem_of_fmap in Hk
      as (i & -> & Hi).
    apply elem_of_seq in Hi. apply not_blank_in_sheet, Hfull. lia. }
  apply subseteq_size in Hsub.
  rewrite size_list_to_set, size_dom in Hsub by done.
  unfold cols in Hsub. rewrite length_fmap, length_seq in Hsub. lia.
Qed.

Lemma find_next_col_spec (ws : worksheet) (start_col : Z) :
  exists col,
    find_next_col ws start_col = Some col
    /\ start_col <= col
    /\ is_blank (cell_value ws ROW_OFFER_HEADER col) = true
    /\ (forall c, start_col <= c < col ->
          is_blank (cell_value ws ROW_OFFER_HEADER c) = false).
Proof.
  destruct (find_next_col_total ws start_col) as [col Hcol].
  exists col. split; [done|]. by apply find_next_col_loop_some in Hcol.
Qed.

(** X4: [find_next_col] always returns: the loop ends within the size of
    the sheet.  The column it returns is the first one, from [start_col]
    on, whose header cell is blank ([None] or the empty string); every
    column between carries a header. *)
Theorem find_next_col_first_free (ws : worksheet) (start_col : Z) :
  exists col,
    find_next_col ws start_col = Some col
    /\ start_col <= col
    /\ is_blank (cell_value ws ROW_OFFER_HEADER col) = true
    /\ (forall c, start_col <= c < col ->
          is_blank (cell_value ws ROW_OFFER_HEADER c) = false).
Proof. apply find_next_col_spec. Qed.

(** ** Formulas copied to the new column *)

Lemma copy_row_cell (src_ltr dst_ltr : str) (src_col dst_col : Z)
    (ws : worksheet) (row r c : Z) :
  cell_value (copy_row src_ltr dst_ltr src_col dst_col ws row) r c
  = if decide (r = row /\ c = dst_col)
    then copied_value src_ltr dst_ltr ws src_col dst_col row
    else cell_value ws r c.
Proof.
  unfold copy_row, copied_value.
  destruct (cell_value ws row src_col) as [|v|q] eqn:E.
  - case_decide as H; [|done]. by destruct H as [-> ->].
  - destruct (startswith v (py "=")).
    + rewrite cell_value_set.
      case_decide as H1; case_decide as H2; try done.
      * injection H1 as -> ->. tauto.
      * destruct H2 as [-> ->]. done.
    + case_decide as H; [|done]. by destruct H as [-> ->].
  - case_decide as H; [|done]. by destruct H as [-> ->].
Qed.

Lemma copy_rows_cell (src_ltr dst_ltr : str) (src_col dst_col : Z)
    (rows : list Z) (r c : Z) :
  NoDup rows ->
  forall ws,
  cell_value (fold_left (copy_row src_ltr dst_ltr src_col dst_col) rows ws) r c
  = if decide (r ∈ rows /\ c = dst_col)
    then copied_value src_ltr dst_ltr ws src_col dst_col r
    else cell_value ws r c.
Proof.
  induction 1 as [|row rows Hrow Hnd IH]; intros ws.
  - cbn [fold_left]. case_decide as H; [|done].
    destruct H as [H _]. by apply elem_of_nil in H.
  - cbn [fold_left]. rewrite IH.
    assert (Hsame : forall r', r' ∈ rows ->
              copied_value src_ltr dst_ltr
                (copy_row src_ltr dst_ltr src_col dst_col ws row)
                src_col dst_col r'
              = copied_value src_ltr dst_ltr ws src_col dst_col r').
    { intros r' Hr'. unfold copied_value. rewrite !copy_row_cell.
      assert (r' <> row) by (by intros ->).
      rewrite !decide_False by tauto. done. }
    case_decide as H1.
    + destruct H1 as [Hr ->]. rewrite Hsame by done.
      rewrite decide_True; [done|]. split; [by right|done].
    + rewrite copy_row_cell. case_decide as H2.
      * destruct H2 as [-> ->]. rewrite decide_True; [done|].
        split; [by left|done].
      * rewrite decide_False; [done|].
        intros [[->|Hr]%elem_of_cons ->]; tauto.
Qed.

Lemma copy_formatting_cell (get_column_letter : Z -> str) (ws : worksheet)
    (src_col dst_col last_row : Z) (r c : Z) :
  cell_value (copy_formatting get_column_letter ws src_col dst_col last_row) r c
  = if decide (1 <= r <= last_row /\ c = dst_col)
    then match cell_value ws r src_col with
         | VStr v =>
             if startswith v (py "=")
             then VStr (shift_refs (get_column_letter src_col)
                          (get_column_letter dst_col) v)
             else cell_value ws r c
         | _ => cell_value ws r c
         end
    else cell_value ws r c.
Proof.
  unfold copy_formatting. cbv zeta.
  rewrite copy_rows_cell by apply NoDup_seqZ.
  assert (Hrows : r ∈ seqZ 1 last_row <-> 1 <= r <= last_row).
  { rewrite elem_of_seqZ. lia. }
  case_decide as H1; case_decide as H2; try tauto.
  destruct H1 as [_ ->]. done.
Qed.

(** X5: the values that [copy_formatting] writes.  In the destination
    column, each row from 1 to [last_row] whose source cell holds a string
    that starts with "=" receives that formula with its references moved;
    every other cell of the sheet keeps its value. *)
Theorem copy_formatting_cells (get_column_letter : Z -> str) (ws : worksheet)
    (src_col dst_col last_row : Z) (r c : Z) :
  cell_value (copy_formatting get_column_letter ws src_col dst_col last_row) r c
  = if decide (1 <= r <= last_row /\ c = dst_col)
    then match cell_value ws r src_col with
         | VStr v =>
             if startswith v (py "=")
             then VStr (shift_refs (get_column_letter src_col)
                          (get_column_letter dst_col) v)
             else cell_value ws r c
         | _ => cell_value ws r c
         end
    else cell_value ws r c.
Proof. apply copy_formatting_cell. Qed.

(** ** References moved to the new column *)

Lemma search_with_from (mf : cursor -> option rematch) (l : str) :
  (forall c m, mf c = Some m -> m_from m = c) ->
  forall p pv m, search_with mf p pv l = Some m -> (p <= m_start m)%nat.
Proof.
  intros Hmf. induction l as [|x t IH]; intros p pv m; cbn [search_with].
  - destruct (mf _) as [m'|] eqn:E; [|done]. intros [= <-].
    apply Hmf in E. unfold m_start. by rewrite E.
  - destruct (mf _) as [m'|] eqn:E.
    + intros [= <-]. apply Hmf in E. unfold m_start. by rewrite E.
    + intros H. apply IH in H. lia.
Qed.

Lemma match_ref_letter (a : ascii) (c : cursor) :
  match_ref [a] c
  = match rest c with
    | x :: t =>
        if chr_eqb a x && not_after_dollar c && digit_ahead t
        then Some (Rematch c (Cursor (S (pos c)) (Some x) t) ∅)
        else None
    | [] => None
    end.
Proof.
  unfold match_ref, match_at_ahead. cbn [rmatch].
  destruct (rest c) as [|x t] eqn:E.
  - cbn [startswith]. by destruct (not_after_dollar c).
  - cbn [startswith length skip]. rewrite E. cbn [rest].
    rewrite andb_true_r.
    destruct (chr_eqb a x), (not_after_dollar c), (digit_ahead t); done.
Qed.

Lemma match_ref_from (a : ascii) (c : cursor) (m : rematch) :
  match_ref [a] c = Some m -> m_from m = c.
Proof.
  rewrite match_ref_letter. destruct (rest c) as [|x t]; [done|].
  destruct (_ && _); [|done]. by intros [= <-].
Qed.

Lemma shift_letter_sub (a : ascii) (dst : str) (l : str) :
  forall p pv fuel,
  (length l < fuel)%nat ->
  sub_with fuel
    (fun c => search_with (match_ref [a]) (pos c) (prev c) (rest c))
    dst (Cursor p pv l)
  = shift_letter a dst pv l.
Proof.
  induction l as [|x t IH]; intros p pv [|fuel] Hf; try (cbn in Hf; lia).
  - cbn [sub_with pos prev rest search_with]. by rewrite match_ref_letter.
  - cbn [sub_with pos prev rest search_with shift_letter].
    rewrite match_ref_letter. cbn [rest pos]. unfold not_after_dollar.
    cbn [prev].
    destruct (chr_eqb a x
              && match pv with
                 | Some y => negb (chr_eqb y "$"%char)
                 | None => true
                 end
              && digit_ahead t) eqn:Hc.
    + unfold m_start, m_end. cbn [m_from m_to pos].
      rewrite Nat.sub_diag. cbn [take app].
      assert ((p <? S p)%nat = true) as -> by (apply Nat.ltb_lt; lia).
      f_equal. apply IH. cbn in Hf. lia.
    + cbn [app]. rewrite <- (IH (S p) (Some x) (S fuel)) by (cbn in Hf; lia).
      cbn [sub_with pos prev rest].
      destruct (search_with (match_ref [a]) (S p) (Some x) t) as [m|] eqn:E;
        [|done].
      apply (search_with_from _ _ (match_ref_from a)) in E.
      replace (m_start m - p)%nat with (S (m_start m - S p)) by lia.
      done.
Qed.

Lemma shift_refs_letter (a : ascii) (dst value : str) :
  shift_refs [a] dst value = shift_letter a dst None value.
Proof. unfold shift_refs, start_of. apply shift_letter_sub. lia. Qed.

Lemma shift_letter_same (a : ascii) (s : str) :
  forall pv, shift_letter a [a] pv s = s.
Proof.
  induction s as [|x t IH]; intros pv; [done|]. cbn [shift_letter].
  rewrite IH. destruct (chr_eqb a x) eqn:E; [|done].
  apply chr_eqb_eq in E as ->. by destruct (_ && _).
Qed.

Lemma shift_letter_absent (a : ascii) (dst s : str) :
  a ∉ s -> forall pv, shift_letter a dst pv s = s.
Proof.
  induction s as [|x t IH]; intros Ha pv; [done|]. cbn [shift_letter].
  apply not_elem_of_cons in Ha as [Hne Ha]. rewrite IH by done.
  destruct (chr_eqb a x) eqn:E; [|done]. by apply chr_eqb_eq in E.
Qed.

(** X6: the formula rewrite of [copy_formatting] for a source column of
    one letter.  The substitution is one pass over the formula: a letter
    of the source column becomes the destination letters when it does not
    follow a dollar sign and a digit, or a dollar sign and a digit, comes
    next; every other character is kept.  So a formula without the letter
    is unchanged, as is any formula moved to its own column; and the
    letter is replaced wherever the test holds, also as the last letter of
    a longer column name or of a sheet name: "AB9" becomes "AC9". *)
Theorem shift_refs_single_pass (a : ascii) (dst value : str) :
  shift_refs [a] dst value = shift_letter a dst None value
  /\ shift_refs [a] [a] value = value
  /\ (a ∉ value -> shift_refs [a] dst value = value)
  /\ shift_refs (py "B") (py "C") (py "=B6*$B$7+B$8+AB9+TAB2!B3")
     = py "=C6*$B$7+C$8+AC9+TAC2!C3".
Proof.
  split; [apply shift_refs_letter|]. split; [|split].
  - rewrite shift_refs_letter. apply shift_letter_same.
  - intros Ha. rewrite shift_refs_letter. by apply shift_letter_absent.
  - by vm_compute.
Qed.

Lemma parse_deadlines_last (text : str) (item : Z) :
  parse_deadlines text !! item
  = last (omap (row_of_item item) (deadline_table_lines text)).
Proof.
  rewrite parse_deadlines_lines, deadline_rows_last.
  by destruct (last _).
Qed.

Lemma parse_deadlines_kept (text : str) (item : Z) (v : str) :
  parse_deadlines text !! item = Some v ->
  v <> [] /\ stripped v /\ (upper v = py "N/A" -> v = py "n/a").
Proof.
  rewrite parse_deadlines_last. intros Hl.
  apply last_Some_elem_of, list_elem_of_omap in Hl as (line & _ & Hrow).
  unfold row_of_item in Hrow.
  destruct (parse_deadline_line (strip line)) as [[i value]|] eqn:E; [|done].
  destruct (i =? item); [|done]. injection Hrow as ->.
  apply parse_deadline_line_value in E as [rest ->].
  apply deadline_value_kept.
Qed.

(** X8: a later row of the deadline table overrides an earlier one with
    the same item number.  The value that [parse_deadlines] returns for an
    item is the value of the last line of the table that is a row of this
    item; there is none when no line is. *)
Theorem parse_deadlines_last_row (text : str) (item : Z) :
  parse_deadlines text !! item
  = last (omap (row_of_item item) (deadline_table_lines text)).
Proof. apply parse_deadlines_last. Qed.

(** X9: a value of the mapping of [parse_deadlines] is never empty,
    neither starts nor ends with white space, and is "n/a" when it is
    "N/A" in any letter case. *)
Theorem parse_deadlines_values (text : str) (item : Z) (v : str) :
  parse_deadlines text !! item = Some v ->
  v <> [] /\ stripped v /\ (upper v = py "N/A" -> v = py "n/a").
Proof. apply parse_deadlines_kept. Qed.

Lemma parse_deadlines_values_witness :
  let text :=
    py "Item No. Reference Event Date or Deadline"
    ++ [newline] ++ py "5 § 4.5. Loan Application Deadline  March 3, 2025 Monday" in
  let v := py "March 3, 2025" in
  parse_deadlines text !! 5 = Some v
  /\ v <> [] /\ stripped v /\ (upper v = py "N/A" -> v = py "n/a").
Proof.
  cbv zeta.
  assert (H : parse_deadlines
                (py "Item No. Reference Event Date or Deadline"
                 ++ [newline]
                 ++ py "5 § 4.5. Loan Application Deadline  March 3, 2025 Monday")
              !! 5 = Some (py "March 3, 2025")) by (by vm_compute).
  split; [exact H|]. exact (parse_deadlines_values _ _ _ H).
Defined.

(** ** The record on the sheet *)

Lemma parse_contract_rows_written (X : extractors) (d : pdf) (r : Z) :
  is_Some (parse_contract X d !! r) ->
  (r ∉ SKIP_ROWS) /\ r <> ROW_OFFER_HEADER.
Proof.
  intros Hr.
  destruct (parse_contract_lookup X d) as (ti & oec & fees & _ & _ & _ & _ & _ & _ & Hk).
  specialize (Hk r Hr).
  destruct rows_apart as [_ Hskip].
  rewrite Forall_forall in Hskip. split; [by apply Hskip|].
  intros ->. revert Hk. refine (bool_decide_unpack _ _). by vm_compute.
Qed.

(** X10: a parsed contract on the sheet.  [write_offer] on the record of
    [parse_contract] sets the header to "OFFER n" and writes every field
    of the record that is not blank: no row of the record lies in the
    never-overwrite set.  Each of the 35 deadline rows receives a string
    that is not empty, the value of the table for its item or "n/a".
    Cells of other columns, and rows for which the record has no value or
    a blank one, keep what they held. *)
Theorem write_offer_parse_contract (X : extractors) (d : pdf) (ws : worksheet)
    (col offer_number : Z) :
  let record := parse_contract X d in
  let ws' := write_offer ws col offer_number record in
  cell_value ws' ROW_OFFER_HEADER col
  = VStr (py "OFFER " ++ str_of_int offer_number)
  /\ (forall r v, record !! r = Some v -> is_blank v = false ->
                  cell_value ws' r col = v)
  /\ (forall item row, (item, row) ∈ DEADLINE_ITEM_TO_ROW ->
        exists v,
          cell_value ws' row col = VStr v /\ v <> []
          /\ v = default (py "n/a") (parse_deadlines (pdf_text d) !! item))
  /\ (forall r c,
        c <> col
        \/ (r <> ROW_OFFER_HEADER
            /\ forall v, record !! r = Some v -> is_blank v = true) ->
        cell_value ws' r c = cell_value ws r c).
Proof.
  intros record ws'.
  destruct (write_offer_cells ws col offer_number record) as (Hw & Hh & _).
  assert (Hwritten : forall r v, record !! r = Some v -> is_blank v = false ->
                                 cell_value ws' r col = v).
  { intros r v Hr Hb. apply Hw; [done| |done].
    apply (parse_contract_rows_written X d). fold record. by rewrite Hr. }
  split; [|split; [|split]].
  - apply Hh. intros v Hv.
    destruct (parse_contract_rows_written X d ROW_OFFER_HEADER) as [_ H];
      [fold record; by rewrite Hv|done].
  - exact Hwritten.
  - intros item row Hin.
    set (v := default (py "n/a") (parse_deadlines (pdf_text d) !! item)).
    assert (Hv : v <> []).
    { unfold v. destruct (parse_deadlines (pdf_text d) !! item) as [v'|] eqn:E;
        [|done]. by apply parse_deadlines_kept in E as [? _]. }
    exists v. split; [|done].
    apply Hwritten; [|by destruct v].
    destruct (parse_contract_lookup X d)
      as (ti & oec & fees & _ & _ & _ & _ & _ & Hd & _).
    apply Hd. unfold deadline_display.
    apply list_elem_of_fmap. by exists (item, row).
  - intros r c.
    destruct (write_offer_other ws col offer_number record r c)
      as (H1 & _ & H3).
    intros [Hc|[Hr Hb]]; [by apply H1|by apply H3].
Qed.

(** ** One column for each offer *)

Lemma find_next_col_unique (ws : worksheet) (start_col col : Z) :
  start_col <= col ->
  is_blank (cell_value ws ROW_OFFER_HEADER col) = true ->
  (forall c, start_col <= c < col ->
     is_blank (cell_value ws ROW_OFFER_HEADER c) = false) ->
  find_next_col ws start_col = Some col.
Proof.
  intros Hle Hb Hfull.
  destruct (find_next_col_spec ws start_col)
    as (col' & -> & Hle' & Hb' & Hfull').
  f_equal. destruct (Z.lt_trichotomy col' col) as [H|[H|H]]; [|done|].
  - rewrite Hfull in Hb' by lia. done.
  - rewrite Hfull' in Hb by lia. done.
Qed.

Lemma import_offer_cells (L : Z -> str) (ws : worksheet)
    (data : gmap Z pyval) :
  exists col ws',
    find_next_col ws 3 = Some col
    /\ import_offer L ws data = Some ws'
    /\ 3 <= col
    /\ is_blank (cell_value ws' ROW_OFFER_HEADER col) = false
    /\ ((forall v, data !! ROW_OFFER_HEADER = Some v -> is_blank v = true) ->
        cell_value ws' ROW_OFFER_HEADER col
        = VStr (py "OFFER " ++ str_of_int (col - 2)))
    /\ (forall r c, c <> col -> cell_value ws' r c = cell_value ws r c)
    /\ (forall r v, data !! r = Some v -> r ∉ SKIP_ROWS ->
                    is_blank v = false -> cell_value ws' r col = v).
Proof.
  destruct (find_next_col_spec ws 3) as (col & Hcol & Hle & Hb & Hfull).
  unfold import_offer. rewrite Hcol. cbv zeta.
  exists col, (write_offer (copy_formatting L ws 2 col 103) col (col - 2) data).
  split; [done|]. split; [done|]. split; [done|].
  split; [|split; [|split]].
  - apply write_offer_cells.
  - apply write_offer_cells.
  - intros r c Hc.
    destruct (write_offer_other (copy_formatting L ws 2 col 103) col (col - 2)
                data r c) as (H & _).
    rewrite H by done. rewrite copy_formatting_cell.
    rewrite decide_False; [done|]. tauto.
  - apply write_offer_cells.
Qed.

Lemma import_offers_columns (L : Z -> str) (offers : list (gmap Z pyval)) :
  forall (ws : worksheet) (first : Z),
  3 <= first ->
  (forall c, 3 <= c < first ->
     is_blank (cell_value ws ROW_OFFER_HEADER c) = false) ->
  (forall c, first <= c ->
     is_blank (cell_value ws ROW_OFFER_HEADER c) = true) ->
  Forall (fun data : gmap Z pyval =>
            forall v, data !! ROW_OFFER_HEADER = Some v -> is_blank v = true)
    offers ->
  exists ws',
    import_offers L ws offers = Some ws'
    /\ find_next_col ws' 3 = Some (first + Z.of_nat (length offers))
    /\ (forall i, (i < length offers)%nat ->
          cell_value ws' ROW_OFFER_HEADER (first + Z.of_nat i)
          = VStr (py "OFFER " ++ str_of_int (first + Z.of_nat i - 2)))
    /\ (forall i data r v,
          offers !! i = Some data -> data !! r = Some v ->
          r ∉ SKIP_ROWS -> is_blank v = false ->
          cell_value ws' r (first + Z.of_nat i) = v)
    /\ (forall r c, c < first -> cell_value ws' r c = cell_value ws r c).
Proof.
  induction offers as [|data offers IH]; intros ws first Hfirst Hfull Hfree Hd.
  - exists ws. split; [done|]. split; [|split; [|split]].
    + rewrite Z.add_0_r. apply find_next_col_unique; [done| |done].
      apply Hfree. lia.
    + intros i Hi. simpl in Hi. lia.
    + intros i data r v Hi. by rewrite lookup_nil in Hi.
    + done.
  - apply Forall_cons in Hd as [Hdata Hd].
    destruct (import_offer_cells L ws data)
      as (col & ws1 & Hcol & Himp & _ & Hnb & Hhead & Hframe & Hvals).
    assert (col = first) as ->.
    { assert (Hf : find_next_col ws 3 = Some first).
      { apply find_next_col_unique; [done| |done]. apply Hfree. lia. }
      congruence. }
    specialize (Hhead Hdata).
    destruct (IH ws1 (first + 1))
      as (ws' & Himps & Hnext & Hheads & Hrows & Hkeep).
    + lia.
    + intros c Hc. destruct (decide (c = first)) as [->|]; [done|].
      rewrite Hframe by done. apply Hfull. lia.
    + intros c Hc. rewrite Hframe by lia. apply Hfree. lia.
    + done.
    + exists ws'. cbn [import_offers]. rewrite Himp. split; [done|].
      split; [|split; [|split]].
      * rewrite Hnext. f_equal. cbn [length]. lia.
      * intros [|i] Hi.
        -- replace (first + Z.of_nat 0) with first by lia.
           by rewrite Hkeep by lia.
        -- cbn [length] in Hi.
           replace (first + Z.of_nat (S i)) with (first + 1 + Z.of_nat i) by lia.
           apply Hheads. lia.
      * intros [|i] data' r v Hi Hr Hs Hb.
        -- injection Hi as <-.
           replace (first + Z.of_nat 0) with first by lia.
           rewrite Hkeep by lia. by apply Hvals.
        -- replace (first + Z.of_nat (S i)) with (first + 1 + Z.of_nat i) by lia.
           by apply (Hrows i data').
      * intros r c Hc. rewrite Hkeep by lia. apply Hframe. lia.
Qed.

(** X7: the loop of [main] over the contracts that were parsed, on a
    template whose header row is blank from column 3 on.  Every offer
    goes into a column of its own: the i-th into column 3 + i (counting
    from 0), under the header "OFFER i+1", with every field of its record
    that is not blank; the columns before column 3 are left alone, and the
    next free column is the one after the last offer. *)
Theorem import_offers_numbered (get_column_letter : Z -> str)
    (X : extractors) (ws : worksheet) (docs : list pdf) :
  (forall c, 3 <= c -> is_blank (cell_value ws ROW_OFFER_HEADER c) = true) ->
  exists ws',
    import_offers get_column_letter ws (parse_contract X <$> docs) = Some ws'
    /\ find_next_col ws' 3 = Some (3 + Z.of_nat (length docs))
    /\ (forall i, (i < length docs)%nat ->
          cell_value ws' ROW_OFFER_HEADER (3 + Z.of_nat i)
          = VStr (py "OFFER " ++ str_of_int (Z.of_nat i + 1)))
    /\ (forall i d r v,
          docs !! i = Some d -> parse_contract X d !! r = Some v ->
          is_blank v = false ->
          cell_value ws' r (3 + Z.of_nat i) = v)
    /\ (forall r c, c < 3 -> cell_value ws' r c = cell_value ws r c).
Proof.
  intros Hfree.
  destruct (import_offers_columns get_column_letter (parse_contract X <$> docs)
              ws 3) as (ws' & Himp & Hnext & Hheads & Hrows & Hkeep).
  - lia.
  - intros c Hc. lia.
  - exact Hfree.
  - apply Forall_fmap, Forall_forall. intros d _ v Hv. cbn in Hv.
    destruct (parse_contract_rows_written X d ROW_OFFER_HEADER) as [_ H];
      [by rewrite Hv|done].
  - rewrite length_fmap in Hnext, Hheads.
    exists ws'. split; [done|]. split; [done|]. split; [|split; [|done]].
    + intros i Hi. rewrite Hheads by done. do 3 f_equal. lia.
    + intros i d r v Hi Hr Hb.
      apply (Hrows i (parse_contract X d)); try done.
      * by rewrite list_lookup_fmap, Hi.
      * apply (parse_contract_rows_written X d). by rewrite Hr.
Qed.

Lemma import_offers_numbered_witness :
  let sample_doc := Pdf [sample_page] in
  let L := fun _ : Z => py "B" in
  let X := code_extractors (fun _ => None) in
  (forall c, 3 <= c -> is_blank (cell_value ∅ ROW_OFFER_HEADER c) = true)
  /\ exists ws',
       import_offers L ∅ (parse_contract X <$> [sample_doc; sample_doc]) = Some ws'
       /\ find_next_col ws' 3 = Some (3 + Z.of_nat 2)
       /\ (forall i, (i < 2)%nat ->
             cell_value ws' ROW_OFFER_HEADER (3 + Z.of_nat i)
             = VStr (py "OFFER " ++ str_of_int (Z.of_nat i + 1)))
       /\ (forall i d r v,
             [sample_doc; sample_doc] !! i = Some d ->
             parse_contract X d !! r = Some v ->
             is_blank v = false ->
             cell_value ws' r (3 + Z.of_nat i) = v)
       /\ (forall r c, c < 3 -> cell_value ws' r c = cell_value ∅ r c).
Proof.
  cbv zeta.
  assert (Hfree : forall c, 3 <= c ->
            is_blank (cell_value (∅ : worksheet) ROW_OFFER_HEADER c) = true).
  { intros c _. unfold cell_value. by rewrite lookup_empty. }
  split; [exact Hfree|].
  exact (import_offers_numbered (fun _ => py "B")
           (code_extractors (fun _ => None)) ∅ [_; _] Hfree).
Defined.

(** ** The render cache *)

Lemma extends_refl (pages : list page) (rc : render_cache) :
  extends pages rc rc.
Proof. split; [done|]. intros k r H. by left. Qed.

Lemma extends_trans (pages : list page) (rc1 rc2 rc3 : render_cache) :
  extends pages rc1 rc2 -> extends pages rc2 rc3 -> extends pages rc1 rc3.
Proof.
  intros [Hs1 Hn1] [Hs2 Hn2]. split; [by trans rc2|].
  intros k r H3. destruct (Hn2 k r H3) as [H2|H2]; [|by right].
  by apply Hn1.
Qed.

Lemma extends_cons (pg : page) (pages : list page) (rc rc' : render_cache) :
  extends pages rc rc' -> extends (pg :: pages) rc rc'.
Proof.
  intros [Hs Hn]. split; [done|]. intros k r H.
  destruct (Hn k r H) as [?|(p & Hp & ? & ?)]; [by left|].
  right. exists p. split; [by right|done].
Qed.

Lemma cached_render_extends (pg : page) (pages : list page)
    (rc : render_cache) :
  extends (pg :: pages) rc (cached_render pg rc).2.
Proof.
  unfold cached_render.
  destruct (rc !! page_id pg) as [r|] eqn:E; [apply extends_refl|].
  cbn [snd]. split; [by apply insert_subseteq|].
  intros k r. rewrite lookup_insert. case_decide as Hk.
  - intros [= <-]. right. exists pg. split; [by left|done].
  - intros H. by left.
Qed.

Lemma cached_render_coherent (pages : list page) (pg : page)
    (rc : render_cache) :
  NoDup (page_id <$> pages) -> pg ∈ pages -> coherent pages rc ->
  (cached_render pg rc).1 = render_of pg
  /\ coherent pages (cached_render pg rc).2.
Proof.
  intros Hnd Hpg Hrc. unfold cached_render.
  destruct (rc !! page_id pg) as [r|] eqn:E.
  - split; [|done]. cbn. by apply Hrc.
  - split; [done|]. cbn [snd]. intros pg' r Hpg'.
    rewrite lookup_insert. case_decide as Hk.
    + intros [= <-].
      assert (pg = pg') as <-; [|done].
      apply list_elem_of_lookup in Hpg as [i Hi].
      apply list_elem_of_lookup in Hpg' as [j Hj].
      assert (i = j) as ->; [|congruence].
      apply (NoDup_lookup _ i j (page_id pg) Hnd);
        rewrite list_lookup_fmap; [by rewrite Hi|rewrite Hj; cbn; by rewrite Hk].
    + by apply Hrc.
Qed.

Lemma detect_checked_box_at_y_render (pg : page) (options_y : Q)
    (all_checkboxes : list image) (rc : render_cache) :
  detect_checked_box_at_y pg options_y all_checkboxes rc
  = (classify pg options_y all_checkboxes (cached_render pg rc).1,
     (cached_render pg rc).2).
Proof.
  unfold detect_checked_box_at_y. by destruct (cached_render pg rc).
Qed.

(** The two steps that the proofs about the page loops repeat: the tests
    of a page, which do not read the cache, and the render of the page. *)
Ltac branch :=
  match goal with
  | |- context [if ?b then _ else _] => destruct b
  end.

Ltac page_tests :=
  repeat match goal with
         | |- context [if negb ?b then _ else _] => destruct b; cbn [negb orb]
         | |- context [if negb ?b || _ then _ else _] =>
             destruct b; cbn [negb orb]
         | |- context [match find_section_anchor_y ?s ?c with _ => _ end] =>
             destruct (find_section_anchor_y s c)
         | |- context [match anchor_loop ?t ?c ?i ?l with _ => _ end] =>
             destruct (anchor_loop t c i l)
         | |- context [match Impl.assoc_anchor_loop ?c ?i ?l with _ => _ end] =>
             destruct (Impl.assoc_anchor_loop c i l)
         | |- context [match find_options_y ?c ?b ?a with _ => _ end] =>
             destruct (find_options_y c b a)
         end.

Section Transparent.

Variable pages0 : list page.
Hypothesis Hnd : NoDup (page_id <$> pages0).

Lemma parse_title_insurance_pages_cache (pages : list page) :
  (forall pg, pg ∈ pages -> pg ∈ pages0) ->
  forall rc1 rc2,
  coherent pages0 rc1 -> coherent pages0 rc2 ->
  (Impl.parse_title_insurance_pages pages rc1).1
  = (Impl.parse_title_insurance_pages pages rc2).1
  /\ coherent pages0 (Impl.parse_title_insurance_pages pages rc1).2.
Proof.
  induction pages as [|pg pages IH]; intros Hsub rc1 rc2 H1 H2; [done|].
  assert (Hpg : pg ∈ pages0) by (apply Hsub; by left).
  assert (Hsub' : forall p, p ∈ pages -> p ∈ pages0)
    by (intros p Hp; apply Hsub; by right).
  cbn [Impl.parse_title_insurance_pages]. page_tests; try by apply IH.
  destruct (cached_render_coherent pages0 pg rc1 Hnd Hpg H1) as [E1 C1].
  destruct (cached_render_coherent pages0 pg rc2 Hnd Hpg H2) as [E2 C2].
  destruct (cached_render pg rc1) as [[[pil1 sx1] sy1] rc1'].
  destruct (cached_render pg rc2) as [[[pil2 sx2] sy2] rc2'].
  cbn [fst snd] in *. rewrite <- E2 in E1. injection E1 as -> -> ->.
  destruct (List.filter _ _) as [|cb0 cbs]; [by apply IH|].
  by branch.
Qed.

Lemma parse_oec_pages_cache (pages : list page) :
  (forall pg, pg ∈ pages -> pg ∈ pages0) ->
  forall rc1 rc2,
  coherent pages0 rc1 -> coherent pages0 rc2 ->
  (Impl.parse_oec_pages pages rc1).1 = (Impl.parse_oec_pages pages rc2).1
  /\ coherent pages0 (Impl.parse_oec_pages pages rc1).2.
Proof.
  induction pages as [|pg pages IH]; intros Hsub rc1 rc2 H1 H2; [done|].
  assert (Hpg : pg ∈ pages0) by (apply Hsub; by left).
  assert (Hsub' : forall p, p ∈ pages -> p ∈ pages0)
    by (intros p Hp; apply Hsub; by right).
  cbn [Impl.parse_oec_pages]. page_tests; try by apply IH.
  destruct (cached_render_coherent pages0 pg rc1 Hnd Hpg H1) as [E1 C1].
  destruct (cached_render_coherent pages0 pg rc2 Hnd Hpg H2) as [E2 C2].
  destruct (cached_render pg rc1) as [[[pil1 sx1] sy1] rc1'].
  destruct (cached_render pg rc2) as [[[pil2 sx2] sy2] rc2'].
  cbn [fst snd] in *. rewrite <- E2 in E1. injection E1 as -> -> ->.
  destruct (List.filter _ _) as [|cb0 cbs]; [by apply IH|].
  by branch.
Qed.

Lemma get_fee_value_pages_cache (section_id : str) (pages : list page) :
  (forall pg, pg ∈ pages -> pg ∈ pages0) ->
  forall rc1 rc2,
  coherent pages0 rc1 -> coherent pages0 rc2 ->
  (Impl.get_fee_value_pages pages section_id rc1).1
  = (Impl.get_fee_value_pages pages section_id rc2).1
  /\ coherent pages0 (Impl.get_fee_value_pages pages section_id rc1).2.
Proof.
  induction pages as [|pg pages IH]; intros Hsub rc1 rc2 H1 H2; [done|].
  assert (Hpg : pg ∈ pages0) by (apply Hsub; by left).
  assert (Hsub' : forall p, p ∈ pages -> p ∈ pages0)
    by (intros p Hp; apply Hsub; by right).
  cbn [Impl.get_fee_value_pages].
  page_tests; destruct (get_page_checkboxes pg) as [|cb cbs]; page_tests;
    try by apply IH.
  rewrite !detect_checked_box_at_y_render. cbn [fst snd].
  destruct (cached_render_coherent pages0 pg rc1 Hnd Hpg H1) as [-> C1].
  destruct (cached_render_coherent pages0 pg rc2 Hnd Hpg H2) as [-> C2].
  done.
Qed.

Lemma parse_assoc_assessments_pages_cache (pages : list page) :
  (forall pg, pg ∈ pages -> pg ∈ pages0) ->
  forall rc1 rc2,
  coherent pages0 rc1 -> coherent pages0 rc2 ->
  (Impl.parse_assoc_assessments_pages pages rc1).1
  = (Impl.parse_assoc_assessments_pages pages rc2).1
  /\ coherent pages0 (Impl.parse_assoc_assessments_pages pages rc1).2.
Proof.
  induction pages as [|pg pages IH]; intros Hsub rc1 rc2 H1 H2; [done|].
  assert (Hpg : pg ∈ pages0) by (apply Hsub; by left).
  assert (Hsub' : forall p, p ∈ pages -> p ∈ pages0)
    by (intros p Hp; apply Hsub; by right).
  cbn [Impl.parse_assoc_assessments_pages]. page_tests; try by apply IH.
  destruct (List.filter _ _) as [|cb0 cbs]; [done|].
  destruct (cached_render_coherent pages0 pg rc1 Hnd Hpg H1) as [E1 C1].
  destruct (cached_render_coherent pages0 pg rc2 Hnd Hpg H2) as [E2 C2].
  destruct (cached_render pg rc1) as [[[pil1 sx1] sy1] rc1'].
  destruct (cached_render pg rc2) as [[[pil2 sx2] sy2] rc2'].
  cbn [fst snd] in *. rewrite <- E2 in E1. injection E1 as -> -> ->.
  by branch.
Qed.

End Transparent.

Lemma coherent_empty (pages : list page) : coherent pages ∅.
Proof. intros pg r _. by rewrite lookup_empty. Qed.

(** The caches only grow, by renders of the pages of the document. *)
Lemma parse_title_insurance_pages_extends (pages : list page) :
  forall rc, extends pages rc (Impl.parse_title_insurance_pages pages rc).2.
Proof.
  induction pages as [|pg pages IH]; intros rc; [apply extends_refl|].
  cbn [Impl.parse_title_insurance_pages].
  page_tests; try (apply extends_cons, IH).
  pose proof (cached_render_extends pg pages rc) as Hc.
  destruct (cached_render pg rc) as [[[pil sx] sy] rc'].
  cbn [snd] in Hc.
  destruct (List.filter _ _) as [|cb0 cbs].
  - eapply extends_trans; [exact Hc|]. apply extends_cons, IH.
  - by branch.
Qed.

Lemma parse_oec_pages_extends (pages : list page) :
  forall rc, extends pages rc (Impl.parse_oec_pages pages rc).2.
Proof.
  induction pages as [|pg pages IH]; intros rc; [apply extends_refl|].
  cbn [Impl.parse_oec_pages].
  page_tests; try (apply extends_cons, IH).
  pose proof (cached_render_extends pg pages rc) as Hc.
  destruct (cached_render pg rc) as [[[pil sx] sy] rc'].
  cbn [snd] in Hc.
  destruct (List.filter _ _) as [|cb0 cbs].
  - eapply extends_trans; [exact Hc|]. apply extends_cons, IH.
  - by branch.
Qed.

Lemma get_fee_value_pages_extends (section_id : str) (pages : list page) :
  forall rc,
  extends pages rc (Impl.get_fee_value_pages pages section_id rc).2.
Proof.
  induction pages as [|pg pages IH]; intros rc; [apply extends_refl|].
  cbn [Impl.get_fee_value_pages].
  page_tests; destruct (get_page_checkboxes pg) as [|cb cbs]; page_tests;
    try (apply extends_cons, IH).
  rewrite detect_checked_box_at_y_render. apply cached_render_extends.
Qed.

Lemma parse_assoc_assessments_pages_extends (pages : list page) :
  forall rc,
  extends pages rc (Impl.parse_assoc_assessments_pages pages rc).2.
Proof.
  induction pages as [|pg pages IH]; intros rc; [apply extends_refl|].
  cbn [Impl.parse_assoc_assessments_pages].
  page_tests; try (apply extends_cons, IH).
  destruct (List.filter _ _) as [|cb0 cbs]; [apply extends_refl|].
  pose proof (cached_render_extends pg pages rc) as Hc.
  destruct (cached_render pg rc) as [[[pil sx] sy] rc'].
  cbn [snd] in Hc. by branch.
Qed.

(** ** The values of the checkbox extractors *)

Ltac pick_value :=
  cbn [fst]; vm_compute;
  first [apply list_elem_of_here | apply list_elem_of_further];
  repeat first [apply list_elem_of_here | apply list_elem_of_further].

Lemma get_fee_value_pages_values (section_id : str) (pages : list page) :
  forall rc,
  (Impl.get_fee_value_pages pages section_id rc).1 ∈ dropdown_values.
Proof.
  induction pages as [|pg pages IH]; intros rc; [pick_value|].
  cbn [Impl.get_fee_value_pages].
  page_tests; destruct (get_page_checkboxes pg) as [|cb cbs]; page_tests;
    try apply IH.
  rewrite detect_checked_box_at_y_render. apply classify_values.
Qed.

Lemma parse_title_insurance_pages_values (pages : list page) :
  forall rc,
  (Impl.parse_title_insurance_pages pages rc).1
  ∈ [py "Seller Pays"; py "Buyer Pays"; py "n/a"].
Proof.
  induction pages as [|pg pages IH]; intros rc; [pick_value|].
  cbn [Impl.parse_title_insurance_pages]. page_tests;
    try (lazymatch goal with
         | |- context [cached_render] => fail
         | |- context [List.filter] => fail
         | _ => apply IH
         end).
  destruct (cached_render pg rc) as [[[pil sx] sy] rc'].
  destruct (List.filter _ _) as [|cb0 cbs]; [apply IH|].
  branch; [pick_value|]. cbn [fst].
  unfold Impl.title_insurance_value.
  repeat (match goal with |- context [if ?b then _ else _] => destruct b end);
    pick_value.
Qed.

Lemma parse_oec_pages_values (pages : list page) :
  forall rc,
  (Impl.parse_oec_pages pages rc).1 ∈ [py "Buyer Pays"; py "n/a"].
Proof.
  induction pages as [|pg pages IH]; intros rc; [pick_value|].
  cbn [Impl.parse_oec_pages]. page_tests;
    try (lazymatch goal with
         | |- context [cached_render] => fail
         | |- context [List.filter] => fail
         | _ => apply IH
         end).
  destruct (cached_render pg rc) as [[[pil sx] sy] rc'].
  destruct (List.filter _ _) as [|cb0 cbs]; [apply IH|].
  branch; [pick_value|]. cbn [fst].
  unfold Impl.oec_value.
  repeat (match goal with |- context [if ?b then _ else _] => destruct b end);
    pick_value.
Qed.

Lemma parse_assoc_assessments_pages_values (pages : list page) :
  forall rc,
  (Impl.parse_assoc_assessments_pages pages rc).1
  ∈ [py "Buyer Pays"; py "Seller Pays"; py "n/a"].
Proof.
  induction pages as [|pg pages IH]; intros rc; [pick_value|].
  cbn [Impl.parse_assoc_assessments_pages]. page_tests;
    try (lazymatch goal with
         | |- context [cached_render] => fail
         | |- context [List.filter] => fail
         | _ => apply IH
         end).
  destruct (List.filter _ _) as [|cb0 cbs]; [pick_value|].
  destruct (cached_render pg rc) as [[[pil sx] sy] rc'].
  branch; [pick_value|]. cbn [fst].
  unfold Impl.assoc_value.
  repeat (match goal with |- context [if ?b then _ else _] => destruct b end);
    pick_value.
Qed.

(** X17: every checkbox extractor returns a dropdown value.
    [get_fee_value] returns one of the four; [parse_title_insurance] and
    [parse_assoc_assessments] never return "Split 50/50"; [parse_oec]
    returns "Buyer Pays" or "n/a" only. *)
Theorem checkbox_extractors_values (d : pdf) (rc : render_cache) :
  (forall section_id,
     (Impl.get_fee_value d section_id rc).1 ∈ dropdown_values)
  /\ (Impl.parse_title_insurance d rc).1
     ∈ [py "Seller Pays"; py "Buyer Pays"; py "n/a"]
  /\ (Impl.parse_oec d rc).1 ∈ [py "Buyer Pays"; py "n/a"]
  /\ (Impl.parse_assoc_assessments d rc).1
     ∈ [py "Buyer Pays"; py "Seller Pays"; py "n/a"].
Proof.
  split; [|split; [|split]].
  - intros section_id. apply get_fee_value_pages_values.
  - apply parse_title_insurance_pages_values.
  - apply parse_oec_pages_values.
  - apply parse_assoc_assessments_pages_values.
Qed.

(** X18: the render cache only grows.  After any checkbox extractor the
    cache holds every entry it held before, unchanged, and each new entry
    is the render of a page of the document under the identity of that
    page. *)
Theorem render_cache_grows (d : pdf) (rc : render_cache) :
  (forall section_id,
     extends (pdf_pages d) rc (Impl.get_fee_value d section_id rc).2)
  /\ extends (pdf_pages d) rc (Impl.parse_title_insurance d rc).2
  /\ extends (pdf_pages d) rc (Impl.parse_oec d rc).2
  /\ extends (pdf_pages d) rc (Impl.parse_assoc_assessments d rc).2.
Proof.
  split; [|split; [|split]].
  - intros section_id. apply get_fee_value_pages_extends.
  - apply parse_title_insurance_pages_extends.
  - apply parse_oec_pages_extends.
  - apply parse_assoc_assessments_pages_extends.
Qed.

(** X19: the render cache is transparent.  When the pages of the document
    have distinct identities and every entry of the cache under one of
    them is the render of that page, each checkbox extractor returns the
    value it returns on an empty cache, and leaves a cache of the same
    kind. *)
Theorem render_cache_transparent (d : pdf) (rc : render_cache) :
  NoDup (page_id <$> pdf_pages d) ->
  coherent (pdf_pages d) rc ->
  (forall section_id,
     (Impl.get_fee_value d section_id rc).1
     = (Impl.get_fee_value d section_id ∅).1
     /\ coherent (pdf_pages d) (Impl.get_fee_value d section_id rc).2)
  /\ ((Impl.parse_title_insurance d rc).1 = (Impl.parse_title_insurance d ∅).1
      /\ coherent (pdf_pages d) (Impl.parse_title_insurance d rc).2)
  /\ ((Impl.parse_oec d rc).1 = (Impl.parse_oec d ∅).1
      /\ coherent (pdf_pages d) (Impl.parse_oec d rc).2)
  /\ ((Impl.parse_assoc_assessments d rc).1
      = (Impl.parse_assoc_assessments d ∅).1
      /\ coherent (pdf_pages d) (Impl.parse_assoc_assessments d rc).2).
Proof.
  intros Hnd Hrc.
  pose proof (coherent_empty (pdf_pages d)) as He.
  split; [|split; [|split]].
  - intros section_id. by apply (get_fee_value_pages_cache (pdf_pages d)).
  - by apply (parse_title_insurance_pages_cache (pdf_pages d)).
  - by apply (parse_oec_pages_cache (pdf_pages d)).
  - by apply (parse_assoc_assessments_pages_cache (pdf_pages d)).
Qed.

Lemma render_cache_transparent_witness :
  let d := Pdf [sample_page] in
  let rc : render_cache := {[7%positive := render_of sample_page]} in
  NoDup (page_id <$> pdf_pages d)
  /\ coherent (pdf_pages d) rc
  /\ (forall section_id,
        (Impl.get_fee_value d section_id rc).1
        = (Impl.get_fee_value d section_id ∅).1
        /\ coherent (pdf_pages d) (Impl.get_fee_value d section_id rc).2)
  /\ ((Impl.parse_title_insurance d rc).1 = (Impl.parse_title_insurance d ∅).1
      /\ coherent (pdf_pages d) (Impl.parse_title_insurance d rc).2)
  /\ ((Impl.parse_oec d rc).1 = (Impl.parse_oec d ∅).1
      /\ coherent (pdf_pages d) (Impl.parse_oec d rc).2)
  /\ ((Impl.parse_assoc_assessments d rc).1
      = (Impl.parse_assoc_assessments d ∅).1
      /\ coherent (pdf_pages d) (Impl.parse_assoc_assessments d rc).2).
Proof.
  cbv zeta.
  assert (Hnd : NoDup (page_id <$> pdf_pages (Pdf [sample_page])))
    by (cbn; apply NoDup_singleton).
  assert (Hrc : coherent (pdf_pages (Pdf [sample_page]))
                  ({[7%positive := render_of sample_page]} : render_cache)).
  { intros pg' r Hpg. cbn in Hpg. apply list_elem_of_singleton in Hpg as ->.
    change (page_id sample_page) with 7%positive.
    rewrite lookup_singleton_eq. by intros [= <-]. }
  split; [exact Hnd|]. split; [exact Hrc|].
  exact (render_cache_transparent (Pdf [sample_page]) _ Hnd Hrc).
Defined.

(** ** The checkbox rows of the record *)

Lemma parse_contract_checkbox_layer (X : extractors) (d : pdf) :
  let record := parse_contract X d in
  let t := parse_title_insurance X d ∅ in
  let o := parse_oec X d t.2 in
  let fv := fee_values X d fee_rows o.2 in
  let a := parse_assoc_assessments X d fv.2 in
  record !! ROW_TITLE_INS = Some (VStr t.1)
  /\ record !! ROW_OEC = Some (VStr o.1)
  /\ (forall k v, (k, v) ∈ fv.1 -> record !! k = Some v)
  /\ record !! ROW_ASSOC_ASSESS = Some (VStr a.1).
Proof.
  intros record t o fv a.
  pose proof (fee_values_rows X d fee_rows o.2) as Hrows. fold fv in Hrows.
  assert (Hrec : record
    = dict_update
        (let data :=
           dict_update (dict_update ∅ (data_display X d t.1 o.1))
             (fv.1 ++ [(ROW_ASSOC_ASSESS, VStr a.1)]) in
         match parse_commission (pdf_text d) with
         | Some commission => <[ROW_COMMISSION := VNum commission]> data
         | None => data
         end)
        (deadline_display (parse_deadlines (pdf_text d)))).
  { clear Hrows. subst record a fv o t. unfold parse_contract.
    destruct (parse_title_insurance X d ∅) as [title_ins rc1]. cbn [fst snd].
    destruct (parse_oec X d rc1) as [oec rc2]. cbn [fst snd].
    destruct (fee_values X d fee_rows rc2) as [fees rc3]. cbn [fst snd].
    destruct (parse_assoc_assessments X d rc3) as [assoc rc4]. cbn [fst snd].
    exact (deadline_fold_update
             (fun item =>
                VStr (default (py "n/a")
                        (parse_deadlines (pdf_text d) !! item))) _ _). }
  assert (Hfees : (fv.1 ++ [(ROW_ASSOC_ASSESS, VStr a.1)]).*1
                  = fee_section_rows).
  { rewrite fmap_app, Hrows. reflexivity. }
  destruct rows_apart as [Hnd _].
  apply NoDup_app in Hnd as (Hnd1 & H1 & Hnd).
  apply NoDup_app in Hnd as (Hnd2 & H2 & Hnd).
  assert (Hfee : forall k v,
            (k, v) ∈ fv.1 ++ [(ROW_ASSOC_ASSESS, VStr a.1)] ->
            record !! k = Some v).
  { intros k v Hin.
    assert (Hk : k ∈ fee_section_rows).
    { rewrite <- Hfees. apply list_elem_of_fmap. by exists (k, v). }
    specialize (H2 k Hk). rewrite !not_elem_of_app in H2.
    destruct H2 as (Hc & Hd).
    rewrite Hrec, dict_update_lookup_ne by done. cbv zeta.
    assert (Hne : k <> ROW_COMMISSION)
      by (intros ->; apply Hc; by apply list_elem_of_singleton).
    destruct (parse_commission (pdf_text d));
      rewrite ?lookup_insert_ne by done;
      (apply dict_update_lookup_in; [by rewrite Hfees|done]). }
  assert (Hdisp : forall k v,
            (k, v) ∈ data_display X d t.1 o.1 -> record !! k = Some v).
  { intros k v Hin.
    assert (Hk : k ∈ scalar_display_rows).
    { rewrite <- (data_display_rows X d t.1 o.1).
      apply list_elem_of_fmap. by exists (k, v). }
    specialize (H1 k Hk). rewrite !not_elem_of_app in H1.
    destruct H1 as (Hf & Hc & Hd).
    rewrite Hrec, dict_update_lookup_ne by done. cbv zeta.
    assert (Hne : k <> ROW_COMMISSION)
      by (intros ->; apply Hc; by apply list_elem_of_singleton).
    destruct (parse_commission (pdf_text d));
      rewrite ?lookup_insert_ne by done;
      (rewrite dict_update_lookup_ne by (by rewrite Hfees);
       apply dict_update_lookup_in; [by rewrite data_display_rows|done]). }
  split; [|split; [|split]].
  - apply Hdisp. unfold data_display.
    do 9 apply list_elem_of_further. apply list_elem_of_here.
  - apply Hdisp. unfold data_display.
    do 10 apply list_elem_of_further. apply list_elem_of_here.
  - intros k v Hin. apply Hfee, elem_of_app. by left.
  - apply Hfee, elem_of_app. right. by apply list_elem_of_singleton.
Qed.

Section CodeExtractors.

Variable float_of_str : str -> option Q.
Variable d : pdf.
Hypothesis Hnd : NoDup (page_id <$> pdf_pages d).

Lemma fee_values_code (rows : list (Z * str)) :
  forall rc,
  coherent (pdf_pages d) rc ->
  (forall row s, (row, s) ∈ rows ->
     (row, VStr (Impl.get_fee_value d s ∅).1)
     ∈ (fee_values (code_extractors float_of_str) d rows rc).1)
  /\ coherent (pdf_pages d)
       (fee_values (code_extractors float_of_str) d rows rc).2.
Proof.
  induction rows as [|[row sid] rows IH]; intros rc Hrc.
  - split; [|done]. intros row s H. by apply elem_of_nil in H.
  - cbn [fee_values]. cbn [get_fee_value code_extractors].
    destruct (get_fee_value_pages_cache (pdf_pages d) Hnd sid (pdf_pages d)
                (fun _ H => H) rc ∅ Hrc (coherent_empty _)) as [Hv Hc].
    change (Impl.get_fee_value d sid rc)
      with (Impl.get_fee_value_pages (pdf_pages d) sid rc).
    destruct (Impl.get_fee_value_pages (pdf_pages d) sid rc) as [v rc1].
    cbn [fst snd] in Hv, Hc. destruct (IH rc1 Hc) as [IHv IHc].
    destruct (fee_values (code_extractors float_of_str) d rows rc1)
      as [vs rc2].
    cbn [fst snd] in *. split; [|done].
    intros row' s [[= -> ->]|Hin]%elem_of_cons.
    + rewrite Hv. left.
    + right. by apply IHv.
Qed.

(** X20: the checkbox rows of the record, for the extractors of the
    code.  When the pages of the document have distinct identities, the
    rows of title insurance, of the OEC, of the nine fee sections and of
    the association assessments hold the values that the extractors return
    on an empty cache: sharing one cache among the twelve calls changes no
    value. *)
Theorem parse_contract_checkbox_rows :
  let record := parse_contract (code_extractors float_of_str) d in
  record !! ROW_TITLE_INS = Some (VStr (Impl.parse_title_insurance d ∅).1)
  /\ record !! ROW_OEC = Some (VStr (Impl.parse_oec d ∅).1)
  /\ (forall row s, (row, s) ∈ fee_rows ->
        record !! row = Some (VStr (Impl.get_fee_value d s ∅).1))
  /\ record !! ROW_ASSOC_ASSESS
     = Some (VStr (Impl.parse_assoc_assessments d ∅).1).
Proof.
  intros record.
  destruct (parse_contract_checkbox_layer (code_extractors float_of_str) d)
    as (Ht & Ho & Hf & Ha).
  fold record in Ht, Ho, Hf, Ha. cbn [parse_title_insurance parse_oec
    parse_assoc_assessments code_extractors] in Ht, Ho, Hf, Ha.
  set (id_sub := fun (pg : page) (H : pg ∈ pdf_pages d) => H).
  destruct (parse_title_insurance_pages_cache (pdf_pages d) Hnd (pdf_pages d)
              id_sub ∅ ∅ (coherent_empty _) (coherent_empty _)) as [_ C1].
  fold (Impl.parse_title_insurance d ∅) in C1.
  destruct (parse_oec_pages_cache (pdf_pages d) Hnd (pdf_pages d) id_sub
              (Impl.parse_title_insurance d ∅).2 ∅ C1 (coherent_empty _))
    as [Eo C2].
  fold (Impl.parse_oec d (Impl.parse_title_insurance d ∅).2) in Eo, C2.
  fold (Impl.parse_oec d ∅) in Eo.
  destruct (fee_values_code fee_rows _ C2) as [Ef C3].
  destruct (parse_assoc_assessments_pages_cache (pdf_pages d) Hnd
              (pdf_pages d) id_sub _ ∅ C3 (coherent_empty _)) as [Ea _].
  split; [done|]. split; [by rewrite <- Eo|]. split.
  - intros row s Hin. by apply Hf, Ef.
  - rewrite Ha. f_equal. f_equal. exact Ea.
Qed.

End CodeExtractors.

Lemma parse_contract_checkbox_rows_witness :
  let d := Pdf [sample_page] in
  let float_of_str := fun _ : str => @None Q in
  NoDup (page_id <$> pdf_pages d)
  /\ (let record := parse_contract (code_extractors float_of_str) d in
      record !! ROW_TITLE_INS = Some (VStr (Impl.parse_title_insurance d ∅).1)
      /\ record !! ROW_OEC = Some (VStr (Impl.parse_oec d ∅).1)
      /\ (forall row s, (row, s) ∈ fee_rows ->
            record !! row = Some (VStr (Impl.get_fee_value d s ∅).1))
      /\ record !! ROW_ASSOC_ASSESS
         = Some (VStr (Impl.parse_assoc_assessments d ∅).1)).
Proof.
  cbv zeta.
  assert (Hnd : NoDup (page_id <$> pdf_pages (Pdf [sample_page])))
    by (cbn; apply NoDup_singleton).
  split; [exact Hnd|].
  exact (parse_contract_checkbox_rows (fun _ => None) (Pdf [sample_page]) Hnd).
Defined.

(** ** The options line *)

Lemma y_lines_fold (chars : list glyph) :
  forall (m : gmap Z (list glyph)) (y : Z),
  fold_left
    (fun (m : gmap Z (list glyph)) c =>
       let y := py_round (c_y0 c) in
       <[y := default [] (m !! y) ++ [c]]> m)
    chars m !! y
  = match glyphs_at chars y with
    | [] => m !! y
    | (_ :: _) as l => Some (default [] (m !! y) ++ l)
    end.
Proof.
  induction chars as [|c chars IH]; intros m y; [done|].
  cbn [fold_left]. rewrite IH. unfold glyphs_at. cbn [List.filter].
  fold (glyphs_at chars y).
  destruct (py_round (c_y0 c) =? y) eqn:E.
  - apply Z.eqb_eq in E as ->.
    rewrite lookup_insert_eq. cbn [default from_option id]. unfold id.
    destruct (glyphs_at chars _); [done|]. by rewrite <- app_assoc.
  - apply Z.eqb_neq in E. by rewrite lookup_insert_ne.
Qed.

Lemma y_lines_lookup (chars : list glyph) (y : Z) :
  y_lines chars !! y
  = match glyphs_at chars y with
    | [] => None
    | (_ :: _) as l => Some l
    end.
Proof. unfold y_lines. rewrite y_lines_fold. by destruct (glyphs_at chars y). Qed.

Lemma y_lines_keys (chars : list glyph) (y : Z) :
  y ∈ (map_to_list (y_lines chars)).*1
  <-> exists c, c ∈ chars /\ py_round (c_y0 c) = y.
Proof.
  rewrite list_elem_of_fmap. split.
  - intros ([y' l] & -> & Hin). apply elem_of_map_to_list in Hin.
    cbn [fst]. rewrite y_lines_lookup in Hin.
    destruct (glyphs_at chars y') as [|c l'] eqn:E; [done|].
    exists c. assert (Hc : c ∈ glyphs_at chars y') by (rewrite E; by left).
    unfold glyphs_at in Hc. apply list_elem_of_In, filter_In in Hc as [Hc Hy].
    split; [by apply list_elem_of_In|]. by apply Z.eqb_eq.
  - intros (c & Hc & Hy).
    assert (Hin : c ∈ glyphs_at chars y).
    { unfold glyphs_at. apply list_elem_of_In, filter_In.
      split; [by apply list_elem_of_In|]. by apply Z.eqb_eq. }
    destruct (glyphs_at chars y) as [|c' l] eqn:E;
      [by apply elem_of_nil in Hin|].
    exists (y, c' :: l). split; [done|].
    apply elem_of_map_to_list. by rewrite y_lines_lookup, E.
Qed.

Lemma is_options_line_at (chars : list glyph) (checkboxes : list image)
    (y : Z) :
  is_options_line (y_lines chars)
    (list_to_set (map (fun cb => py_round (cb_y0 cb)) checkboxes)) y
  = options_line_at chars checkboxes y.
Proof.
  unfold is_options_line, options_line_at.
  assert (Hl : default [] (y_lines chars !! y) = glyphs_at chars y).
  { rewrite y_lines_lookup. by destruct (glyphs_at chars y). }
  rewrite Hl. f_equal. f_equal.
  apply eq_true_iff_eq. rewrite !existsb_exists. split.
  - intros (cby & Hin & Hy).
    apply list_elem_of_In, elem_of_elements, elem_of_list_to_set,
      list_elem_of_fmap in Hin as (cb & -> & Hcb).
    exists cb. split; [by apply list_elem_of_In|done].
  - intros (cb & Hcb & Hy). exists (py_round (cb_y0 cb)). split; [|done].
    apply list_elem_of_In, elem_of_elements, elem_of_list_to_set,
      list_elem_of_fmap.
    exists cb. split; [done|]. by apply list_elem_of_In.
Qed.

(** In a sorted list, the first element that passes a test comes before
    every other one that passes it. *)
Lemma find_first_sorted {A} (R : A -> A -> Prop) (f : A -> bool)
    (l : list A) (x : A) :
  (forall a, R a a) -> StronglySorted R l -> List.find f l = Some x ->
  x ∈ l /\ f x = true /\ forall z, z ∈ l -> f z = true -> R x z.
Proof.
  intros Hrefl Hs. induction Hs as [|a l Hs IH Hall]; [done|].
  cbn [List.find]. destruct (f a) eqn:Ha.
  - intros [= <-]. split; [by left|]. split; [done|].
    intros z [->|Hz]%elem_of_cons _; [apply Hrefl|].
    rewrite Forall_forall in Hall. by apply Hall.
  - intros Hx. destruct (IH Hx) as (Hin & Hfx & Hfirst).
    split; [by right|]. split; [done|].
    intros z [->|Hz]%elem_of_cons Hfz; [congruence|by apply Hfirst].
Qed.

Lemma find_options_y_candidates (chars : list glyph) (anchor_y : Q) (y : Z) :
  y ∈ sorted_desc
        (List.filter (fun y => Qle_bool (inject_Z y) (anchor_y - 5))
           (map_to_list (y_lines chars)).*1)
  <-> (inject_Z y <= anchor_y - 5)%Q
      /\ exists c, c ∈ chars /\ py_round (c_y0 c) = y.
Proof.
  unfold sorted_desc. rewrite sort_by_perm.
  rewrite list_elem_of_In, filter_In, <- list_elem_of_In.
  rewrite y_lines_keys, Qle_bool_iff. tauto.
Qed.

(** X21: the options line that [get_fee_value] scans for.  The line found
    is a line of glyphs (by rounded [y0]) at least 5 below the anchor that
    is an options line: a checkbox lies within 6 of it and its text holds
    "Buyer" and "Seller".  It is the highest such line; when none is
    found, no line at least 5 below the anchor is an options line. *)
Theorem find_options_y_nearest (chars : list glyph) (checkboxes : list image)
    (anchor_y : Q) :
  match find_options_y chars checkboxes anchor_y with
  | Some y =>
      options_line_at chars checkboxes y = true
      /\ (inject_Z y <= anchor_y - 5)%Q
      /\ (exists c, c ∈ chars /\ py_round (c_y0 c) = y)
      /\ (forall y' c, c ∈ chars -> py_round (c_y0 c) = y' ->
            (inject_Z y' <= anchor_y - 5)%Q ->
            options_line_at chars checkboxes y' = true -> y' <= y)
  | None =>
      forall y' c, c ∈ chars -> py_round (c_y0 c) = y' ->
        (inject_Z y' <= anchor_y - 5)%Q ->
        options_line_at chars checkboxes y' = false
  end.
Proof.
  unfold find_options_y. cbv zeta.
  destruct (List.find _ _) as [y|] eqn:E.
  - apply (find_first_sorted (key_le (fun y => inject_Z (- y)))) in E
      as (Hin & Hy & Hfirst).
    + apply find_options_y_candidates in Hin as [Hle Hc].
      rewrite is_options_line_at in Hy.
      split; [done|]. split; [done|]. split; [done|].
      intros y' c Hc' Hy' Hle' Ho.
      assert (Hin' : y' ∈ sorted_desc
                (List.filter (fun y => Qle_bool (inject_Z y) (anchor_y - 5))
                   (map_to_list (y_lines chars)).*1)).
      { apply find_options_y_candidates. split; [done|]. by exists c. }
      specialize (Hfirst y' Hin'). rewrite is_options_line_at in Hfirst.
      specialize (Hfirst Ho). unfold key_le in Hfirst.
      rewrite <- Zle_Qle in Hfirst. lia.
    + intros a. unfold key_le. apply Qle_refl.
    + apply sort_by_sorted.
  - intros y' c Hc Hy' Hle.
    destruct (options_line_at chars checkboxes y') eqn:Ho; [|done].
    pose proof (find_none _ _ E y') as Hn.
    rewrite is_options_line_at, Ho in Hn. apply Hn.
    apply list_elem_of_In, find_options_y_candidates.
    split; [done|]. by exists c.
Qed.

(** ** The page that decides a fee section *)

Lemma get_fee_value_pages_first (section_id : str) (pages : list page)
    (rc : render_cache) :
  (Forall (fun pg => fee_options_y section_id pg = None) pages ->
   Impl.get_fee_value_pages pages section_id rc = (py "n/a", rc))
  /\ (forall skipped pg later options_y,
        pages = skipped ++ pg :: later ->
        Forall (fun pg => fee_options_y section_id pg = None) skipped ->
        fee_options_y section_id pg = Some options_y ->
        Impl.get_fee_value_pages pages section_id rc
        = detect_checked_box_at_y pg (inject_Z options_y)
            (get_page_checkboxes pg) rc).
Proof.
  assert (Hskip : forall pg pages',
            fee_options_y section_id pg = None ->
            Impl.get_fee_value_pages (pg :: pages') section_id rc
            = Impl.get_fee_value_pages pages' section_id rc).
  { intros pg pages' H. cbn [Impl.get_fee_value_pages].
    unfold fee_options_y, find_section_anchor_y in H.
    destruct (contains section_id _); [|done]. cbn [negb].
    destruct (get_page_checkboxes pg) as [|cb cbs]; [done|].
    destruct (anchor_loop _ _ _ _); [|done]. by rewrite H. }
  split.
  - induction 1 as [|pg pages Hpg _ IH]; [done|]. by rewrite Hskip.
  - intros skipped pg later options_y -> Hs Hpg.
    induction Hs as [|pg0 skipped Hpg0 _ IH]; [|cbn [app]; by rewrite Hskip].
    cbn [app Impl.get_fee_value_pages].
    unfold fee_options_y, find_section_anchor_y in Hpg.
    destruct (contains section_id _); [|done]. cbn [negb].
    destruct (get_page_checkboxes pg) as [|cb cbs]; [done|].
    destruct (anchor_loop _ _ _ _); [|done]. by rewrite Hpg.
Qed.

(** X24: the page that decides a fee section.  [get_fee_value] takes the
    pages in order and skips, without rendering, a page whose text lacks
    the section number, or that has no checkbox, no header of the section
    or no options line.  The first other page decides: the result is that
    of [detect_checked_box_at_y] on its options line, whatever it is, and
    no later page is read.  When every page is skipped the result is
    "n/a" and the cache is as it was. *)
Theorem get_fee_value_first_page (d : pdf) (section_id : str)
    (rc : render_cache) :
  (Forall (fun pg => fee_options_y section_id pg = None) (pdf_pages d) ->
   Impl.get_fee_value d section_id rc = (py "n/a", rc))
  /\ (forall skipped pg later options_y,
        pdf_pages d = skipped ++ pg :: later ->
        Forall (fun pg => fee_options_y section_id pg = None) skipped ->
        fee_options_y section_id pg = Some options_y ->
        Impl.get_fee_value d section_id rc
        = detect_checked_box_at_y pg (inject_Z options_y)
            (get_page_checkboxes pg) rc).
Proof. apply get_fee_value_pages_first. Qed.

(** ** The page that decides title insurance, the OEC and the assessments *)

Lemma assoc_anchor_loop_same (chars : list glyph) (l : list glyph) :
  forall i,
  Impl.assoc_anchor_loop chars i l
  = anchor_loop (anchor_target (py "16.2.")) chars i l.
Proof.
  induction l as [|c l IH]; intros i; [done|].
  cbn [Impl.assoc_anchor_loop anchor_loop]. rewrite IH.
  assert (Impl.assoc_anchor_accepts chars i c
          = anchor_accepts (anchor_target (py "16.2.")) chars i c) as ->;
    [|done].
  unfold Impl.assoc_anchor_accepts, anchor_accepts.
  change (slice (anchor_target (py "16.2.")) 0
            (Nat.min 4 (length (anchor_target (py "16.2.")))))
    with (py "162").
  by destruct (contains (c_text c) _), (Qgtb (c_x0 c) 150).
Qed.

Section FirstPage.

Variable pages0 : list page.
Hypothesis Hnd : NoDup (page_id <$> pages0).

Lemma cached_render_page (pg : page) (rc : render_cache) :
  pg ∈ pages0 -> coherent pages0 rc ->
  exists rc', cached_render pg rc = (render_of pg, rc') /\ coherent pages0 rc'.
Proof.
  intros Hpg Hrc.
  destruct (cached_render_coherent pages0 pg rc Hnd Hpg Hrc) as [E C].
  destruct (cached_render pg rc) as [r rc']. cbn [fst snd] in *.
  exists rc'. by rewrite E.
Qed.

Lemma parse_title_insurance_pages_first (skipped : list page) :
  forall (pg : page) (later : list page) (rc : render_cache),
  (forall p, p ∈ skipped ++ pg :: later -> p ∈ pages0) ->
  coherent pages0 rc ->
  Forall (fun p => anchored_boxes (py "8.1.1") 100 p = None
                   \/ anchored_boxes (py "8.1.1") 100 p = Some []) skipped ->
  forall cb0 cbs,
  anchored_boxes (py "8.1.1") 100 pg = Some (cb0 :: cbs) ->
  (Impl.parse_title_insurance_pages (skipped ++ pg :: later) rc).1
  = title_insurance_choice pg cb0 cbs.
Proof.
  induction skipped as [|p skipped IH]; intros pg later rc Hsub Hrc Hs cb0 cbs Hpg.
  - cbn [app Impl.parse_title_insurance_pages].
    unfold anchored_boxes in Hpg.
    destruct (contains _ _); [|done]. cbn [negb].
    destruct (find_section_anchor_y _ _) as [anchor_y|]; [|done].
    injection Hpg as Hpg.
    destruct (cached_render_page pg rc) as (rc' & -> & _);
      [apply Hsub; by left|done|].
    unfold title_insurance_choice, page_brightness.
    unfold render_of. cbv zeta. rewrite Hpg. by branch.
  - apply Forall_cons in Hs as [Hp Hs].
    assert (Hsub' : forall q, q ∈ skipped ++ pg :: later -> q ∈ pages0)
      by (intros q Hq; apply Hsub; by right).
    cbn [app Impl.parse_title_insurance_pages].
    unfold anchored_boxes in Hp.
    destruct (contains _ _); cbn [negb]; [|by apply IH].
    destruct (find_section_anchor_y _ _) as [anchor_y|]; [|by apply IH].
    destruct Hp as [Hp|Hp]; [done|]. injection Hp as Hp.
    destruct (cached_render_page p rc) as (rc' & -> & Hrc');
      [apply Hsub; by left|done|].
    unfold render_of. cbv zeta. rewrite Hp. by apply IH.
Qed.

Lemma parse_title_insurance_pages_none (pages : list page) :
  forall rc,
  Forall (fun p => anchored_boxes (py "8.1.1") 100 p = None
                   \/ anchored_boxes (py "8.1.1") 100 p = Some []) pages ->
  (Impl.parse_title_insurance_pages pages rc).1 = py "n/a".
Proof.
  induction pages as [|p pages IH]; intros rc Hs; [done|].
  apply Forall_cons in Hs as [Hp Hs].
  cbn [Impl.parse_title_insurance_pages]. unfold anchored_boxes in Hp.
  destruct (contains _ _); cbn [negb]; [|by apply IH].
  destruct (find_section_anchor_y _ _) as [anchor_y|]; [|by apply IH].
  destruct Hp as [Hp|Hp]; [done|]. injection Hp as Hp.
  destruct (cached_render p rc) as [[[pil sx] sy] rc'].
  rewrite Hp. by apply IH.
Qed.

Lemma parse_oec_pages_first (skipped : list page) :
  forall (pg : page) (later : list page) (rc : render_cache),
  (forall p, p ∈ skipped ++ pg :: later -> p ∈ pages0) ->
  coherent pages0 rc ->
  Forall (fun p => anchored_boxes (py "8.1.3") 30 p = None
                   \/ anchored_boxes (py "8.1.3") 30 p = Some []) skipped ->
  forall cb0 cbs,
  anchored_boxes (py "8.1.3") 30 pg = Some (cb0 :: cbs) ->
  (Impl.parse_oec_pages (skipped ++ pg :: later) rc).1 = oec_choice pg cb0 cbs.
Proof.
  induction skipped as [|p skipped IH]; intros pg later rc Hsub Hrc Hs cb0 cbs Hpg.
  - cbn [app Impl.parse_oec_pages].
    unfold anchored_boxes in Hpg.
    destruct (contains _ _); [|done]. cbn [negb].
    destruct (find_section_anchor_y _ _) as [anchor_y|]; [|done].
    injection Hpg as Hpg.
    destruct (cached_render_page pg rc) as (rc' & -> & _);
      [apply Hsub; by left|done|].
    unfold oec_choice, page_brightness.
    unfold render_of. cbv zeta. rewrite Hpg. by branch.
  - apply Forall_cons in Hs as [Hp Hs].
    assert (Hsub' : forall q, q ∈ skipped ++ pg :: later -> q ∈ pages0)
      by (intros q Hq; apply Hsub; by right).
    cbn [app Impl.parse_oec_pages].
    unfold anchored_boxes in Hp.
    destruct (contains _ _); cbn [negb]; [|by apply IH].
    destruct (find_section_anchor_y _ _) as [anchor_y|]; [|by apply IH].
    destruct Hp as [Hp|Hp]; [done|]. injection Hp as Hp.
    destruct (cached_render_page p rc) as (rc' & -> & Hrc');
      [apply Hsub; by left|done|].
    unfold render_of. cbv zeta. rewrite Hp. by apply IH.
Qed.

Lemma parse_oec_pages_none (pages : list page) :
  forall rc,
  Forall (fun p => anchored_boxes (py "8.1.3") 30 p = None
                   \/ anchored_boxes (py "8.1.3") 30 p = Some []) pages ->
  (Impl.parse_oec_pages pages rc).1 = py "n/a".
Proof.
  induction pages as [|p pages IH]; intros rc Hs; [done|].
  apply Forall_cons in Hs as [Hp Hs].
  cbn [Impl.parse_oec_pages]. unfold anchored_boxes in Hp.
  destruct (contains _ _); cbn [negb]; [|by apply IH].
  destruct (find_section_anchor_y _ _) as [anchor_y|]; [|by apply IH].
  destruct Hp as [Hp|Hp]; [done|]. injection Hp as Hp.
  destruct (cached_render p rc) as [[[pil sx] sy] rc'].
  rewrite Hp. by apply IH.
Qed.

Lemma parse_assoc_assessments_pages_first (skipped : list page) :
  forall (pg : page) (later : list page) (rc : render_cache),
  (forall p, p ∈ skipped ++ pg :: later -> p ∈ pages0) ->
  coherent pages0 rc ->
  Forall (fun p => assoc_boxes p = None) skipped ->
  forall boxes,
  assoc_boxes pg = Some boxes ->
  (Impl.parse_assoc_assessments_pages (skipped ++ pg :: later) rc).1
  = assoc_choice pg boxes.
Proof.
  induction skipped as [|p skipped IH]; intros pg later rc Hsub Hrc Hs boxes Hpg.
  - cbn [app Impl.parse_assoc_assessments_pages].
    unfold assoc_boxes, find_section_anchor_y in Hpg. cbv zeta in Hpg.
    rewrite <- assoc_anchor_loop_same in Hpg.
    destruct (contains (py "16.2.") _), (contains (py "Association Assessments") _);
      try done. cbn [negb orb].
    destruct (Impl.assoc_anchor_loop _ _ _) as [anchor_y|]; [|done].
    injection Hpg as Hpg. rewrite Hpg. unfold assoc_choice.
    destruct boxes as [|cb0 cbs]; [done|].
    destruct (cached_render_page pg rc) as (rc' & -> & _);
      [apply Hsub; by left|done|].
    unfold page_brightness, render_of. cbv zeta. by branch.
  - apply Forall_cons in Hs as [Hp Hs].
    assert (Hsub' : forall q, q ∈ skipped ++ pg :: later -> q ∈ pages0)
      by (intros q Hq; apply Hsub; by right).
    cbn [app Impl.parse_assoc_assessments_pages].
    unfold assoc_boxes, find_section_anchor_y in Hp. cbv zeta in Hp.
    rewrite <- assoc_anchor_loop_same in Hp.
    destruct (contains (py "16.2.") _), (contains (py "Association Assessments") _);
      cbn [negb orb andb] in *; try by apply IH.
    destruct (Impl.assoc_anchor_loop _ _ _) as [anchor_y|]; [done|].
    by apply IH.
Qed.

Lemma parse_assoc_assessments_pages_none (pages : list page) :
  forall rc,
  Forall (fun p => assoc_boxes p = None) pages ->
  Impl.parse_assoc_assessments_pages pages rc = (py "n/a", rc).
Proof.
  induction pages as [|p pages IH]; intros rc Hs; [done|].
  apply Forall_cons in Hs as [Hp Hs].
  cbn [Impl.parse_assoc_assessments_pages].
  unfold assoc_boxes, find_section_anchor_y in Hp. cbv zeta in Hp.
  rewrite <- assoc_anchor_loop_same in Hp.
  destruct (contains (py "16.2.") _), (contains (py "Association Assessments") _);
    cbn [negb orb andb] in *; try by apply IH.
  destruct (Impl.assoc_anchor_loop _ _ _) as [anchor_y|]; [done|].
  by apply IH.
Qed.

(** The cache that the deciding page leaves: untouched without a checkbox
    between the headers, else with the render of that page. *)
Lemma parse_assoc_assessments_pages_render (skipped : list page) :
  forall (pg : page) (later : list page) (rc : render_cache),
  Forall (fun p => assoc_boxes p = None) skipped ->
  forall boxes,
  assoc_boxes pg = Some boxes ->
  (Impl.parse_assoc_assessments_pages (skipped ++ pg :: later) rc).2
  = match boxes with
    | [] => rc
    | _ :: _ => rendered pg rc
    end.
Proof.
  induction skipped as [|p skipped IH]; intros pg later rc Hs boxes Hpg.
  - cbn [app Impl.parse_assoc_assessments_pages].
    unfold assoc_boxes, find_section_anchor_y in Hpg. cbv zeta in Hpg.
    rewrite <- assoc_anchor_loop_same in Hpg.
    destruct (contains (py "16.2.") _), (contains (py "Association Assessments") _);
      try done. cbn [negb orb].
    destruct (Impl.assoc_anchor_loop _ _ _) as [anchor_y|]; [|done].
    injection Hpg as Hpg. rewrite Hpg.
    destruct boxes as [|cb0 cbs]; [done|].
    unfold cached_render, rendered, render_of.
    destruct (rc !! page_id pg) as [[[pil sx] sy]|]; cbv zeta; by branch.
  - apply Forall_cons in Hs as [Hp Hs].
    cbn [app Impl.parse_assoc_assessments_pages].
    unfold assoc_boxes, find_section_anchor_y in Hp. cbv zeta in Hp.
    rewrite <- assoc_anchor_loop_same in Hp.
    destruct (contains (py "16.2.") _), (contains (py "Association Assessments") _);
      cbn [negb orb andb] in *; try by apply IH.
    destruct (Impl.assoc_anchor_loop _ _ _) as [anchor_y|]; [done|].
    by apply IH.
Qed.

End FirstPage.

(** X26: the page that decides title insurance.  The pages are taken in
    order; a page is passed over when its text lacks "8.1.1", when the
    header is not found, or when no checkbox lies from 100 under the
    header to 5 over it.  The first other page decides: "n/a" when the
    darkest of these checkboxes is brighter than 150, else the value of
    its label; no later page is read.  When every page is passed over the
    result is "n/a". *)
Theorem parse_title_insurance_first_page (d : pdf) (rc : render_cache) :
  NoDup (page_id <$> pdf_pages d) ->
  coherent (pdf_pages d) rc ->
  (Forall (fun p => anchored_boxes (py "8.1.1") 100 p = None
                    \/ anchored_boxes (py "8.1.1") 100 p = Some [])
     (pdf_pages d) ->
   (Impl.parse_title_insurance d rc).1 = py "n/a")
  /\ (forall skipped pg later cb0 cbs,
        pdf_pages d = skipped ++ pg :: later ->
        Forall (fun p => anchored_boxes (py "8.1.1") 100 p = None
                         \/ anchored_boxes (py "8.1.1") 100 p = Some [])
          skipped ->
        anchored_boxes (py "8.1.1") 100 pg = Some (cb0 :: cbs) ->
        (Impl.parse_title_insurance d rc).1
        = title_insurance_choice pg cb0 cbs).
Proof.
  intros Hnd Hrc. split.
  - apply parse_title_insurance_pages_none.
  - intros skipped pg later cb0 cbs Hp Hs Hpg.
    unfold Impl.parse_title_insurance. rewrite Hp.
    apply (parse_title_insurance_pages_first (pdf_pages d) Hnd); try done.
    intros p. by rewrite Hp.
Qed.

Lemma parse_title_insurance_first_page_witness :
  let d := Pdf [sample_page] in
  NoDup (page_id <$> pdf_pages d)
  /\ coherent (pdf_pages d) ∅
  /\ anchored_boxes (py "8.1.1") 100 sample_page
     = Some [Image 110 680 120.5 690.5]
  /\ (Impl.parse_title_insurance d ∅).1
     = title_insurance_choice sample_page (Image 110 680 120.5 690.5) []
  /\ title_insurance_choice sample_page (Image 110 680 120.5 690.5) []
     = py "Seller Pays".
Proof.
  cbv zeta.
  assert (Hnd : NoDup (page_id <$> pdf_pages (Pdf [sample_page])))
    by (cbn; apply NoDup_singleton).
  assert (Hb : anchored_boxes (py "8.1.1") 100 sample_page
               = Some [Image 110 680 120.5 690.5]) by (by vm_compute).
  split; [exact Hnd|]. split; [apply coherent_empty|]. split; [exact Hb|].
  split; [|by vm_compute].
  exact (proj2 (parse_title_insurance_first_page (Pdf [sample_page]) ∅ Hnd
                  (coherent_empty _))
           [] sample_page [] _ _ eq_refl (Forall_nil_2 _) Hb).
Defined.

(** X27: the page that decides the OEC.  As for title insurance, with
    "8.1.3" and the checkboxes from 30 under the header to 5 over it; the
    label of the darkest checkbox ends at the next checkbox on its line. *)
Theorem parse_oec_first_page (d : pdf) (rc : render_cache) :
  NoDup (page_id <$> pdf_pages d) ->
  coherent (pdf_pages d) rc ->
  (Forall (fun p => anchored_boxes (py "8.1.3") 30 p = None
                    \/ anchored_boxes (py "8.1.3") 30 p = Some [])
     (pdf_pages d) ->
   (Impl.parse_oec d rc).1 = py "n/a")
  /\ (forall skipped pg later cb0 cbs,
        pdf_pages d = skipped ++ pg :: later ->
        Forall (fun p => anchored_boxes (py "8.1.3") 30 p = None
                         \/ anchored_boxes (py "8.1.3") 30 p = Some [])
          skipped ->
        anchored_boxes (py "8.1.3") 30 pg = Some (cb0 :: cbs) ->
        (Impl.parse_oec d rc).1 = oec_choice pg cb0 cbs).
Proof.
  intros Hnd Hrc. split.
  - apply parse_oec_pages_none.
  - intros skipped pg later cb0 cbs Hp Hs Hpg.
    unfold Impl.parse_oec. rewrite Hp.
    apply (parse_oec_pages_first (pdf_pages d) Hnd); try done.
    intros p. by rewrite Hp.
Qed.

Lemma parse_oec_first_page_witness :
  let d := Pdf [sample_page] in
  NoDup (page_id <$> pdf_pages d)
  /\ coherent (pdf_pages d) ∅
  /\ Forall (fun p => anchored_boxes (py "8.1.3") 30 p = None
                      \/ anchored_boxes (py "8.1.3") 30 p = Some [])
       (pdf_pages d)
  /\ (Impl.parse_oec d ∅).1 = py "n/a".
Proof.
  cbv zeta.
  assert (Hnd : NoDup (page_id <$> pdf_pages (Pdf [sample_page])))
    by (cbn; apply NoDup_singleton).
  assert (Hs : Forall (fun p => anchored_boxes (py "8.1.3") 30 p = None
                               \/ anchored_boxes (py "8.1.3") 30 p = Some [])
                 (pdf_pages (Pdf [sample_page]))).
  { cbn. constructor; [left; by vm_compute|constructor]. }
  split; [exact Hnd|]. split; [apply coherent_empty|]. split; [exact Hs|].
  exact (proj1 (parse_oec_first_page (Pdf [sample_page]) ∅ Hnd
                  (coherent_empty _)) Hs).
Defined.

(** X28: the page that decides the association assessments.  A page is
    passed over when its text lacks "16.2." or "Association Assessments"
    or the header of section 16.2 is not found; the header search is that
    of [find_section_anchor_y].  The first other page decides.  Without a
    checkbox between the headers it gives "n/a" and asks for no render:
    the cache is as it was.  Otherwise the render of the page is taken
    from the cache, or made and added to it, and the page gives "n/a" when
    the darkest checkbox is brighter than 150, else the value of its
    label.  When every page is passed over the result is "n/a" and the
    cache is as it was. *)
Theorem parse_assoc_assessments_first_page (d : pdf) (rc : render_cache) :
  NoDup (page_id <$> pdf_pages d) ->
  coherent (pdf_pages d) rc ->
  (Forall (fun p => assoc_boxes p = None) (pdf_pages d) ->
   Impl.parse_assoc_assessments d rc = (py "n/a", rc))
  /\ (forall skipped pg later boxes,
        pdf_pages d = skipped ++ pg :: later ->
        Forall (fun p => assoc_boxes p = None) skipped ->
        assoc_boxes pg = Some boxes ->
        Impl.parse_assoc_assessments d rc
        = (assoc_choice pg boxes,
           match boxes with
           | [] => rc
           | _ :: _ => rendered pg rc
           end)).
Proof.
  intros Hnd Hrc. split.
  - apply parse_assoc_assessments_pages_none.
  - intros skipped pg later boxes Hp Hs Hpg.
    unfold Impl.parse_assoc_assessments. rewrite Hp.
    rewrite (surjective_pairing (Impl.parse_assoc_assessments_pages _ rc)).
    f_equal.
    + apply (parse_assoc_assessments_pages_first (pdf_pages d) Hnd); try done.
      intros p. by rewrite Hp.
    + by apply parse_assoc_assessments_pages_render.
Qed.

Lemma parse_assoc_assessments_first_page_witness :
  let cb := Image 110 680 120.5 690.5 in
  let d := Pdf [sample_page; assoc_page [cb]] in
  let d0 := Pdf [assoc_page []] in
  (NoDup (page_id <$> pdf_pages d) /\ coherent (pdf_pages d) ∅
   /\ assoc_boxes sample_page = None
   /\ assoc_boxes (assoc_page [cb]) = Some [cb]
   /\ Impl.parse_assoc_assessments d ∅
      = (assoc_choice (assoc_page [cb]) [cb], rendered (assoc_page [cb]) ∅)
   /\ assoc_choice (assoc_page [cb]) [cb] = py "Buyer Pays"
   /\ rendered (assoc_page [cb]) ∅ !! 8%positive = Some (render_of (assoc_page [cb])))
  /\ (NoDup (page_id <$> pdf_pages d0) /\ coherent (pdf_pages d0) ∅
      /\ assoc_boxes (assoc_page []) = Some []
      /\ Impl.parse_assoc_assessments d0 ∅ = (py "n/a", ∅)).
Proof.
  cbv zeta.
  set (cb := Image 110 680 120.5 690.5).
  assert (Hnd : NoDup (page_id <$> pdf_pages (Pdf [sample_page; assoc_page [cb]]))).
  { cbn. apply NoDup_cons. split; [|apply NoDup_singleton].
    intros H. apply list_elem_of_singleton in H. discriminate H. }
  assert (Hnd0 : NoDup (page_id <$> pdf_pages (Pdf [assoc_page []])))
    by (cbn; apply NoDup_singleton).
  assert (Hs : assoc_boxes sample_page = None) by (by vm_compute).
  assert (Hb : assoc_boxes (assoc_page [cb]) = Some [cb]) by (by vm_compute).
  assert (Hb0 : assoc_boxes (assoc_page []) = Some []) by (by vm_compute).
  split.
  - split; [exact Hnd|]. split; [apply coherent_empty|].
    split; [exact Hs|]. split; [exact Hb|].
    split; [|split; [by vm_compute|apply lookup_insert_eq]].
    exact (proj2 (parse_assoc_assessments_first_page
                    (Pdf [sample_page; assoc_page [cb]]) ∅ Hnd
                    (coherent_empty _))
             [sample_page] (assoc_page [cb]) [] [cb] eq_refl
             (Forall_cons_2 _ _ _ Hs (Forall_nil_2 _)) Hb).
  - split; [exact Hnd0|]. split; [apply coherent_empty|].
    split; [exact Hb0|].
    exact (proj2 (parse_assoc_assessments_first_page (Pdf [assoc_page []]) ∅
                    Hnd0 (coherent_empty _))
             [] (assoc_page []) [] [] eq_refl (Forall_nil_2 _) Hb0).
Defined.

(** ** Lazy repetition *)

(** The unfolding of [r*?] is deep enough once it is as deep as the
    subject is long: one level more changes nothing. *)
Lemma lazy_star_bound {A} (p : ascii -> bool) (n : nat) :
  forall (c : cursor) (g : groups) (k : cursor -> groups -> option A),
  (length (rest c) <= n)%nat ->
  rmatch (LazyStar (S n) (Cls p)) c g k = rmatch (LazyStar n (Cls p)) c g k.
Proof.
  induction n as [|n IH]; intros c g k Hn.
  - destruct (rest c) as [|x t] eqn:E; [|cbn in Hn; lia].
    cbn [LazyStar rmatch]. rewrite E. by destruct (k c g).
  - change (LazyStar (S (S n)) (Cls p))
      with (Alt Eps (Seq (Cls p) (LazyStar (S n) (Cls p)))).
    change (LazyStar (S n) (Cls p))
      with (Alt Eps (Seq (Cls p) (LazyStar n (Cls p)))) at 2.
    cbn [rmatch]. destruct (k c g); [done|].
    destruct (rest c) as [|x t] eqn:E; [done|].
    destruct (p x); [|done]. apply IH. cbn [rest]. cbn in Hn. lia.
Qed.

Lemma matches_lazy_star_cls (p : ascii -> bool) (n : nat) :
  forall c g w g1,
  matches (LazyStar n (Cls p)) c g w g1 ->
  Forall (fun x => p x = true) w /\ g1 = g.
Proof.
  induction n as [|n IH]; intros c g w g1 H; cbn [LazyStar] in H.
  - inversion H; subst. by split.
  - inversion H; subst; clear H.
    + match goal with H : matches Eps _ _ _ _ |- _ => inversion H; subst end.
      by split.
    + match goal with
      | H : matches (Seq _ _) _ _ _ _ |- _ => inversion H; subst; clear H
      end.
      match goal with
      | H : matches (Cls _) _ _ _ _ |- _ => inversion H; subst; clear H
      end.
      match goal with
      | H : matches (LazyStar _ _) _ _ _ _ |- _ =>
          apply IH in H as [Hw ->]
      end.
      split; [|done]. by constructor.
Qed.

Lemma matches_lazy_plus_cls (p : ascii -> bool) (n : nat) c g w g1 :
  matches (LazyPlus n (Cls p)) c g w g1 ->
  w <> [] /\ Forall (fun x => p x = true) w /\ g1 = g.
Proof.
  unfold LazyPlus. intros H. inversion H; subst; clear H.
  match goal with
  | H : matches (Cls _) _ _ _ _ |- _ => inversion H; subst; clear H
  end.
  match goal with
  | H : matches (LazyStar _ _) _ _ _ _ |- _ =>
      apply matches_lazy_star_cls in H as [Hw ->]
  end.
  split; [done|]. split; [|done]. by constructor.
Qed.

Ltac lazy_facts :=
  repeat match goal with
    | H : matches (LazyPlus _ (Cls _)) _ _ _ _ |- _ =>
        apply matches_lazy_plus_cls in H as (? & ? & ?)
    end.

(** ** The buyer *)

Lemma lstrip_suffix (s : str) : exists l, s = l ++ lstrip s.
Proof.
  induction s as [|x s [l IH]]; [by exists []|]. cbn [lstrip].
  destruct (is_space x); [|by exists []].
  exists (x :: l). cbn. by rewrite <- IH.
Qed.

Lemma strip_infix (s : str) : exists l r, s = l ++ strip s ++ r.
Proof.
  destruct (lstrip_suffix s) as [l Hl].
  destruct (lstrip_suffix (rev (lstrip s))) as [r Hr].
  exists l, (rev r). unfold strip, rstrip. rewrite <- rev_app_distr, <- Hr.
  by rewrite rev_involutive.
Qed.

Lemma not_newline_iff (x : ascii) : not_newline x = true <-> x <> newline.
Proof.
  unfold not_newline. rewrite negb_true_iff.
  split.
  - intros H ->. unfold chr_eqb in H. by rewrite Ascii.eqb_refl in H.
  - intros H. destruct (chr_eqb x newline) eqn:E; [|done].
    by apply chr_eqb_eq in E.
Qed.

Lemma buyer_match (text : str) (m : rematch) :
  re_search (Impl.buyer_re (length text)) text = Some m ->
  exists g, buyer_clause text g /\ group text m 1 = Some g.
Proof.
  intros H. apply re_search_sound in H as (pre & w & post & Hs & _ & _ & Hm).
  unfold Impl.buyer_re in Hm. cbn [Seqs fold_right] in Hm.
  inv_matches; class_facts; lazy_facts; subst.
  repeat match goal with H : rest _ = _ |- _ => clear H end.
  match goal with
  | H : m_groups m = _ |- _ => rename H into Hg
  | H : _ = m_groups m |- _ => symmetry in H; rename H into Hg
  end.
  match goal with
  | H : Forall (fun x => not_newline x = true) ?g |- _ => exists g
  end.
  split.
  - match goal with
    | |- buyer_clause (?p ++ (_ ++ ?a ++ _ ++ ?b ++ ?g ++ ?c ++ _ ++ []) ++ ?po) _ =>
        exists p, a, b, c, po
    end.
    split; [cbn [app]; by rewrite ?app_nil_r, <- !app_assoc|].
    do 5 (split; [assumption|]). split; [|assumption].
    match goal with H : Forall (fun x => not_newline x = true) _ |- _ =>
      eapply Forall_impl; [exact H|] end.
    intros y Hy. by apply not_newline_iff.
  - unfold group. rewrite Hg, lookup_insert_eq. rewrite ?app_nil_r.
    match goal with
    | |- context [slice (?p ++ (?l1 ++ ?a ++ ?l2 ++ ?b ++ ?g ++ ?rest) ++ ?po)] =>
        replace (p ++ (l1 ++ a ++ l2 ++ b ++ g ++ rest) ++ po)
          with ((p ++ l1 ++ a ++ l2 ++ b) ++ g ++ (rest ++ po))
          by (by rewrite <- !app_assoc)
    end.
    rewrite slice_middle; [done|].
    cbn [advance pos start_of]. rewrite !length_app. lia.
Qed.

Lemma elem_of_strip (x : ascii) (s : str) : x ∈ strip s -> x ∈ s.
Proof.
  destruct (strip_infix s) as (l & r & Hs). intros Hx. rewrite Hs.
  rewrite !elem_of_app. tauto.
Qed.

(** X14: the buyer.  The result of [parse_buyer] neither starts nor ends
    with white space and holds no newline.  When it is not empty, the text
    holds a buyer clause and the result is its name, stripped.  Without
    "(Buyer)" in the text the result is empty. *)
Theorem parse_buyer_spec (text : str) :
  stripped (Impl.parse_buyer text)
  /\ (newline ∉ Impl.parse_buyer text)
  /\ (Impl.parse_buyer text <> [] ->
      exists g, buyer_clause text g /\ Impl.parse_buyer text = strip g)
  /\ (contains (py "(Buyer)") text = false -> Impl.parse_buyer text = []).
Proof.
  unfold Impl.parse_buyer.
  destruct (re_search _ text) as [m|] eqn:E.
  - apply buyer_match in E as (g & Hc & ->). cbn [default from_option id].
    unfold id. split; [apply strip_stripped|]. split; [|split].
    + intros Hn%elem_of_strip.
      destruct Hc as (pre & ws1 & ws2 & ws3 & post & _ & _ & _ & _ & _ & _
                      & Hg & _).
      rewrite Forall_forall in Hg. by apply (Hg newline).
    + intros _. by exists g.
    + intros Hno. exfalso.
      destruct Hc as (pre & ws1 & ws2 & ws3 & post & -> & _).
      assert (Hin : contains (py "(Buyer)")
                (pre ++ py "2.1." ++ ws1 ++ py "Buyer." ++ ws2 ++ g ++ ws3
                 ++ py "(Buyer)" ++ post) = true); [|congruence].
      apply contains_spec.
      exists (pre ++ py "2.1." ++ ws1 ++ py "Buyer." ++ ws2 ++ g ++ ws3), post.
      by rewrite <- !app_assoc.
  - split; [by split|]. split; [apply not_elem_of_nil|]. split; done.
Qed.

(** ** The agent *)

Lemma split_lines_aux_no_newline (s : str) : forall cur,
  newline ∉ cur -> Forall (fun l => newline ∉ l) (split_lines_aux cur s).
Proof.
  induction s as [|c s IH]; intros cur Hcur; cbn [split_lines_aux].
  - constructor; [|constructor].
    by rewrite list_elem_of_In, <- in_rev, <- list_elem_of_In.
  - destruct (chr_eqb c newline) eqn:E.
    + constructor; [|apply IH, not_elem_of_nil].
      by rewrite list_elem_of_In, <- in_rev, <- list_elem_of_In.
    + apply IH. rewrite elem_of_cons. intros [<-|H]; [|done].
      unfold chr_eqb in E. by rewrite Ascii.eqb_refl in E.
Qed.

Lemma nonblank_lines_facts (text : str) :
  Forall (fun l => l <> [] /\ stripped l /\ (newline ∉ l))
    (Impl.nonblank_lines text).
Proof.
  unfold Impl.nonblank_lines. apply Forall_fmap, Forall_forall.
  intros l Hl. apply list_elem_of_In, filter_In in Hl as [Hl Hne].
  cbn. split; [|split].
  - intros E. rewrite E in Hne. done.
  - apply strip_stripped.
  - intros Hn%elem_of_strip.
    pose proof (split_lines_aux_no_newline text [] (not_elem_of_nil _)) as H.
    rewrite Forall_forall in H. apply (H l); [|done].
    by apply list_elem_of_In.
Qed.

(** X15: the agent.  [parse_agent] raises exactly on a document without
    pages.  Otherwise it returns the second line, stripped, of the lines
    of the first page that are not blank, or the empty string when there
    are fewer than two; the result holds no newline and neither starts nor
    ends with white space. *)
Theorem parse_agent_spec (d : pdf) :
  (Impl.parse_agent d = None <-> pdf_pages d = [])
  /\ forall name, Impl.parse_agent d = Some name ->
       stripped name /\ (newline ∉ name)
       /\ exists pg pages,
            pdf_pages d = pg :: pages
            /\ name = default []
                        (Impl.nonblank_lines (default [] (extract_text pg))
                         !! 1%nat).
Proof.
  unfold Impl.parse_agent. destruct (pdf_pages d) as [|pg pages].
  - split; [done|]. intros name [=].
  - split; [done|]. intros name [= <-].
    pose proof (nonblank_lines_facts (default [] (extract_text pg))) as H.
    destruct (Impl.nonblank_lines _) as [|l0 [|l1 ls]] eqn:E.
    + split; [by split|]. split; [apply not_elem_of_nil|].
      exists pg, pages. by rewrite E.
    + split; [by split|]. split; [apply not_elem_of_nil|].
      exists pg, pages. by rewrite E.
    + apply Forall_cons in H as [_ H].
      apply Forall_cons in H as [(_ & H1 & H2) _].
      split; [done|]. split; [done|]. exists pg, pages. by rewrite E.
Qed.

(** ** The seller concession *)

Lemma not_lparen_iff (x : ascii) : not_lparen x = true <-> x <> "("%char.
Proof.
  unfold not_lparen. rewrite negb_true_iff. split.
  - intros H ->. unfold chr_eqb in H. by rewrite Ascii.eqb_refl in H.
  - intros H. destruct (chr_eqb x "("%char) eqn:E; [|done].
    by apply chr_eqb_eq in E.
Qed.

Lemma concession_match (text : str) (m : rematch) :
  re_search Impl.concession_re text = Some m ->
  exists x g, concession_clause text x g /\ group text m 1 = Some g.
Proof.
  intros H. apply re_search_sound in H as (pre & w & post & Hs & _ & _ & Hm).
  unfold Impl.concession_re in Hm. cbn [Seqs fold_right] in Hm.
  inv_matches; class_facts; subst.
  repeat match goal with H : rest _ = _ |- _ => clear H end.
  match goal with
  | H : m_groups m = _ |- _ => rename H into Hg
  | H : _ = m_groups m |- _ => symmetry in H; rename H into Hg
  end.
  match goal with
  | H : Forall (fun x => not_lparen x = true) ?g,
    H' : not_newline ?x = true |- _ => exists x, g
  end.
  split.
  - exists pre, post.
    split; [by rewrite app_nil_r, <- !app_assoc|].
    split; [by apply not_newline_iff|]. split; [assumption|].
    match goal with H : Forall (fun x => not_lparen x = true) _ |- _ =>
      eapply Forall_impl; [exact H|] end.
    intros y Hy. by apply not_lparen_iff.
  - unfold group. rewrite Hg, lookup_insert_eq. rewrite ?app_nil_r.
    match goal with
    | |- context [slice (?p ++ (?l1 ++ [?x] ++ ?g ++ ?rest) ++ ?po)] =>
        replace (p ++ (l1 ++ [x] ++ g ++ rest) ++ po)
          with ((p ++ l1 ++ [x]) ++ g ++ (rest ++ po))
          by (by rewrite <- !app_assoc)
    end.
    rewrite slice_middle; [done|].
    cbn [advance pos start_of]. rewrite !length_app.
    change (length (py "credit to Buyer ")) with 16%nat. cbn [length]. lia.
Qed.

Lemma not_elem_of_remove_chr (x : ascii) (s : str) : x ∉ remove_chr x s.
Proof.
  unfold remove_chr. rewrite list_elem_of_In, filter_In.
  intros [_ H]. apply negb_true_iff in H.
  unfold chr_eqb in H. by rewrite Ascii.eqb_refl in H.
Qed.

Lemma elem_of_remove_chr (x y : ascii) (s : str) :
  y ∈ remove_chr x s -> y ∈ s.
Proof.
  unfold remove_chr. rewrite !list_elem_of_In, filter_In. tauto.
Qed.

Section ConcessionFacts.

Variable float_of_str : str -> option Q.

(** X16: the seller concession is always a number.  Without a concession
    clause, and so without "(Seller Concession)" in the text, it is 0.
    With one, the amount text is what follows the character after
    "credit to Buyer ", stripped and without commas and dollar signs: that
    one character is never part of the amount.  The result is 0 when the
    amount text is empty, "N/A" or "NA" in any letter case, or when
    [float] rejects it, else the number that [float] reads. *)
Theorem parse_concession_spec (text : str) :
  match Impl.concession_raw text with
  | None => Impl.parse_concession float_of_str text = VNum 0
  | Some raw =>
      (exists x g,
         concession_clause text x g
         /\ raw = remove_chr "$"%char (remove_chr ","%char (strip g)))
      /\ Forall (fun y => y ∉ [","%char; "$"%char; "("%char]) raw
      /\ Impl.parse_concession float_of_str text
         = VNum (if Impl.is_na raw then 0%Q
                 else default 0%Q (float_of_str raw))
  end
  /\ (contains (py "(Seller Concession)") text = false ->
      Impl.parse_concession float_of_str text = VNum 0).
Proof.
  unfold Impl.parse_concession, Impl.concession_raw.
  destruct (re_search _ text) as [m|] eqn:E; [|done].
  apply concession_match in E as (x & g & Hc & ->).
  cbn [default from_option id]. unfold id.
  set (raw := remove_chr "$"%char (remove_chr ","%char (strip g))).
  split; [split; [|split]|].
  - by exists x, g.
  - apply Forall_forall. intros y Hy Hin.
    destruct Hc as (pre & post & _ & _ & _ & Hg).
    rewrite Forall_forall in Hg.
    apply elem_of_cons in Hin as [->|Hin];
      [|apply elem_of_cons in Hin as [->|Hin];
        [|apply list_elem_of_singleton in Hin as ->]].
    + apply elem_of_remove_chr in Hy. by apply not_elem_of_remove_chr in Hy.
    + by apply not_elem_of_remove_chr in Hy.
    + do 2 apply elem_of_remove_chr in Hy. apply elem_of_strip in Hy.
      by apply (Hg "("%char).
  - destruct (Impl.is_na raw); [done|]. by destruct (float_of_str raw).
  - intros Hno. exfalso.
    destruct Hc as (pre & post & -> & _).
    assert (Hin : contains (py "(Seller Concession)")
              (pre ++ py "credit to Buyer " ++ [x] ++ g
               ++ py "(Seller Concession)" ++ post) = true); [|congruence].
    apply contains_spec.
    exists (pre ++ py "credit to Buyer " ++ [x] ++ g), post.
    by rewrite <- !app_assoc.
Qed.

End ConcessionFacts.

(** ** The blocks of inclusions, exclusions and provisions *)

Ltac literal_lengths :=
  repeat match goal with
         | |- context [length (py ?s)] =>
             let n := eval vm_compute in (length (py s)) in
             change (length (py s)) with n
         end.

Lemma inclusions_match (window : str) (n : nat) (m : rematch) :
  re_search (Impl.inclusions_re n) window = Some m ->
  exists g, inclusions_block window g /\ group window m 1 = Some g.
Proof.
  intros H. apply re_search_sound in H as (pre & w & post & Hs & _ & _ & Hm).
  unfold Impl.inclusions_re in Hm. cbn [Seqs fold_right Alts fold_left] in Hm.
  inv_matches; class_facts; lazy_facts; subst;
    repeat match goal with H : rest _ = _ |- _ => clear H end;
    match goal with
    | H : m_groups m = _ |- _ => rename H into Hg
    | H : _ = m_groups m |- _ => symmetry in H; rename H into Hg
    end;
    match goal with
    | H : Forall (fun x => any_chr x = true) ?g |- _ => exists g
    end;
    (split;
     [match goal with
      | |- inclusions_block (?p ++ (_ ++ ?a ++ _ ++ ?g ++ ?stop ++ []) ++ ?po) _ =>
          exists p, a, stop, po
      end;
      split; [by rewrite app_nil_r, <- !app_assoc|];
      split; [assumption|]; split; [assumption|];
      repeat first [apply list_elem_of_here | apply list_elem_of_further]
     |unfold group; rewrite Hg, lookup_insert_eq; rewrite ?app_nil_r;
      match goal with
      | |- context [slice (?p ++ (?l1 ++ ?a ++ ?l2 ++ ?g ++ ?rest) ++ ?po)] =>
          replace (p ++ (l1 ++ a ++ l2 ++ g ++ rest) ++ po)
            with ((p ++ l1 ++ a ++ l2) ++ g ++ (rest ++ po))
            by (by rewrite <- !app_assoc)
      end;
      rewrite slice_middle; [done|];
      cbn [advance pos start_of]; rewrite !length_app; literal_lengths;
      cbn [length]; lia]).
Qed.

Lemma exclusions_match (window : str) (n : nat) (m : rematch) :
  re_search (Impl.exclusions_re n) window = Some m ->
  exists g, exclusions_block window g /\ group window m 1 = Some g.
Proof.
  intros H. apply re_search_sound in H as (pre & w & post & Hs & _ & _ & Hm).
  unfold Impl.exclusions_re, Opt in Hm.
  cbn [Seqs fold_right Alts fold_left] in Hm.
  inv_matches; class_facts; lazy_facts; subst;
    repeat match goal with H : rest _ = _ |- _ => clear H end;
    match goal with
    | H : m_groups m = _ |- _ => rename H into Hg
    | H : _ = m_groups m |- _ => symmetry in H; rename H into Hg
    end;
    match goal with
    | H : Forall (fun x => any_chr x = true) ?g |- _ => exists g
    end;
    (split;
     [match goal with
      | |- exclusions_block (?p ++ (_ ++ ?a ++ ?nl ++ ?g ++ ?stop ++ []) ++ ?po) _ =>
          exists p, a, nl, stop, po
      end;
      split; [by rewrite app_nil_r, <- !app_assoc|];
      split; [assumption|];
      split; [repeat first [apply list_elem_of_here
                           | apply list_elem_of_further]|];
      split; [assumption|];
      repeat first [apply list_elem_of_here | apply list_elem_of_further]
     |unfold group; rewrite Hg, lookup_insert_eq; rewrite ?app_nil_r;
      match goal with
      | |- context [slice (?p ++ (?l1 ++ ?a ++ ?l2 ++ ?g ++ ?rest) ++ ?po)] =>
          replace (p ++ (l1 ++ a ++ l2 ++ g ++ rest) ++ po)
            with ((p ++ l1 ++ a ++ l2) ++ g ++ (rest ++ po))
            by (by rewrite <- !app_assoc)
      end;
      rewrite slice_middle; [done|];
      cbn [advance pos start_of]; rewrite !length_app; literal_lengths;
      cbn [length]; lia]).
Qed.

Lemma search_with_sound (mf : cursor -> option rematch) (l : str) :
  forall p pv m,
  search_with mf p pv l = Some m ->
  exists pre t, l = pre ++ t /\ mf (advance (Cursor p pv l) pre) = Some m.
Proof.
  induction l as [|x t IH]; intros p pv m H; cbn [search_with] in H.
  - destruct (mf _) as [m'|] eqn:E; [|done]. injection H as ->.
    exists [], []. by rewrite advance_nil.
  - destruct (mf _) as [m'|] eqn:E.
    + injection H as ->. exists [], (x :: t). by rewrite advance_nil.
    + apply IH in H as (pre & t' & -> & Hm).
      exists (x :: pre), t'. split; [done|].
      change (x :: pre) with ([x] ++ pre). by rewrite <- advance_app.
Qed.

Lemma re_search_ahead_sound (r : regex) (ahead : str -> bool) (s : str)
    (m : rematch) :
  re_search_ahead r ahead s = Some m ->
  exists pre w post,
    s = pre ++ w ++ post
    /\ matches r (advance (start_of s) pre) ∅ w (m_groups m)
    /\ ahead post = true.
Proof.
  unfold re_search_ahead. intros H.
  apply search_with_sound in H as (pre & t & Hs & Hm).
  fold (start_of s) in Hm. unfold match_at_ahead in Hm.
  apply rmatch_sound in Hm as (w & g1 & post & Hw & Hr & Hk).
  rewrite (rest_advance (start_of s) pre t Hs) in Hr.
  rewrite (rest_advance _ w post) in Hk
    by (by rewrite (rest_advance (start_of s) pre t Hs)).
  destruct (ahead post) eqn:Ha; [|done]. injection Hk as <-.
  exists pre, w, post. split; [by rewrite Hs, Hr|]. by split.
Qed.

Lemma provisions_match (window : str) (n : nat) (m : rematch) :
  re_search_ahead (Impl.provisions_re n) Impl.before_31 window = Some m ->
  exists g, provisions_block window g /\ group window m 1 = Some g.
Proof.
  intros H.
  apply re_search_ahead_sound in H as (pre & w & post & Hs & Hm & Ha).
  unfold Impl.before_31 in Ha. apply startswith_prefix in Ha as [post' ->].
  unfold Impl.provisions_re in Hm. cbn [Seqs fold_right] in Hm.
  inv_matches; class_facts; lazy_facts; subst.
  repeat match goal with H : rest _ = _ |- _ => clear H end.
  match goal with
  | H : m_groups m = _ |- _ => rename H into Hg
  | H : _ = m_groups m |- _ => symmetry in H; rename H into Hg
  end.
  match goal with
  | H : Forall (fun x => any_chr x = true) ?g |- _ => exists g
  end.
  split.
  - match goal with
    | |- provisions_block (?p ++ (_ ++ ?a ++ _ ++ ?g ++ []) ++ _) _ =>
        exists p, a, post'
    end.
    split; [|by split].
    rewrite app_nil_r, <- !app_assoc. done.
  - unfold group. rewrite Hg, lookup_insert_eq. rewrite ?app_nil_r.
    match goal with
    | |- context [slice (?p ++ (?l1 ++ ?a ++ ?l2 ++ ?g) ++ ?po)] =>
        replace (p ++ (l1 ++ a ++ l2 ++ g) ++ po)
          with ((p ++ l1 ++ a ++ l2) ++ g ++ po)
          by (by rewrite <- !app_assoc)
    end.
    rewrite slice_middle; [done|].
    cbn [advance pos start_of]. rewrite !length_app. literal_lengths.
    cbn [length]. lia.
Qed.

(** X13: what the block extractors read.  A result of [parse_inclusions]
    that is not empty, and a result of [parse_exclusions] or of
    [parse_additional_provisions] other than "n/a", is the squeezed block
    that follows the heading in the window of the text that starts at the
    first "2.5.3.", "2.6." or "30.": 500, 300 and 2000 characters. *)
Theorem block_extractors_read (text : str) :
  (Impl.parse_inclusions text <> [] ->
   exists idx g,
     find text (py "2.5.3.") = Some idx
     /\ inclusions_block (slice text idx (idx + 500)) g
     /\ Impl.parse_inclusions text = squeeze g)
  /\ (Impl.parse_exclusions text <> py "n/a" ->
      exists idx g,
        find text (py "2.6.") = Some idx
        /\ exclusions_block (slice text idx (idx + 300)) g
        /\ Impl.parse_exclusions text = squeeze g)
  /\ (Impl.parse_additional_provisions text <> py "n/a" ->
      exists idx g,
        find text (py "30.") = Some idx
        /\ provisions_block (slice text idx (idx + 2000)) g
        /\ Impl.parse_additional_provisions text = squeeze (strip g)).
Proof.
  split; [|split].
  - unfold Impl.parse_inclusions.
    destruct (find text _) as [idx|]; [|done]. cbv zeta.
    destruct (re_search _ _) as [m|] eqn:E; [|done]. intros _.
    apply inclusions_match in E as (g & Hb & ->). by exists idx, g.
  - unfold Impl.parse_exclusions.
    destruct (find text _) as [idx|]; [|done]. cbv zeta.
    destruct (re_search _ _) as [m|] eqn:E; [|done].
    apply exclusions_match in E as (g & Hb & ->).
    cbn [default from_option id]. unfold id.
    destruct (negb _); [|done]. intros _. by exists idx, g.
  - unfold Impl.parse_additional_provisions.
    destruct (find text _) as [idx|]; [|done]. cbv zeta.
    destruct (re_search_ahead _ _ _) as [m|] eqn:E; [|done].
    apply provisions_match in E as (g & Hb & ->).
    cbn [default from_option id]. unfold id.
    destruct (strip g) as [|x raw] eqn:Es; [done|].
    destruct (startswith _ _); [done|]. intros _. exists idx, g.
    by rewrite Es.
Qed.

(** ** The commission *)

Lemma commission_match (text : str) (m : rematch) :
  re_search commission_re text = Some m ->
  exists g, commission_clause text g /\ group text m 1 = Some g.
Proof.
  intros H. apply re_search_sound in H as (pre & w & post & Hs & _ & _ & Hm).
  unfold commission_re in Hm. cbn [Seqs fold_right] in Hm.
  inv_matches; class_facts; subst.
  repeat match goal with H : rest _ = _ |- _ => clear H end.
  match goal with
  | H : m_groups m = _ |- _ => rename H into Hg
  | H : _ = m_groups m |- _ => symmetry in H; rename H into Hg
  end.
  match goal with
  | H : Forall (fun x => digit_or_dot x = true) ?g |- _ => exists g
  end.
  split.
  - match goal with
    | |- commission_clause (?p ++ (_ ++ ?a ++ ?g ++ _ ++ ?b ++ _ ++ []) ++ ?po) _ =>
        exists p, a, b, po
    end.
    split; [by rewrite app_nil_r, <- !app_assoc|].
    do 5 (split; [assumption|]). assumption.
  - unfold group. rewrite Hg, lookup_insert_eq. rewrite ?app_nil_r.
    match goal with
    | |- context [slice (?p ++ (?l1 ++ ?a ++ ?g ++ ?rest) ++ ?po)] =>
        replace (p ++ (l1 ++ a ++ g ++ rest) ++ po)
          with ((p ++ l1 ++ a) ++ g ++ (rest ++ po))
          by (by rewrite <- !app_assoc)
    end.
    rewrite slice_middle; [done|].
    cbn [advance pos start_of]. rewrite !length_app. literal_lengths.
    cbn [length]. lia.
Qed.

(** X25: the commission.  A result of [parse_commission] is the float
    quotient by 100 of the float of the percentage of a commission clause
    of the text: 3% gives the float nearest to 0.03, and 2.8% gives
    0.027999999999999997, the float under the one nearest to 0.028.  There
    is no result without "29.1." in the text, nor when [float] rejects
    the percentage, as it does "1.2.3". *)
Theorem parse_commission_read (text : str) :
  (forall v, parse_commission text = Some v ->
     exists g a,
       commission_clause text g /\ py_float g = Some a
       /\ v = float_div (nearest_float a) 100)
  /\ (contains (py "29.1.") text = false -> parse_commission text = None)
  /\ parse_commission (py "29.1. 3% of the Purchase Price")
     = Some (nearest_float (3 # 100))
  /\ parse_commission (py "29.1. 2.8% of the Purchase Price")
     = Some (1008806316530991 # 36028797018963968)
  /\ nearest_float (28 # 1000) = (8070450532247929 # 288230376151711744)
  /\ parse_commission (py "29.1. 1.2.3% of the Purchase Price") = None.
Proof.
  split; [|split; [|repeat split; by vm_compute]].
  - intros v. unfold parse_commission.
    destruct (re_search _ _) as [m|] eqn:E; [|done].
    apply commission_match in E as (g & Hc & ->).
    destruct (py_float g) as [a|] eqn:Ea; [|done]. intros [= <-].
    by exists g, a.
  - intros Hno. unfold parse_commission.
    destruct (re_search _ _) as [m|] eqn:E; [|done]. exfalso.
    apply commission_match in E as (g & (pre & ws1 & ws2 & post & -> & _) & _).
    assert (Hin : contains (py "29.1.")
              (pre ++ py "29.1." ++ ws1 ++ g ++ py "%" ++ ws2
               ++ py "of the Purchase Price" ++ post) = true); [|congruence].
    apply contains_spec. by exists pre, (ws1 ++ g ++ py "%" ++ ws2
               ++ py "of the Purchase Price" ++ post).
Qed.

(** ** Amounts are not negative *)

Lemma py_float_nonneg (s : str) (v : Q) : py_float s = Some v -> (0 <= v)%Q.
Proof.
  unfold py_float. destruct (split_dot s) as [ip fo].
  set (fp := default [] fo).
  destruct (int_digits 0 ip) as [a|] eqn:Ha;
    [|intros H; by destruct ip, fp].
  destruct (int_digits 0 fp) as [b|] eqn:Hb;
    [|intros H; by destruct ip, fp].
  apply int_digits_nonneg in Ha; [|lia].
  apply int_digits_nonneg in Hb; [|lia].
  assert (Hv : (0 <= inject_Z (a * 10 ^ Z.of_nat (length fp) + b)
                     / inject_Z (10 ^ Z.of_nat (length fp)))%Q).
  { assert (Hp : 0 < 10 ^ Z.of_nat (length fp)) by (apply Z.pow_pos_nonneg; lia).
    apply Qle_shift_div_l.
    - change 0%Q with (inject_Z 0). rewrite <- Zlt_Qlt. lia.
    - rewrite Qmult_0_l. change 0%Q with (inject_Z 0). rewrite <- Zle_Qle. nia. }
  intros H.
  assert (Hq : v = Qred (inject_Z (a * 10 ^ Z.of_nat (length fp) + b)
                         / inject_Z (10 ^ Z.of_nat (length fp))))
    by (destruct ip, fp; try done; by injection H).
  rewrite Hq, Qred_correct. exact Hv.
Qed.

Lemma amount_of_nonneg (subject : str) (m : rematch) (v : Q) :
  amount_of subject m = Some v -> (0 <= v)%Q.
Proof.
  unfold amount_of. destruct (group subject m 1); [|done].
  apply py_float_nonneg.
Qed.

Lemma two_power_pos (e : Z) : (0 < two_power e)%Q.
Proof.
  unfold two_power. destruct (0 <=? e) eqn:E; [|done].
  apply Z.leb_le in E. change 0%Q with (inject_Z 0). rewrite <- Zlt_Qlt.
  by apply Z.pow_pos_nonneg.
Qed.

Lemma py_round_nonneg (x : Q) : (0 <= x)%Q -> 0 <= py_round x.
Proof.
  intros Hx. apply Qfloor_resp_le in Hx. change (Qfloor 0) with 0 in Hx.
  unfold py_round. cbv zeta.
  destruct (Qltb _ _); [done|]. destruct (Qltb _ _); [lia|].
  destruct (Z.even _); lia.
Qed.

(** Rounding to a float keeps the sign. *)
Lemma nearest_float_nonneg (q : Q) : (0 <= q)%Q -> (0 <= nearest_float q)%Q.
Proof.
  intros Hq. unfold nearest_float.
  destruct (q ?= 0)%Q eqn:E; [done| |].
  - apply Qlt_alt in E. exfalso. by apply (Qlt_not_le _ _ E).
  - unfold nearest_float_pos. cbv zeta. rewrite Qred_correct.
    apply Qmult_le_0_compat; [|apply Qlt_le_weak, two_power_pos].
    change 0%Q with (inject_Z 0). rewrite <- Zle_Qle.
    apply py_round_nonneg, Qle_shift_div_l; [apply two_power_pos|].
    by rewrite Qmult_0_l.
Qed.

(** X22: the purchase price, the earnest money, the loan amount and the
    commission are never negative. *)
Theorem amounts_not_negative (text : str) (v : Q) :
  (parse_price text = Some v -> (0 <= v)%Q)
  /\ (parse_earnest text = Some v -> (0 <= v)%Q)
  /\ (parse_new_loan text = Some v -> (0 <= v)%Q)
  /\ (parse_commission text = Some v -> (0 <= v)%Q).
Proof.
  split; [|split; [|split]].
  - unfold parse_price. destruct (find text _); [|done]. cbv zeta.
    destruct (re_search _ _); [|done]. apply amount_of_nonneg.
  - unfold parse_earnest. destruct (find text _); [|done]. cbv zeta.
    destruct (re_search _ _); [|done]. apply amount_of_nonneg.
  - unfold parse_new_loan. destruct (find text _); [|done]. cbv zeta.
    destruct (re_search _ _); [|by intros [= <-]].
    destruct (amount_of _ _) as [a|] eqn:E; [|done].
    apply amount_of_nonneg in E.
    destruct (Qgtb a 0); intros [= <-]; [done|apply Qle_refl].
  - unfold parse_commission. destruct (re_search _ _) as [m|]; [|done].
    destruct (group text m 1) as [g|]; [|done].
    destruct (py_float g) as [a|] eqn:E; [|done].
    apply py_float_nonneg in E. intros [= <-].
    apply nearest_float_nonneg, Qle_shift_div_l; [done|].
    rewrite Qmult_0_l. by apply nearest_float_nonneg.
Qed.

(** ** Brightness is a grey level *)

Lemma sum_Z_bounds (l : list Z) :
  Forall (fun p => 0 <= p <= 255) l ->
  0 <= sum_Z l <= 255 * Z.of_nat (length l).
Proof.
  induction 1 as [|p l Hp _ IH]; cbn [sum_Z fold_right length]; [lia|].
  fold (sum_Z l). lia.
Qed.

(** X23: the brightness of a checkbox is a grey level: it lies between 0
    and 255 when the pixels of the render do. *)
Theorem checkbox_brightness_grey_level (pdf_page : page) (cb_img : image)
    (pil_img : raster) (scale_x scale_y : Q) :
  (forall box, Forall (fun p => 0 <= p <= 255) (getdata pil_img box)) ->
  (0 <= checkbox_brightness pdf_page cb_img pil_img scale_x scale_y <= 255)%Q.
Proof.
  intros Hpix. unfold checkbox_brightness. cbv zeta.
  specialize (Hpix (crop_box pdf_page cb_img scale_x scale_y)).
  destruct (getdata pil_img _) as [|p pixels] eqn:E; [done|].
  apply sum_Z_bounds in Hpix.
  set (n := Z.of_nat (length (p :: pixels))) in *.
  assert (Hn : 0 < n) by (unfold n; cbn [length]; lia).
  assert (Hnq : (0 < inject_Z n)%Q)
    by (change 0%Q with (inject_Z 0); by rewrite <- Zlt_Qlt).
  split.
  - apply Qle_shift_div_l; [done|]. rewrite Qmult_0_l.
    change 0%Q with (inject_Z 0). rewrite <- Zle_Qle. lia.
  - apply Qle_shift_div_r; [done|].
    change 255%Q with (inject_Z 255). rewrite <- inject_Z_mult, <- Zle_Qle. lia.
Qed.

Lemma checkbox_brightness_grey_level_witness :
  let pil := Raster 1275 1650 (fun _ => [0; 255; 255]) in
  let pg := Page 1 612 792 [] [] None pil in
  let cb := Image 100 500 110.5 510.5 in
  (forall box, Forall (fun p => 0 <= p <= 255) (getdata pil box))
  /\ (0 <= checkbox_brightness pg cb pil (1275 / 612) (1650 / 792) <= 255)%Q.
Proof.
  cbv zeta.
  assert (Hpix : forall box,
            Forall (fun p => 0 <= p <= 255)
              (getdata (Raster 1275 1650 (fun _ => [0; 255; 255])) box)).
  { intros box. cbn. repeat constructor; lia. }
  split; [exact Hpix|].
  exact (checkbox_brightness_grey_level _ _ _ _ _ Hpix).
Defined.
